(** * disgobed: the Embed builder of embed.go, over an explicit Go heap

    embed.go wraps [*disgord.Embed] in a builder whose methods all act by
    reference: they mutate the objects behind the pointers they are given and
    return the receiver.  The development therefore models a store of Go
    objects addressed by pointers, a small state-and-panic monad for the
    method bodies, and proves the properties of the builder over that store. *)

From stdpp Require Import base gmap list strings.
From Stdlib Require Import ZArith String Lia.

Local Open Scope string_scope.
Local Open Scope list_scope.
Local Open Scope Z_scope.

(** ** Values of the Go program *)

(** A Go pointer: [None] is [nil], [Some l] the address of an object. *)
Definition loc := positive.
Definition ptr := option loc.

(** [len(s)] of a Go string: its number of bytes, as an [int]. *)
Definition len (s : string) : Z := Z.of_nat (String.length s).

(** The variadic [values ...interface{}] handed to [fmt.Errorf]. *)
Inductive value :=
| VString (s : string)
| VInt (n : Z).

(** An [error] built by [fmt.Errorf(format, values...)]: the format string
    and the values it is applied to, kept unrendered. *)
Record error := Errorf { format : string; values : list value }.

(** [time.Time]: an instant and the location it is displayed in. *)
Record Time := mkTime { instant : Z; location : string }.

(** [t.UTC()]: the same instant with the location set to UTC. *)
Definition UTC (t : Time) : Time := mkTime (instant t) "UTC".

(** The zero [disgord.Time{}]. *)
Definition zeroTime : Time := mkTime 0 "UTC".

(** [disgord.EmbedField]. *)
Record disgord_EmbedField := mkField {
  Name : string;
  Value : string;
  Inline : bool
}.

(** [disgord.Embed], with the members embed.go reads or writes.  The nested
    fragments are held by pointer and [Fields] is a slice of pointers
    ([AddRawField] appends a [*disgord.EmbedField] to it). *)
Record disgord_Embed := mkRaw {
  Title : string;
  Type_ : string;
  Description : string;
  URL : string;
  Timestamp : Time;
  Color : Z;
  Footer : ptr;
  Image : ptr;
  Thumbnail : ptr;
  Video : ptr;
  Provider : ptr;
  Author : ptr;
  Fields : list ptr
}.

(** [type Embed struct { *disgord.Embed; Errors *[]error }]. *)
Record Embed := mkEmbed {
  embedded : ptr;
  Errors : ptr
}.

(** Modelled from the spec: the sub-object builders (Field, Author,
    Thumbnail, Footer, Video, Image, Provider) are declared in files other
    than embed.go.  Section 4.2 gives them all the shape of [Embed]: one raw
    schema fragment and an optional error list. *)
Record Builder := mkBuilder {
  fragment : ptr;
  BErrors : ptr
}.

(** What an address of the store can hold. *)
Inductive object :=
| ORaw (r : disgord_Embed)
| OEmbed (b : Embed)
| OField (f : disgord_EmbedField)
| OBuilder (b : Builder)
| OErrors (l : list error)
| OFragment (kind : string).

Abbreviation heap := (gmap loc object).

(** ** Constants declared outside embed.go *)

(** Modelled from the spec: [lowerCharLimit] is declared outside embed.go;
    the title limit is 256 (section 4.1, and the comment of [SetTitle]). *)
Definition lowerCharLimit : Z := 256.

(** Modelled from the spec: [upperCharLimit] is declared outside embed.go;
    the description limit is 2048 (section 4.1, and the comment of
    [SetDescription]). *)
Definition upperCharLimit : Z := 2048.

(** Modelled from the spec: [maxColorValue] is declared outside embed.go;
    colors satisfy 0 <= n < 16777216 (section 4.1, and the comment of
    [SetColor]). *)
Definition maxColorValue : Z := 16777216.

(** Modelled from the spec: [maxFieldCount] is declared outside embed.go;
    an embed holds at most 25 fields (section 4.1, and the comment of
    [AddFields]). *)
Definition maxFieldCount : Z := 25.

(** ** The state-and-panic monad of method bodies *)

Inductive result (A : Type) :=
| Ok (a : A) (h : heap)
| Panic.
Arguments Ok {A} a h.
Arguments Panic {A}.

Definition M (A : Type) : Type := heap -> result A.

Definition ret {A} (a : A) : M A := fun h => Ok a h.

Definition bind {A B} (m : M A) (k : A -> M B) : M B :=
  fun h => match m h with
           | Ok a h' => k a h'
           | Panic => Panic
           end.

Notation "'let*' x ':=' m 'in' k" := (bind m (fun x => k))
  (at level 10, x pattern, m at level 200, k at level 200).
Notation "m ';;' k" := (bind m (fun _ => k))
  (at level 100, k at level 200, right associativity).

(** A nil pointer dereference.  Reading an address that holds no object, or
    one of another type, cannot happen in Go; the model panics there too. *)
Definition panic {A} : M A := fun _ => Panic.

Definition load (p : ptr) : M (loc * object) :=
  fun h => match p with
           | None => Panic
           | Some l => match h !! l with
                       | Some o => Ok (l, o) h
                       | None => Panic
                       end
           end.

Definition store (l : loc) (o : object) : M unit :=
  fun h => Ok tt (<[l := o]> h).

(** [&T{...}]: a fresh address holding the new object. *)
Definition alloc (o : object) : M loc :=
  fun h => let l := fresh (dom h) in Ok l (<[l := o]> h).

Definition loadEmbed (p : ptr) : M (loc * Embed) :=
  let* (l, o) := load p in
  match o with OEmbed b => ret (l, b) | _ => panic end.

Definition loadRaw (p : ptr) : M (loc * disgord_Embed) :=
  let* (l, o) := load p in
  match o with ORaw r => ret (l, r) | _ => panic end.

Definition loadField (p : ptr) : M (loc * disgord_EmbedField) :=
  let* (l, o) := load p in
  match o with OField f => ret (l, f) | _ => panic end.

Definition loadBuilder (p : ptr) : M (loc * Builder) :=
  let* (l, o) := load p in
  match o with OBuilder b => ret (l, b) | _ => panic end.

Definition loadErrors (p : ptr) : M (loc * list error) :=
  let* (l, o) := load p in
  match o with OErrors es => ret (l, es) | _ => panic end.

(** [for _, x := range xs { body(x) }]. *)
Fixpoint forEach {A} (body : A -> M unit) (xs : list A) : M unit :=
  match xs with
  | [] => ret tt
  | x :: xs' => body x ;; forEach body xs'
  end.

(** The promoted members [e.Title], [e.Fields], ...: through [e] and then
    through the embedded [*disgord.Embed]. *)
Definition promoted (e : ptr) : M (loc * disgord_Embed) :=
  let* (_, b) := loadEmbed e in loadRaw (embedded b).

(** [e.X = v] for a promoted member [X]. *)
Definition assign (e : ptr) (upd : disgord_Embed -> disgord_Embed) : M unit :=
  let* (l, r) := promoted e in store l (ORaw (upd r)).

(** Member updates of [disgord.Embed] and [disgord.EmbedField]. *)
Definition with_Title (v : string) (r : disgord_Embed) : disgord_Embed :=
  mkRaw v (Type_ r) (Description r) (URL r) (Timestamp r) (Color r) (Footer r)
        (Image r) (Thumbnail r) (Video r) (Provider r) (Author r) (Fields r).
Definition with_Type (v : string) (r : disgord_Embed) : disgord_Embed :=
  mkRaw (Title r) v (Description r) (URL r) (Timestamp r) (Color r) (Footer r)
        (Image r) (Thumbnail r) (Video r) (Provider r) (Author r) (Fields r).
Definition with_Description (v : string) (r : disgord_Embed) : disgord_Embed :=
  mkRaw (Title r) (Type_ r) v (URL r) (Timestamp r) (Color r) (Footer r)
        (Image r) (Thumbnail r) (Video r) (Provider r) (Author r) (Fields r).
Definition with_URL (v : string) (r : disgord_Embed) : disgord_Embed :=
  mkRaw (Title r) (Type_ r) (Description r) v (Timestamp r) (Color r) (Footer r)
        (Image r) (Thumbnail r) (Video r) (Provider r) (Author r) (Fields r).
Definition with_Timestamp (v : Time) (r : disgord_Embed) : disgord_Embed :=
  mkRaw (Title r) (Type_ r) (Description r) (URL r) v (Color r) (Footer r)
        (Image r) (Thumbnail r) (Video r) (Provider r) (Author r) (Fields r).
Definition with_Color (v : Z) (r : disgord_Embed) : disgord_Embed :=
  mkRaw (Title r) (Type_ r) (Description r) (URL r) (Timestamp r) v (Footer r)
        (Image r) (Thumbnail r) (Video r) (Provider r) (Author r) (Fields r).
Definition with_Footer (v : ptr) (r : disgord_Embed) : disgord_Embed :=
  mkRaw (Title r) (Type_ r) (Description r) (URL r) (Timestamp r) (Color r) v
        (Image r) (Thumbnail r) (Video r) (Provider r) (Author r) (Fields r).
Definition with_Image (v : ptr) (r : disgord_Embed) : disgord_Embed :=
  mkRaw (Title r) (Type_ r) (Description r) (URL r) (Timestamp r) (Color r)
        (Footer r) v (Thumbnail r) (Video r) (Provider r) (Author r) (Fields r).
Definition with_Thumbnail (v : ptr) (r : disgord_Embed) : disgord_Embed :=
  mkRaw (Title r) (Type_ r) (Description r) (URL r) (Timestamp r) (Color r)
        (Footer r) (Image r) v (Video r) (Provider r) (Author r) (Fields r).
Definition with_Video (v : ptr) (r : disgord_Embed) : disgord_Embed :=
  mkRaw (Title r) (Type_ r) (Description r) (URL r) (Timestamp r) (Color r)
        (Footer r) (Image r) (Thumbnail r) v (Provider r) (Author r) (Fields r).
Definition with_Provider (v : ptr) (r : disgord_Embed) : disgord_Embed :=
  mkRaw (Title r) (Type_ r) (Description r) (URL r) (Timestamp r) (Color r)
        (Footer r) (Image r) (Thumbnail r) (Video r) v (Author r) (Fields r).
Definition with_Author (v : ptr) (r : disgord_Embed) : disgord_Embed :=
  mkRaw (Title r) (Type_ r) (Description r) (URL r) (Timestamp r) (Color r)
        (Footer r) (Image r) (Thumbnail r) (Video r) (Provider r) v (Fields r).
Definition with_Fields (v : list ptr) (r : disgord_Embed) : disgord_Embed :=
  mkRaw (Title r) (Type_ r) (Description r) (URL r) (Timestamp r) (Color r)
        (Footer r) (Image r) (Thumbnail r) (Video r) (Provider r) (Author r) v.
Definition with_Inline (v : bool) (f : disgord_EmbedField) : disgord_EmbedField :=
  mkField (Name f) (Value f) v.

(** [&disgord.Embed{}]: every member at its zero value. *)
Definition zeroEmbed : disgord_Embed :=
  mkRaw "" "" "" "" zeroTime 0 None None None None None None [].

(** ** The methods of embed.go *)

(** [Finalize]: the results [e.Embed, e.Errors] are evaluated first, the
    deferred function then sets [e.Errors = nil]. *)
Definition Finalize (e : ptr) : M (ptr * ptr) :=
  let* (l, b) := loadEmbed e in
  store l (OEmbed (mkEmbed (embedded b) None)) ;;
  ret (embedded b, Errors b).

(** Modelled from the spec: [Finalize] of the sub-object builders
    ([field.Finalize()], [footer.Finalize()], ...) is declared outside
    embed.go.  Section 4.2: it returns the raw fragment and the error list
    or nil, and clears the builder's own error list. *)
Definition Builder_Finalize (p : ptr) : M (ptr * ptr) :=
  let* (l, b) := loadBuilder p in
  store l (OBuilder (mkBuilder (fragment b) None)) ;;
  ret (fragment b, BErrors b).

(** The two statements shared by [addError] and [addRawError]. *)
Definition addRawError (e : ptr) (err : error) : M unit :=
  let* (l, b) := loadEmbed e in
  match Errors b with
  | None =>
      let* a := alloc (OErrors []) in
      store l (OEmbed (mkEmbed (embedded b) (Some a)))
  | Some _ => ret tt
  end ;;
  let* (_, b') := loadEmbed e in
  let* (a, es) := loadErrors (Errors b') in
  store a (OErrors (es ++ [err])).

Definition addError (e : ptr) (fmt : string) (vs : list value) : M unit :=
  let* (l, b) := loadEmbed e in
  match Errors b with
  | None =>
      let* a := alloc (OErrors []) in
      store l (OEmbed (mkEmbed (embedded b) (Some a)))
  | Some _ => ret tt
  end ;;
  let* (_, b') := loadEmbed e in
  let* (a, es) := loadErrors (Errors b') in
  store a (OErrors (es ++ [Errorf fmt vs])).

(** [range *errs] reads the slice once, before the first append. *)
Definition addAllRawErrors (e : ptr) (errs : ptr) : M unit :=
  match errs with
  | None => ret tt
  | Some _ =>
      let* (_, es) := loadErrors errs in
      forEach (addRawError e) es
  end.

Definition NewEmbed : M ptr :=
  let* r := alloc (ORaw zeroEmbed) in
  let* e := alloc (OEmbed (mkEmbed (Some r) None)) in
  ret (Some e).

Section Methods.

(** The format strings of the error messages and the test of the embed
    type are declared outside embed.go; the methods are stated for any. *)
Variable characterCountExceedsLimitErrTemplateString : string.
Variable characterCountExceedsLimitLongErrTemplateString : string.
Variable valueNotBetweenErrTemplateString : string.
Variable fieldLimitReachedErrTemplateString : string.
Variable invalidEmbedTypeErrTemplateString : string.
Variable checkTypeValid : string -> bool.

Definition SetTitle (e : ptr) (title : string) : M ptr :=
  if len title <=? lowerCharLimit then
    assign e (with_Title title) ;; ret e
  else
    addError e characterCountExceedsLimitErrTemplateString
      [VString "embed title"; VInt lowerCharLimit; VInt (len title);
       VString title] ;;
    ret e.

Definition SetDescription (e : ptr) (desc : string) : M ptr :=
  if len desc <=? upperCharLimit then
    assign e (with_Description desc) ;; ret e
  else
    addError e characterCountExceedsLimitLongErrTemplateString
      [VString "embed description"; VInt upperCharLimit; VInt (len desc)] ;;
    ret e.

Definition SetURL (e : ptr) (url : string) : M ptr :=
  assign e (with_URL url) ;; ret e.

Definition SetColor (e : ptr) (color : Z) : M ptr :=
  if (color >=? 0) && (color <? maxColorValue) then
    assign e (with_Color color) ;; ret e
  else
    addError e valueNotBetweenErrTemplateString
      [VString "embed color"; VInt color; VInt 0; VInt maxColorValue] ;;
    ret e.

Definition setRawTimestamp (e : ptr) (timestamp : Time) : M ptr :=
  assign e (with_Timestamp timestamp) ;; ret e.

(** [now] is the reading of [time.Now()]. *)
Definition SetCurrentTimestamp (e : ptr) (now : Time) : M ptr :=
  let utcTime := UTC now in
  setRawTimestamp e utcTime.

Definition SetCustomTimestamp (e : ptr) (t : Time) : M ptr :=
  let utcTime := UTC t in
  setRawTimestamp e utcTime.

Definition setInline (v : bool) (f : ptr) : M unit :=
  let* (l, fld) := loadField f in store l (OField (with_Inline v fld)).

Definition InlineAllFields (e : ptr) : M ptr :=
  let* (_, r) := promoted e in
  forEach (setInline true) (Fields r) ;;
  ret e.

Definition OutlineAllFields (e : ptr) : M ptr :=
  let* (_, r) := promoted e in
  forEach (setInline false) (Fields r) ;;
  ret e.

Definition AddRawField (e : ptr) (field : ptr) : M ptr :=
  let* (_, r) := promoted e in
  if Z.of_nat (List.length (Fields r)) <? maxFieldCount then
    assign e (fun r' => with_Fields (Fields r' ++ [field]) r') ;; ret e
  else
    let* (_, f) := loadField field in
    addError e fieldLimitReachedErrTemplateString
      [VString (Name f); VInt maxFieldCount] ;;
    ret e.

Definition AddField (e : ptr) (field : ptr) : M ptr :=
  let* (res, errs) := Builder_Finalize field in
  addAllRawErrors e errs ;;
  AddRawField e res.

Definition AddFields (e : ptr) (fields : list ptr) : M ptr :=
  forEach (fun f => AddField e f ;; ret tt) fields ;;
  ret e.

Definition AddRawFields (e : ptr) (fields : list ptr) : M ptr :=
  forEach (fun f => AddRawField e f ;; ret tt) fields ;;
  ret e.

Definition SetRawAuthor (e : ptr) (author : ptr) : M ptr :=
  assign e (with_Author author) ;; ret e.

Definition SetAuthor (e : ptr) (author : ptr) : M ptr :=
  let* (res, errs) := Builder_Finalize author in
  addAllRawErrors e errs ;;
  SetRawAuthor e res.

Definition SetRawThumbnail (e : ptr) (thumb : ptr) : M ptr :=
  assign e (with_Thumbnail thumb) ;; ret e.

Definition SetThumbnail (e : ptr) (thumb : ptr) : M ptr :=
  let* (res, errs) := Builder_Finalize thumb in
  addAllRawErrors e errs ;;
  SetRawThumbnail e res.

Definition SetRawProvider (e : ptr) (provider : ptr) : M ptr :=
  assign e (with_Provider provider) ;; ret e.

Definition SetProvider (e : ptr) (provider : ptr) : M ptr :=
  let* (res, errs) := Builder_Finalize provider in
  match errs with
  | Some _ => addAllRawErrors e errs
  | None => ret tt
  end ;;
  SetRawProvider e res.

Definition SetRawFooter (e : ptr) (footer : ptr) : M ptr :=
  assign e (with_Footer footer) ;; ret e.

Definition SetFooter (e : ptr) (footer : ptr) : M ptr :=
  let* (res, errs) := Builder_Finalize footer in
  addAllRawErrors e errs ;;
  SetRawFooter e res.

Definition SetRawVideo (e : ptr) (vid : ptr) : M ptr :=
  assign e (with_Video vid) ;; ret e.

Definition SetVideo (e : ptr) (vid : ptr) : M ptr :=
  let* (res, errs) := Builder_Finalize vid in
  addAllRawErrors e errs ;;
  SetRawVideo e res.

Definition SetRawImage (e : ptr) (img : ptr) : M ptr :=
  assign e (with_Image img) ;; ret e.

Definition SetImage (e : ptr) (img : ptr) : M ptr :=
  let* (res, errs) := Builder_Finalize img in
  addAllRawErrors e errs ;;
  SetRawImage e res.

Definition SetType (e : ptr) (embedType : string) : M ptr :=
  if checkTypeValid embedType then
    assign e (with_Type embedType) ;; ret e
  else
    addError e invalidEmbedTypeErrTemplateString [VString embedType] ;;
    ret e.

End Methods.

(** ** Chains of setter calls *)

(** One call of an exported setter of [*Embed], with its arguments. *)
Inductive call :=
| CSetTitle (title : string)
| CSetDescription (desc : string)
| CSetURL (url : string)
| CSetColor (color : Z)
| CSetCurrentTimestamp (now : Time)
| CSetCustomTimestamp (t : Time)
| CInlineAllFields
| COutlineAllFields
| CAddFields (fields : list ptr)
| CAddRawFields (fields : list ptr)
| CAddField (field : ptr)
| CAddRawField (field : ptr)
| CSetAuthor (author : ptr)
| CSetRawAuthor (author : ptr)
| CSetThumbnail (thumb : ptr)
| CSetRawThumbnail (thumb : ptr)
| CSetProvider (provider : ptr)
| CSetRawProvider (provider : ptr)
| CSetFooter (footer : ptr)
| CSetRawFooter (footer : ptr)
| CSetVideo (vid : ptr)
| CSetRawVideo (vid : ptr)
| CSetImage (img : ptr)
| CSetRawImage (img : ptr)
| CSetType (embedType : string).

(** The constants and the helper declared outside embed.go, gathered. *)
Record externals := {
  titleTemplate : string;
  descriptionTemplate : string;
  colorTemplate : string;
  fieldTemplate : string;
  typeTemplate : string;
  typeValid : string -> bool
}.

Definition exec (x : externals) (e : ptr) (c : call) : M ptr :=
  match c with
  | CSetTitle title => SetTitle (titleTemplate x) e title
  | CSetDescription desc => SetDescription (descriptionTemplate x) e desc
  | CSetURL url => SetURL e url
  | CSetColor color => SetColor (colorTemplate x) e color
  | CSetCurrentTimestamp now => SetCurrentTimestamp e now
  | CSetCustomTimestamp t => SetCustomTimestamp e t
  | CInlineAllFields => InlineAllFields e
  | COutlineAllFields => OutlineAllFields e
  | CAddFields fields => AddFields (fieldTemplate x) e fields
  | CAddRawFields fields => AddRawFields (fieldTemplate x) e fields
  | CAddField field => AddField (fieldTemplate x) e field
  | CAddRawField field => AddRawField (fieldTemplate x) e field
  | CSetAuthor author => SetAuthor e author
  | CSetRawAuthor author => SetRawAuthor e author
  | CSetThumbnail thumb => SetThumbnail e thumb
  | CSetRawThumbnail thumb => SetRawThumbnail e thumb
  | CSetProvider provider => SetProvider e provider
  | CSetRawProvider provider => SetRawProvider e provider
  | CSetFooter footer => SetFooter e footer
  | CSetRawFooter footer => SetRawFooter e footer
  | CSetVideo vid => SetVideo e vid
  | CSetRawVideo vid => SetRawVideo e vid
  | CSetImage img => SetImage e img
  | CSetRawImage img => SetRawImage e img
  | CSetType embedType => SetType (typeTemplate x) (typeValid x) e embedType
  end.

(** A chain [e.c1(...).c2(...)...]: each call is made on the handle the
    previous one returned. *)
Fixpoint run (x : externals) (e : ptr) (cs : list call) : M ptr :=
  match cs with
  | [] => ret e
  | c :: cs' => let* e' := exec x e c in run x e' cs'
  end.

(** ** Reading the store: what the theorems talk about *)

(** The contents of the error list behind a [*[]error]; nil holds none. *)
Definition slice (h : heap) (p : ptr) : list error :=
  match p with
  | None => []
  | Some a => match h !! a with Some (OErrors l) => l | _ => [] end
  end.

(** A [*[]error] is nil or the address of a slice. *)
Definition okErrors (h : heap) (p : ptr) : Prop :=
  match p with
  | None => True
  | Some a => exists l, h !! a = Some (OErrors l)
  end.

(** [e] is the address of a builder as [NewEmbed] makes them: the wrapper
    [b], whose embedded pointer is the address [lr] of the raw embed [r]. *)
Record builder_at (h : heap) (e : loc) (b : Embed) (lr : loc)
    (r : disgord_Embed) : Prop := {
  at_embed : h !! e = Some (OEmbed b);
  at_embedded : embedded b = Some lr;
  at_raw : h !! lr = Some (ORaw r);
  at_errors : okErrors h (Errors b)
}.

(** The errors a builder has recorded so far. *)
Definition errorList (h : heap) (e : loc) : list error :=
  match h !! e with
  | Some (OEmbed b) => slice h (Errors b)
  | _ => []
  end.

(** The raw embed a builder wraps. *)
Definition rawOf (h : heap) (e : loc) : option disgord_Embed :=
  match h !! e with
  | Some (OEmbed b) =>
      match embedded b with
      | Some lr => match h !! lr with Some (ORaw r) => Some r | _ => None end
      | None => None
      end
  | _ => None
  end.

(** [records h e es h']: [h'] is [h] after the builder at [e] has appended
    [es] to its error list, allocating the list when it was nil; no other
    object changed. *)
Definition records (h : heap) (e : loc) (es : list error) (h' : heap) : Prop :=
  exists b p',
    h !! e = Some (OEmbed b) /\
    h' !! e = Some (OEmbed (mkEmbed (embedded b) p')) /\
    okErrors h' p' /\
    slice h' p' = slice h (Errors b) ++ es /\
    (p' = Errors b \/
     (Errors b = None /\ es <> [] /\ exists a, p' = Some a /\ h !! a = None)) /\
    (forall l, l <> e -> Some l <> p' -> h' !! l = h !! l).

(** ** Fields and Field builders in the store *)

(** Every pointer of the list is the address of a field. *)
Definition fields_at (h : heap) (ps : list ptr) : Prop :=
  Forall (fun p => exists l f, p = Some l /\ h !! l = Some (OField f)) ps.

(** The message of the "limit reached" error for a field of a given name. *)
Definition limitError (tmpl : string) (name : string) : error :=
  Errorf tmpl [VString name; VInt maxFieldCount].

(** A Field builder ready to be attached to an embed whose error list is
    behind [pe]: it wraps a field, and its own error list is nil or a slice
    that is not the embed's. *)
Definition field_ready (h : heap) (pe : ptr) (fb : loc) : Prop :=
  exists sb lf f,
    h !! fb = Some (OBuilder sb) /\ fragment sb = Some lf /\
    h !! lf = Some (OField f) /\ okErrors h (BErrors sb) /\
    (forall a, BErrors sb = Some a -> pe <> Some a).

(** The errors a sub-object builder holds, the fragment it wraps, and the
    name of the field behind a pointer. *)
Definition pending (h : heap) (fb : loc) : list error :=
  match h !! fb with
  | Some (OBuilder sb) => slice h (BErrors sb)
  | _ => []
  end.

Definition fragmentOf (h : heap) (fb : loc) : ptr :=
  match h !! fb with
  | Some (OBuilder sb) => fragment sb
  | _ => None
  end.

Definition nameOf (h : heap) (p : ptr) : string :=
  match p with
  | Some l => match h !! l with Some (OField f) => Name f | _ => "" end
  | None => ""
  end.

(** The errors one offered field adds to the embed: its own, and the limit
    error when it is refused. *)
Definition refusal (tmpl : string) (h : heap) (fb : loc) : list error :=
  pending h fb ++ [limitError tmpl (nameOf h (fragmentOf h fb))].

(** The calls that attach the sub-object builder [p]: finalize it, absorb
    its errors, set the raw member. *)
Definition attaching (p : ptr) : list call :=
  [CSetAuthor p; CSetThumbnail p; CSetProvider p; CSetFooter p; CSetVideo p;
   CSetImage p].

(** ** Invariants of a chain *)

(** [m] run from [h] panics or ends in a state and result satisfying [Q]. *)
Definition wlp {A} (m : M A) (Q : A -> heap -> Prop) (h : heap) : Prop :=
  match m h with
  | Ok a h' => Q a h'
  | Panic => True
  end.

(** [m] keeps [P] whenever it returns. *)
Definition preserves (P : heap -> Prop) {A} (m : M A) : Prop :=
  forall h, P h -> wlp m (fun _ h' => P h') h.

(** [m] keeps [P] and returns the handle [e] whenever it returns. *)
Definition keeps (P : heap -> Prop) (e : ptr) (m : M ptr) : Prop :=
  forall h, P h -> wlp m (fun a h' => a = e /\ P h') h.

(** The builder at [e] holds a list that extends [l0], and its [Errors]
    pointer is nil or the address of a slice with at least one error: never
    an allocated, empty list. *)
Definition lazily (l0 : list error) (e : loc) (h : heap) : Prop :=
  exists b,
    h !! e = Some (OEmbed b) /\
    (exists k, slice h (Errors b) = l0 ++ k) /\
    (Errors b = None \/
     exists a es, Errors b = Some a /\ h !! a = Some (OErrors es) /\ es <> []).

(** ** Calls with valid pointers *)

(** [p] is the address of a sub-object builder whose error list is nil or a
    slice. *)
Definition sub_builder (h : heap) (p : ptr) : Prop :=
  exists fb sb, p = Some fb /\ h !! fb = Some (OBuilder sb) /\
                okErrors h (BErrors sb).

(** [p] is the address of a Field builder that wraps a field. *)
Definition sub_field (h : heap) (p : ptr) : Prop :=
  exists fb sb lf f,
    p = Some fb /\ h !! fb = Some (OBuilder sb) /\ okErrors h (BErrors sb) /\
    fragment sb = Some lf /\ h !! lf = Some (OField f).

(** The pointers a call dereferences are addresses of objects: the
    sub-object builder or raw field it is given, and for the two loops over
    the attached fields, those fields. *)
Definition args_ok (h : heap) (r : disgord_Embed) (c : call) : Prop :=
  match c with
  | CInlineAllFields | COutlineAllFields => fields_at h (Fields r)
  | CAddFields fields => Forall (sub_field h) fields
  | CAddRawFields fields => fields_at h fields
  | CAddField field => sub_field h field
  | CAddRawField field => fields_at h [field]
  | CSetAuthor p | CSetThumbnail p | CSetProvider p | CSetFooter p
  | CSetVideo p | CSetImage p => sub_builder h p
  | _ => True
  end.

(** ** Concrete stores *)

(** Sample values for what is declared outside embed.go: five format
    strings, and an enumeration of embed types that has "rich" in it and
    "bogus" not, as the examples of the spec have it. *)
Definition demo : externals := {|
  titleTemplate := "title";
  descriptionTemplate := "description";
  colorTemplate := "color";
  fieldTemplate := "field";
  typeTemplate := "type";
  typeValid := fun s =>
    bool_decide (s ∈ ["rich"; "image"; "video"; "gifv"; "article"; "link"])
|}.

(** The store a program leaves when run from the empty store. *)
Definition final {A} (m : M A) : heap :=
  match m ∅ with Ok _ h => h | Panic => ∅ end.

(** [NewEmbed()] from the empty store: the raw embed at 1, the builder at 2. *)
Definition fresh_embed : heap := final NewEmbed.

(** A title of 257 bytes. *)
Definition long_title : string :=
  String.concat "" (repeat "a" 257).

(** A builder that has already recorded one error. *)
Definition failed_once : heap :=
  final (let* e := NewEmbed in SetColor "color" e (-1)).

(** A fresh builder, and at 3 a Footer builder whose fragment is at 4 and
    whose error list, at 5, holds one error. *)
Definition with_footer : heap :=
  <[5%positive := OErrors [Errorf "footer text" [VInt 2049]]]>
    (<[4%positive := OFragment "footer"]>
       (<[3%positive := OBuilder (mkBuilder (Some 4%positive) (Some 5%positive))]>
          fresh_embed)).

(** A builder with two attached fields, one inline and one not. *)
Definition two_fields : heap :=
  final (let* e := NewEmbed in
         let* f := alloc (OField (mkField "a" "1" true)) in
         let* g := alloc (OField (mkField "b" "2" false)) in
         AddRawFields "field" e [Some f; Some g]).

(** The Field builders of a store with 26 of them: builder [i] at [2i + 11],
    wrapping the field at [2i + 12], for [i < 26]. *)
Definition builders26 : list loc :=
  map (fun i => Pos.of_nat (2 * i + 11)) (seq 0 26).

Definition field_name (i : nat) : string :=
  String (Ascii.ascii_of_nat (65 + i)) "".

(** A fresh builder and 26 error-free Field builders. *)
Definition with_26_builders : heap :=
  foldr (fun i h =>
           <[Pos.of_nat (2 * i + 11) :=
               OBuilder (mkBuilder (Some (Pos.of_nat (2 * i + 12))) None)]>
             (<[Pos.of_nat (2 * i + 12) := OField (mkField (field_name i) "" false)]> h))
        fresh_embed (seq 0 26).

(** A builder holding 25 fields (the field at 3, attached 25 times). *)
Definition full_embed : M ptr :=
  let* e := NewEmbed in
  let* f := alloc (OField (mkField "n" "v" false)) in
  run demo e (repeat (CAddRawField (Some f)) 25).


(** ** Invariants of chains on one builder among others *)

(** The slice at [a] holds [l], and it is not the error list of the builder
    at [e]: the state of a list that [Finalize] has handed out. *)
Definition handed_out (a : loc) (l : list error) (e : loc) (h : heap) : Prop :=
  h !! a = Some (OErrors l) /\
  exists b, h !! e = Some (OEmbed b) /\ Errors b <> Some a.

(** The builder at [e1] wraps the raw embed at [lr1]; a second builder, at
    [e2], has the wrapper [b2], the raw embed [r2] at [lr2] and the errors
    [l2], and its error list is not the one of the first. *)
Definition apart (e1 lr1 e2 : loc) (b2 : Embed) (lr2 : loc)
    (r2 : disgord_Embed) (l2 : list error) (h : heap) : Prop :=
  (exists b1, h !! e1 = Some (OEmbed b1) /\ embedded b1 = Some lr1 /\
              (forall a, Errors b1 = Some a -> Errors b2 <> Some a)) /\
  h !! e2 = Some (OEmbed b2) /\ h !! lr2 = Some (ORaw r2) /\
  okErrors h (Errors b2) /\ slice h (Errors b2) = l2.

(** ** The setters that dereference no argument *)

(** The arm a setter takes when it is handed no sub-object builder and no
    field to look into: the raw embed it leaves and the errors it records,
    read off the method bodies.  [None] for the other setters. *)
Definition plain_effect (x : externals) (c : call) (r : disgord_Embed)
    : option (disgord_Embed * list error) :=
  match c with
  | CSetTitle title =>
      Some (if len title <=? lowerCharLimit then (with_Title title r, [])
            else (r, [Errorf (titleTemplate x)
                        [VString "embed title"; VInt lowerCharLimit;
                         VInt (len title); VString title]]))
  | CSetDescription desc =>
      Some (if len desc <=? upperCharLimit then (with_Description desc r, [])
            else (r, [Errorf (descriptionTemplate x)
                        [VString "embed description"; VInt upperCharLimit;
                         VInt (len desc)]]))
  | CSetURL url => Some (with_URL url r, [])
  | CSetColor color =>
      Some (if (color >=? 0) && (color <? maxColorValue)
            then (with_Color color r, [])
            else (r, [Errorf (colorTemplate x)
                        [VString "embed color"; VInt color; VInt 0;
                         VInt maxColorValue]]))
  | CSetCurrentTimestamp now => Some (with_Timestamp (UTC now) r, [])
  | CSetCustomTimestamp t => Some (with_Timestamp (UTC t) r, [])
  | CSetRawAuthor p => Some (with_Author p r, [])
  | CSetRawThumbnail p => Some (with_Thumbnail p r, [])
  | CSetRawProvider p => Some (with_Provider p r, [])
  | CSetRawFooter p => Some (with_Footer p r, [])
  | CSetRawVideo p => Some (with_Video p r, [])
  | CSetRawImage p => Some (with_Image p r, [])
  | CSetType embedType =>
      Some (if typeValid x embedType then (with_Type embedType r, [])
            else (r, [Errorf (typeTemplate x) [VString embedType]]))
  | _ => None
  end.

(** The arms of a chain, one call after the other. *)
Fixpoint plain_chain (x : externals) (cs : list call) (r : disgord_Embed)
    : option (disgord_Embed * list error) :=
  match cs with
  | [] => Some (r, [])
  | c :: cs' =>
      match plain_effect x c r with
      | Some (r1, es1) =>
          match plain_chain x cs' r1 with
          | Some (r2, es2) => Some (r2, es1 ++ es2)
          | None => None
          end
      | None => None
      end
  end.

(** ** Chains with valid pointers *)

(** The pointers handed to a call are addresses of objects of their type:
    sub-object builders with a nil or allocated error list, Field builders
    that wrap a field, raw fields. *)
Definition ptrs_ok (h : heap) (c : call) : Prop :=
  match c with
  | CAddFields fields => Forall (sub_field h) fields
  | CAddRawFields fields => fields_at h fields
  | CAddField field => sub_field h field
  | CAddRawField field => fields_at h [field]
  | CSetAuthor p | CSetThumbnail p | CSetProvider p | CSetFooter p
  | CSetVideo p | CSetImage p => sub_builder h p
  | _ => True
  end.

(** [h'] still has every field, sub-object builder and slice of [h] at its
    address; a builder wraps the fragment it wrapped, and its error list is
    the one it had or nil. *)
Definition grows (h h' : heap) : Prop :=
  (forall l f, h !! l = Some (OField f) ->
               exists f', h' !! l = Some (OField f')) /\
  (forall l sb, h !! l = Some (OBuilder sb) ->
     exists sb', h' !! l = Some (OBuilder sb') /\
                 fragment sb' = fragment sb /\
                 (BErrors sb' = BErrors sb \/ BErrors sb' = None)) /\
  (forall l es, h !! l = Some (OErrors es) ->
                exists es', h' !! l = Some (OErrors es')).

(** ** More concrete stores *)

(** A description of 2049 bytes. *)
Definition long_description : string :=
  String.concat "" (repeat "d" 2049).

(** Two builders made one after the other: raw embeds at 1 and 3, wrappers
    at 2 and 4. *)
Definition two_builders : heap :=
  final (let* _ := NewEmbed in NewEmbed).

(** The builder with two fields, and beside it a Field builder at 5 that
    wraps the field at 6 and holds one error at 7, and an error-free Footer
    builder at 8 with its fragment at 9. *)
Definition busy : heap :=
  <[9%positive := OFragment "footer"]>
    (<[8%positive := OBuilder (mkBuilder (Some 9%positive) None)]>
       (<[7%positive := OErrors [Errorf "field value" [VInt 1025]]]>
          (<[6%positive := OField (mkField "c" "3" false)]>
             (<[5%positive := OBuilder (mkBuilder (Some 6%positive) (Some 7%positive))]>
                two_fields)))).

(** A chain on [busy] that attaches, loops, fails a validation and attaches
    the finalized Field builder again. *)
Definition busy_chain : list call :=
  [CAddField (Some 5%positive); CSetFooter (Some 8%positive); CInlineAllFields;
   CAddRawField (Some 3%positive); CSetTitle long_title;
   CAddField (Some 5%positive); COutlineAllFields].

(** A chain of setters that dereference no argument. *)
Definition plain_calls : list call :=
  [CSetTitle "a"; CSetTitle long_title; CSetColor (-1); CSetTitle "b";
   CSetURL "u"; CSetRawFooter None].

(** The builder that failed once, finalized and then used again. *)
Definition reused : heap :=
  final (let* e := NewEmbed in
         let* _ := SetColor "color" e (-1) in
         let* _ := Finalize e in
         run demo e [CSetColor (-2); CSetTitle "t"]).

(** ** What the validation of each call yields *)

(** The errors held by the sub-object builder behind a pointer, and the
    fragment it wraps; nothing for nil. *)
Definition pending_of (h : heap) (p : ptr) : list error :=
  match p with
  | Some fb => pending h fb
  | None => []
  end.

Definition fragment_of (h : heap) (p : ptr) : ptr :=
  match p with
  | Some fb => fragmentOf h fb
  | None => None
  end.

(** [AddFields] and [AddRawFields] call [AddField] and [AddRawField] once
    per argument, in order; every other call is itself. *)
Definition expand (c : call) : list call :=
  match c with
  | CAddFields fields => map CAddField fields
  | CAddRawFields fields => map CAddRawField fields
  | _ => [c]
  end.

(** A call of one of the setters that are not variadic. *)
Definition single (c : call) : Prop :=
  match c with
  | CAddFields _ | CAddRawFields _ => False
  | _ => True
  end.

(** The validation failures of one call on the builder at [e] in the store
    [h], read off the method bodies: the error of the rejecting arm of a
    validating setter; the limit error of [AddRawField] when 25 fields are
    attached; for [AddField] the errors of the Field builder, then that
    limit error; for a setter that attaches a sub-object builder, the
    errors of that builder; nothing for the other setters.  (The two
    variadic setters are counted call by call, through [expand].) *)
Definition verdict (x : externals) (h : heap) (e : loc) (c : call)
    : list error :=
  match rawOf h e with
  | None => []
  | Some r =>
      let full := negb (Z.of_nat (List.length (Fields r)) <? maxFieldCount) in
      match c with
      | CAddRawField field =>
          if full then [limitError (fieldTemplate x) (nameOf h field)] else []
      | CAddField field =>
          pending_of h field ++
          (if full
           then [limitError (fieldTemplate x) (nameOf h (fragment_of h field))]
           else [])
      | CSetAuthor p | CSetThumbnail p | CSetProvider p | CSetFooter p
      | CSetVideo p | CSetImage p => pending_of h p
      | _ =>
          match plain_effect x c r with
          | Some (_, es) => es
          | None => []
          end
      end
  end.

(** The validation failures of the calls of a chain, each in the store the
    calls before it have left. *)
Fixpoint verdicts (x : externals) (e : loc) (cs : list call) (h : heap)
    : list (list error) :=
  match cs with
  | [] => []
  | c :: cs' =>
      verdict x h e c ::
      match exec x (Some e) c h with
      | Ok _ h1 => verdicts x e cs' h1
      | Panic => []
      end
  end.

(** A store with no embed yet: a Footer builder at 3 whose fragment is at 4
    and whose error list, at 5, holds one error. *)
Definition footer_only : heap :=
  <[5%positive := OErrors [Errorf "footer text" [VInt 2049]]]>
    (<[4%positive := OFragment "footer"]>
       (<[3%positive := OBuilder (mkBuilder (Some 4%positive) (Some 5%positive))]>
          ∅)).

(** The store a program leaves when run from the store [h]. *)
Definition after {A} (h : heap) (m : M A) : heap :=
  match m h with Ok _ h' => h' | Panic => h end.

(** The errors the [demo] templates give for a color of -1, for the type
    ["bogus"], and the one the Footer builder of [footer_only] holds. *)
Definition color_error : error :=
  Errorf "color" [VString "embed color"; VInt (-1); VInt 0; VInt 16777216].

Definition type_error : error := Errorf "type" [VString "bogus"].

Definition footer_error : error := Errorf "footer text" [VInt 2049].

(** * Proofs *)

(** ** Evaluation lemmas for the monad *)

Lemma bind_Ok {A B} (m : M A) (k : A -> M B) h a h' :
  m h = Ok a h' -> bind m k h = k a h'.
Proof. intros H. unfold bind. now rewrite H. Qed.

Lemma bind_Panic {A B} (m : M A) (k : A -> M B) h :
  m h = Panic -> bind m k h = Panic.
Proof. intros H. unfold bind. now rewrite H. Qed.

Lemma bind_inv {A B} (m : M A) (k : A -> M B) h b h2 :
  bind m k h = Ok b h2 -> exists a h1, m h = Ok a h1 /\ k a h1 = Ok b h2.
Proof.
  unfold bind. destruct (m h) as [a h1|] eqn:E; [|discriminate].
  intros H. now exists a, h1.
Qed.

Lemma loadEmbed_eq (h : heap) e b :
  h !! e = Some (OEmbed b) -> loadEmbed (Some e) h = Ok (e, b) h.
Proof. intros H. unfold loadEmbed, bind, load. now rewrite H. Qed.

Lemma loadRaw_eq (h : heap) l r :
  h !! l = Some (ORaw r) -> loadRaw (Some l) h = Ok (l, r) h.
Proof. intros H. unfold loadRaw, bind, load. now rewrite H. Qed.

Lemma loadField_eq (h : heap) l f :
  h !! l = Some (OField f) -> loadField (Some l) h = Ok (l, f) h.
Proof. intros H. unfold loadField, bind, load. now rewrite H. Qed.

Lemma loadBuilder_eq (h : heap) l b :
  h !! l = Some (OBuilder b) -> loadBuilder (Some l) h = Ok (l, b) h.
Proof. intros H. unfold loadBuilder, bind, load. now rewrite H. Qed.

Lemma loadErrors_eq (h : heap) l es :
  h !! l = Some (OErrors es) -> loadErrors (Some l) h = Ok (l, es) h.
Proof. intros H. unfold loadErrors, bind, load. now rewrite H. Qed.

Lemma promoted_eq h e b lr r :
  builder_at h e b lr r -> promoted (Some e) h = Ok (lr, r) h.
Proof.
  intros [He Hp Hr _]. unfold promoted.
  rewrite (bind_Ok _ _ _ _ _ (loadEmbed_eq _ _ _ He)).
  rewrite Hp. now apply loadRaw_eq.
Qed.

Lemma assign_eq h e b lr r upd :
  builder_at h e b lr r ->
  assign (Some e) upd h = Ok tt (<[lr := ORaw (upd r)]> h).
Proof.
  intros Hb. unfold assign.
  now rewrite (bind_Ok _ _ _ _ _ (promoted_eq _ _ _ _ _ Hb)).
Qed.

(** A raw embed and its wrapper live at different addresses. *)
Lemma builder_at_ne h e b lr r : builder_at h e b lr r -> lr <> e.
Proof. intros [He _ Hr _] ->. congruence. Qed.

Lemma okErrors_insert (h : heap) p l o :
  (forall es, h !! l <> Some (OErrors es)) -> okErrors h p ->
  okErrors (<[l := o]> h) p.
Proof.
  destruct p as [a|]; simpl; [|trivial].
  intros Hl [es Ha]. exists es. rewrite lookup_insert_ne; [done|].
  intros ->. now apply (Hl es).
Qed.

Lemma slice_insert (h : heap) p l o :
  (forall es, h !! l <> Some (OErrors es)) -> okErrors h p ->
  slice (<[l := o]> h) p = slice h p.
Proof.
  destruct p as [a|]; simpl; [|trivial].
  intros Hl [es Ha]. rewrite lookup_insert_ne; [done|].
  intros ->. now apply (Hl es).
Qed.

(** Writing a member of the raw embed keeps the builder in place. *)
Lemma builder_at_assign h e b lr r r' :
  builder_at h e b lr r ->
  builder_at (<[lr := ORaw r']> h) e b lr r'.
Proof.
  intros Hb. pose proof (builder_at_ne _ _ _ _ _ Hb) as Hne.
  destruct Hb as [He Hp Hr Hs]. split; [| done | |].
  - now rewrite lookup_insert_ne.
  - now rewrite lookup_insert_eq.
  - apply okErrors_insert; [congruence | done].
Qed.

(** ** Recording errors *)

Lemma addError_addRawError e fmt vs :
  addError e fmt vs = addRawError e (Errorf fmt vs).
Proof. reflexivity. Qed.

Lemma fresh_unused (h : heap) : h !! fresh (dom h) = None.
Proof. apply not_elem_of_dom, is_fresh. Qed.

Lemma records_refl h e b :
  h !! e = Some (OEmbed b) -> okErrors h (Errors b) -> records h e [] h.
Proof.
  intros He Hs. exists b, (Errors b). destruct b as [p q]; simpl in *.
  repeat split; auto. now rewrite app_nil_r.
Qed.

Lemma records_trans h e es1 h1 es2 h2 :
  records h e es1 h1 -> records h1 e es2 h2 -> records h e (es1 ++ es2) h2.
Proof.
  intros (b & p1 & He & He1 & Hok1 & Hs1 & Hp1 & Hf1)
         (b1 & p2 & He1' & He2 & Hok2 & Hs2 & Hp2 & Hf2).
  rewrite He1 in He1'. injection He1' as <-. simpl in *.
  exists b, p2. repeat split; auto.
  - rewrite Hs2, Hs1. now rewrite app_assoc.
  - destruct Hp2 as [-> | (Hn & Hne & a & -> & Ha)].
    + destruct Hp1 as [-> | (Hn & Hne & a & -> & Ha)]; [now left|].
      right. repeat split; auto.
      * intros Habs. apply app_eq_nil in Habs. tauto.
      * now exists a.
    + subst p1. destruct Hp1 as [Hb | (_ & _ & a' & Habs & _)]; [|discriminate].
      right. repeat split; auto.
      * intros Habs. apply app_eq_nil in Habs. tauto.
      * exists a. split; [done|].
        destruct (decide (a = e)) as [-> | Hae]; [congruence|].
        rewrite <- Hf1; [done | done | congruence].
  - intros l Hle Hlp. rewrite Hf2 by done. apply Hf1; [done|].
    destruct Hp2 as [-> | (Hn & _)]; [done|]. now rewrite Hn.
Qed.

Lemma addRawError_records h e b err :
  h !! e = Some (OEmbed b) -> okErrors h (Errors b) ->
  exists h', addRawError (Some e) err h = Ok tt h' /\ records h e [err] h'.
Proof.
  intros He Hs. unfold addRawError.
  rewrite (bind_Ok _ _ _ _ _ (loadEmbed_eq _ _ _ He)).
  destruct b as [lr [a|]]; simpl in *.
  - destruct Hs as [l Ha].
    assert (Hae : a <> e) by congruence.
    unfold bind at 1, ret.
    rewrite (bind_Ok _ _ _ _ _ (loadEmbed_eq _ _ _ He)). simpl.
    rewrite (bind_Ok _ _ _ _ _ (loadErrors_eq _ _ _ Ha)).
    eexists; split; [reflexivity|].
    exists (mkEmbed lr (Some a)), (Some a); simpl.
    rewrite lookup_insert_ne by done. rewrite lookup_insert_eq, Ha.
    repeat split; eauto.
    intros l' _ Hl'. rewrite lookup_insert_ne; [done | congruence].
  - set (a := fresh (dom h)).
    assert (Ha : h !! a = None) by apply fresh_unused.
    assert (Hae : a <> e) by congruence.
    unfold bind at 1. unfold bind at 1. unfold alloc at 1. fold a.
    unfold store at 1.
    set (h1 := <[e := OEmbed (mkEmbed lr (Some a))]> (<[a := OErrors []]> h)).
    assert (He1 : h1 !! e = Some (OEmbed (mkEmbed lr (Some a))))
      by (unfold h1; apply lookup_insert_eq).
    assert (Ha1 : h1 !! a = Some (OErrors []))
      by (unfold h1; rewrite lookup_insert_ne by done; apply lookup_insert_eq).
    rewrite (bind_Ok _ _ _ _ _ (loadEmbed_eq _ _ _ He1)). simpl.
    rewrite (bind_Ok _ _ _ _ _ (loadErrors_eq _ _ _ Ha1)).
    eexists; split; [reflexivity|].
    exists (mkEmbed lr None), (Some a); simpl.
    rewrite lookup_insert_ne by done. rewrite lookup_insert_eq.
    repeat split; eauto.
    + right. repeat split; eauto; discriminate.
    + intros l' Hl'e Hl'. rewrite lookup_insert_ne by congruence.
      unfold h1. rewrite lookup_insert_ne by congruence.
      rewrite lookup_insert_ne by congruence. done.
Qed.

(** After recording, the builder is still in place with a well-formed list. *)
Lemma records_embed h e es h' b :
  records h e es h' -> h !! e = Some (OEmbed b) ->
  exists p', h' !! e = Some (OEmbed (mkEmbed (embedded b) p')) /\
             okErrors h' p'.
Proof.
  intros (b0 & p' & He & He' & Hok & _) Hb.
  rewrite He in Hb. injection Hb as ->. eauto.
Qed.

Lemma forEach_addRawError_records h e b es :
  h !! e = Some (OEmbed b) -> okErrors h (Errors b) ->
  exists h', forEach (addRawError (Some e)) es h = Ok tt h' /\
             records h e es h'.
Proof.
  revert h b. induction es as [|err es IH]; intros h b He Hs.
  - exists h. split; [reflexivity|]. now apply (records_refl _ _ b).
  - destruct (addRawError_records h e b err He Hs) as (h1 & Hrun & Hrec).
    destruct (records_embed _ _ _ _ _ Hrec He) as (p1 & He1 & Hok1).
    destruct (IH h1 _ He1 Hok1) as (h2 & Hrun2 & Hrec2).
    exists h2. split.
    + simpl. now rewrite (bind_Ok _ _ _ _ _ Hrun).
    + apply (records_trans _ _ [err] h1 es h2); assumption.
Qed.

Lemma addAllRawErrors_records h e b errs :
  h !! e = Some (OEmbed b) -> okErrors h (Errors b) -> okErrors h errs ->
  exists h', addAllRawErrors (Some e) errs h = Ok tt h' /\
             records h e (slice h errs) h'.
Proof.
  intros He Hs Herrs. destruct errs as [a|]; simpl in *.
  - destruct Herrs as [l Ha].
    rewrite (bind_Ok _ _ _ _ _ (loadErrors_eq _ _ _ Ha)). rewrite Ha.
    now apply (forEach_addRawError_records h e b).
  - exists h. split; [reflexivity|]. now apply (records_refl _ _ b).
Qed.

(** Recording leaves every object that is not a slice, and is not the
    builder itself, as it was. *)
Lemma records_frame h e es h' l o :
  records h e es h' -> (forall b, h !! e = Some (OEmbed b) -> okErrors h (Errors b)) ->
  h !! l = Some o -> l <> e -> (forall x, o <> OErrors x) ->
  h' !! l = Some o.
Proof.
  intros (b & p' & He & He' & Hok & Hs & Hp & Hf) Hwf Hl Hle Ho.
  rewrite Hf; [done | done |].
  intros <-. destruct Hp as [Hp | (_ & _ & a & [= <-] & Ha)]; [|congruence].
  specialize (Hwf b He). rewrite <- Hp in Hwf. destruct Hwf as [x Hx].
  rewrite Hl in Hx. injection Hx as ->. now apply (Ho x).
Qed.

Lemma records_builder_at h e b lr r es h' :
  builder_at h e b lr r -> records h e es h' ->
  exists p', builder_at h' e (mkEmbed (Some lr) p') lr r /\
             slice h' p' = slice h (Errors b) ++ es.
Proof.
  intros Hb Hrec. pose proof (builder_at_ne _ _ _ _ _ Hb) as Hne.
  destruct Hb as [He Hp Hr Hs].
  assert (Hr' : h' !! lr = Some (ORaw r)).
  { apply (records_frame h e es h' lr (ORaw r) Hrec); try done.
    intros b0 Hb0. rewrite He in Hb0. now injection Hb0 as <-. }
  destruct Hrec as (b0 & p' & He0 & He' & Hok & Hsl & _).
  rewrite He in He0. injection He0 as <-. rewrite Hp in He'.
  exists p'. split; [|done]. now split.
Qed.

Lemma errorList_eq h e b :
  h !! e = Some (OEmbed b) -> errorList h e = slice h (Errors b).
Proof. intros H. unfold errorList. now rewrite H. Qed.

Lemma rawOf_eq h e b lr r : builder_at h e b lr r -> rawOf h e = Some r.
Proof. intros [He Hp Hr _]. unfold rawOf. now rewrite He, Hp, Hr. Qed.

Lemma records_errorList h e es h' :
  records h e es h' -> errorList h' e = errorList h e ++ es.
Proof.
  intros (b & p' & He & He' & _ & Hs & _). unfold errorList.
  now rewrite He, He'.
Qed.

(** The two arms every validating setter chooses between. *)
Lemma accept_eq h e b lr r upd :
  builder_at h e b lr r ->
  (assign (Some e) upd ;; ret (Some e)) h
  = Ok (Some e) (<[lr := ORaw (upd r)]> h).
Proof.
  intros Hb. now rewrite (bind_Ok _ _ _ _ _ (assign_eq _ _ _ _ _ upd Hb)).
Qed.

Lemma reject_records h e b lr r fmt vs :
  builder_at h e b lr r ->
  exists h', (addError (Some e) fmt vs ;; ret (Some e)) h = Ok (Some e) h' /\
             records h e [Errorf fmt vs] h'.
Proof.
  intros [He _ _ Hs]. rewrite addError_addRawError.
  destruct (addRawError_records h e b (Errorf fmt vs) He Hs) as (h' & Hrun & Hrec).
  exists h'. split; [|done]. now rewrite (bind_Ok _ _ _ _ _ Hrun).
Qed.

Lemma errorList_assign h e b lr r r' :
  builder_at h e b lr r ->
  errorList (<[lr := ORaw r']> h) e = errorList h e.
Proof.
  intros Hb. pose proof (builder_at_ne _ _ _ _ _ Hb) as Hne.
  destruct Hb as [He Hp Hr Hs]. unfold errorList.
  rewrite lookup_insert_ne by done. rewrite He.
  apply slice_insert; [congruence | done].
Qed.

(** What an accepted write leaves behind: the updated raw embed, the same
    wrapper, the same errors. *)
Lemma accept_obs h e b lr r r' :
  builder_at h e b lr r ->
  let h' := <[lr := ORaw r']> h in
  rawOf h' e = Some r' /\ h' !! e = Some (OEmbed b) /\
  errorList h' e = errorList h e.
Proof.
  intros Hb h'. split; [|split].
  - apply (rawOf_eq _ _ b lr). now apply (builder_at_assign h e b lr r).
  - unfold h'. rewrite lookup_insert_ne; [apply Hb|].
    apply (builder_at_ne _ _ _ _ _ Hb).
  - now apply (errorList_assign _ _ b lr r).
Qed.

(** What a rejected write leaves behind: the raw embed as it was, one more
    error at the end of the list. *)
Lemma reject_obs h e b lr r fmt vs :
  builder_at h e b lr r ->
  exists h', (addError (Some e) fmt vs ;; ret (Some e)) h = Ok (Some e) h' /\
             rawOf h' e = Some r /\
             errorList h' e = errorList h e ++ [Errorf fmt vs].
Proof.
  intros Hb. destruct (reject_records h e b lr r fmt vs Hb) as (h' & Hrun & Hrec).
  exists h'. split; [done|]. split.
  - destruct (records_builder_at _ _ _ _ _ _ _ Hb Hrec) as (p' & Hb' & _).
    now apply (rawOf_eq _ _ _ _ _ Hb').
  - now apply records_errorList.
Qed.

(** ** SetTitle, SetColor, SetType *)

(** C1.  On a builder made by [NewEmbed], [SetTitle(s)] with [len(s) <= 256]
    returns with the title of the raw embed set to [s] and the error list
    as it was; with [len(s) > 256] it returns with the raw embed (so its
    title) as it was and the error list extended by exactly one error, the
    "limit exceeded" error of the embed title. *)
Theorem SetTitle_limit (tmpl : string) h e b lr r (s : string) :
  builder_at h e b lr r ->
  (len s <= 256 ->
   exists h', SetTitle tmpl (Some e) s h = Ok (Some e) h' /\
              rawOf h' e = Some (with_Title s r) /\
              Title (with_Title s r) = s /\
              errorList h' e = errorList h e) /\
  (len s > 256 ->
   exists h', SetTitle tmpl (Some e) s h = Ok (Some e) h' /\
              rawOf h' e = Some r /\
              errorList h' e = errorList h e ++
                [Errorf tmpl [VString "embed title"; VInt 256; VInt (len s);
                              VString s]]).
Proof.
  intros Hb. unfold SetTitle, lowerCharLimit. split; intros Hlen.
  - rewrite (proj2 (Z.leb_le _ _) Hlen).
    exists (<[lr := ORaw (with_Title s r)]> h).
    split; [now apply (accept_eq h e b lr r)|].
    destruct (accept_obs h e b lr r (with_Title s r) Hb) as (H1 & _ & H3).
    auto.
  - rewrite (proj2 (Z.leb_gt _ _)) by lia.
    now apply (reject_obs h e b lr r).
Qed.

(** C2.  [SetColor(c)] with [0 <= c < 16777216] returns with the color of
    the raw embed set to [c] and the error list as it was; with any other
    [c] it returns with the raw embed (so its color) as it was and the error
    list extended by exactly one error, the "value not in range" error. *)
Theorem SetColor_range (tmpl : string) h e b lr r (c : Z) :
  builder_at h e b lr r ->
  (0 <= c < 16777216 ->
   exists h', SetColor tmpl (Some e) c h = Ok (Some e) h' /\
              rawOf h' e = Some (with_Color c r) /\
              Color (with_Color c r) = c /\
              errorList h' e = errorList h e) /\
  (~ (0 <= c < 16777216) ->
   exists h', SetColor tmpl (Some e) c h = Ok (Some e) h' /\
              rawOf h' e = Some r /\
              errorList h' e = errorList h e ++
                [Errorf tmpl [VString "embed color"; VInt c; VInt 0;
                              VInt 16777216]]).
Proof.
  intros Hb. unfold SetColor, maxColorValue. split; intros Hc.
  - replace ((c >=? 0) && (c <? 16777216))%bool with true
      by (symmetry; apply andb_true_iff; split; [apply Z.geb_le | apply Z.ltb_lt]; lia).
    exists (<[lr := ORaw (with_Color c r)]> h).
    split; [now apply (accept_eq h e b lr r)|].
    destruct (accept_obs h e b lr r (with_Color c r) Hb) as (H1 & _ & H3).
    auto.
  - replace ((c >=? 0) && (c <? 16777216))%bool with false.
    + now apply (reject_obs h e b lr r).
    + symmetry. apply andb_false_iff.
      destruct (Z.geb_spec c 0); [|now left].
      right. apply Z.ltb_ge. lia.
Qed.

(** C7.  [SetType(name)] with [name] accepted by [checkTypeValid] returns
    with the type of the raw embed set to [name] and the error list as it
    was; with [name] refused it returns with the raw embed (so its type) as
    it was and the error list extended by exactly one error, the "invalid
    type" error carrying [name]. *)
Theorem SetType_enum (tmpl : string) (checkTypeValid : string -> bool)
    h e b lr r (name : string) :
  builder_at h e b lr r ->
  (checkTypeValid name = true ->
   exists h', SetType tmpl checkTypeValid (Some e) name h = Ok (Some e) h' /\
              rawOf h' e = Some (with_Type name r) /\
              Type_ (with_Type name r) = name /\
              errorList h' e = errorList h e) /\
  (checkTypeValid name = false ->
   exists h', SetType tmpl checkTypeValid (Some e) name h = Ok (Some e) h' /\
              rawOf h' e = Some r /\
              errorList h' e = errorList h e ++ [Errorf tmpl [VString name]]).
Proof.
  intros Hb. unfold SetType. split; intros Hv; rewrite Hv.
  - exists (<[lr := ORaw (with_Type name r)]> h).
    split; [now apply (accept_eq h e b lr r)|].
    destruct (accept_obs h e b lr r (with_Type name r) Hb) as (H1 & _ & H3).
    auto.
  - now apply (reject_obs h e b lr r).
Qed.

(** ** Finalize *)

(** C4.  On any Embed builder, a first [Finalize] returns the embedded
    pointer and the error list; a second [Finalize] right after it returns
    the same embedded pointer and a nil error list, and changes nothing in
    the store; the first call changed no object but the builder's own
    wrapper, so the raw embed is the same object with the same contents. *)
Theorem Finalize_twice h e b :
  h !! e = Some (OEmbed b) ->
  exists h1,
    Finalize (Some e) h = Ok (embedded b, Errors b) h1 /\
    Finalize (Some e) h1 = Ok (embedded b, None) h1 /\
    (forall l, l <> e -> h1 !! l = h !! l).
Proof.
  intros He. set (h1 := <[e := OEmbed (mkEmbed (embedded b) None)]> h).
  assert (He1 : h1 !! e = Some (OEmbed (mkEmbed (embedded b) None)))
    by apply lookup_insert_eq.
  exists h1. split; [|split].
  - unfold Finalize. now rewrite (bind_Ok _ _ _ _ _ (loadEmbed_eq _ _ _ He)).
  - unfold Finalize. rewrite (bind_Ok _ _ _ _ _ (loadEmbed_eq _ _ _ He1)).
    simpl. unfold bind, store, ret. now rewrite (insert_id _ _ _ He1).
  - intros l Hl. unfold h1. now rewrite lookup_insert_ne.
Qed.

(** ** InlineAllFields and OutlineAllFields *)

Lemma setInline_eq h l f v :
  h !! l = Some (OField f) ->
  setInline v (Some l) h = Ok tt (<[l := OField (with_Inline v f)]> h).
Proof.
  intros H. unfold setInline.
  now rewrite (bind_Ok _ _ _ _ _ (loadField_eq _ _ _ H)).
Qed.

(** The loop over the attached fields: each field of the list has its flag
    overwritten and keeps its name and value; nothing else changes. *)
Lemma forEach_setInline v ps : forall h,
  fields_at h ps ->
  exists h', forEach (setInline v) ps h = Ok tt h' /\
    (forall l, Some l ∉ ps -> h' !! l = h !! l) /\
    (forall l, Some l ∈ ps ->
       exists f, h !! l = Some (OField f) /\
                 h' !! l = Some (OField (with_Inline v f))).
Proof.
  induction ps as [|p ps IH]; intros h Hps.
  - exists h. split; [reflexivity|]. split; [done|].
    intros l Hl. now apply elem_of_nil in Hl.
  - apply Forall_cons in Hps as [(l0 & f0 & -> & Hl0) Hps].
    set (h1 := <[l0 := OField (with_Inline v f0)]> h).
    assert (Hps1 : fields_at h1 ps).
    { eapply Forall_impl; [exact Hps|]. intros p (l & f & -> & Hl).
      destruct (decide (l = l0)) as [-> | Hne].
      - exists l0, (with_Inline v f0). split; [done|]. apply lookup_insert_eq.
      - exists l, f. split; [done|]. unfold h1. now rewrite lookup_insert_ne. }
    destruct (IH h1 Hps1) as (h' & Hrun & Hout & Hin).
    exists h'. split; [|split].
    + simpl. rewrite (bind_Ok _ _ _ _ _ (setInline_eq _ _ _ v Hl0)). exact Hrun.
    + intros l Hl. apply not_elem_of_cons in Hl as [Hne Hl].
      rewrite (Hout l Hl). unfold h1. rewrite lookup_insert_ne; [done|].
      congruence.
    + intros l Hl.
      destruct (decide (Some l ∈ ps)) as [Hmem | Hnot].
      * destruct (Hin l Hmem) as (f1 & Hf1 & Hf1').
        destruct (decide (l = l0)) as [-> | Hne].
        -- unfold h1 in Hf1. rewrite lookup_insert_eq in Hf1.
           injection Hf1 as <-. exists f0. split; [done|]. exact Hf1'.
        -- unfold h1 in Hf1. rewrite lookup_insert_ne in Hf1 by done.
           exists f1. now split.
      * apply elem_of_cons in Hl as [[= ->] | Hl]; [|contradiction].
        exists f0. split; [done|]. rewrite (Hout l0 Hnot).
        apply lookup_insert_eq.
Qed.

(** The loop leaves every object that is not a field as it was. *)
Lemma fields_loop_frame (h h' : heap) (ps : list ptr) (v : bool) l o :
  (forall l, Some l ∉ ps -> h' !! l = h !! l) ->
  (forall l, Some l ∈ ps ->
     exists f, h !! l = Some (OField f) /\
               h' !! l = Some (OField (with_Inline v f))) ->
  h !! l = Some o -> (forall f, o <> OField f) -> h' !! l = Some o.
Proof.
  intros Hout Hin Hl Ho.
  destruct (decide (Some l ∈ ps)) as [Hmem | Hnot].
  - destruct (Hin l Hmem) as (f & Hf & _).
    rewrite Hl in Hf. injection Hf as ->. now destruct (Ho f).
  - now rewrite (Hout l Hnot).
Qed.

Lemma fields_loop_builder_at (h h' : heap) (ps : list ptr) (v : bool) e b lr r :
  (forall l, Some l ∉ ps -> h' !! l = h !! l) ->
  (forall l, Some l ∈ ps ->
     exists f, h !! l = Some (OField f) /\
               h' !! l = Some (OField (with_Inline v f))) ->
  builder_at h e b lr r -> builder_at h' e b lr r.
Proof.
  intros Hout Hin [He Hp Hr Hs].
  split; [| done | |].
  - now apply (fields_loop_frame h h' ps v).
  - now apply (fields_loop_frame h h' ps v).
  - destruct (Errors b) as [a|]; simpl in *; [|done].
    destruct Hs as [es Ha]. exists es.
    now apply (fields_loop_frame h h' ps v).
Qed.

(** C6.  On a builder whose attached fields are all addresses of fields,
    whatever their inline flags, [InlineAllFields()] followed by
    [OutlineAllFields()] returns, and every attached field is then the field
    it was with its inline flag false; the raw embed is as it was. *)
Theorem Inline_then_Outline h e b lr r :
  builder_at h e b lr r ->
  fields_at h (Fields r) ->
  exists h1 h2,
    InlineAllFields (Some e) h = Ok (Some e) h1 /\
    OutlineAllFields (Some e) h1 = Ok (Some e) h2 /\
    rawOf h2 e = Some r /\
    forall l, Some l ∈ Fields r ->
      exists f, h !! l = Some (OField f) /\
                h2 !! l = Some (OField (with_Inline false f)) /\
                Inline (with_Inline false f) = false.
Proof.
  intros Hb Hfs.
  destruct (forEach_setInline true (Fields r) h Hfs) as (h1 & Hrun1 & Hout1 & Hin1).
  pose proof (fields_loop_builder_at h h1 _ true e b lr r Hout1 Hin1 Hb) as Hb1.
  assert (Hfs1 : fields_at h1 (Fields r)).
  { apply Forall_forall. intros p Hp.
    pose proof (proj1 (Forall_forall _ _) Hfs p Hp) as (l & f & -> & Hl).
    destruct (Hin1 l Hp) as (f1 & _ & Hf1). eauto. }
  destruct (forEach_setInline false (Fields r) h1 Hfs1) as (h2 & Hrun2 & Hout2 & Hin2).
  pose proof (fields_loop_builder_at h1 h2 _ false e b lr r Hout2 Hin2 Hb1) as Hb2.
  exists h1, h2. split; [|split; [|split]].
  - unfold InlineAllFields.
    rewrite (bind_Ok _ _ _ _ _ (promoted_eq _ _ _ _ _ Hb)).
    now rewrite (bind_Ok _ _ _ _ _ Hrun1).
  - unfold OutlineAllFields.
    rewrite (bind_Ok _ _ _ _ _ (promoted_eq _ _ _ _ _ Hb1)).
    now rewrite (bind_Ok _ _ _ _ _ Hrun2).
  - now apply (rawOf_eq _ _ _ _ _ Hb2).
  - intros l Hl. destruct (Hin1 l Hl) as (f & Hf & Hf1).
    destruct (Hin2 l Hl) as (f1 & Hf1' & Hf2).
    rewrite Hf1 in Hf1'. injection Hf1' as <-.
    exists f. split; [done|]. split; [exact Hf2 | reflexivity].
Qed.

(** ** Attaching sub-object builders *)

(** Finalizing a sub-object builder clears its wrapper and touches nothing
    else; the parent builder then absorbs the returned list, read once. *)
Lemma absorb_records h e b lr r fb sb :
  builder_at h e b lr r ->
  h !! fb = Some (OBuilder sb) -> okErrors h (BErrors sb) ->
  let h1 := <[fb := OBuilder (mkBuilder (fragment sb) None)]> h in
  Builder_Finalize (Some fb) h = Ok (fragment sb, BErrors sb) h1 /\
  builder_at h1 e b lr r /\
  exists h2, addAllRawErrors (Some e) (BErrors sb) h1 = Ok tt h2 /\
             records h1 e (slice h (BErrors sb)) h2.
Proof.
  intros Hb Hfb Hok h1. pose proof Hb as [He Hp Hr Hs].
  assert (Hfe : fb <> e) by congruence.
  assert (Hfr : fb <> lr) by congruence.
  assert (Hnos : forall es, h !! fb <> Some (OErrors es)) by congruence.
  assert (Hb1 : builder_at h1 e b lr r).
  { unfold h1. split; [| done | |].
    - now rewrite lookup_insert_ne.
    - now rewrite lookup_insert_ne.
    - now apply okErrors_insert. }
  split; [|split; [done|]].
  - unfold Builder_Finalize.
    now rewrite (bind_Ok _ _ _ _ _ (loadBuilder_eq _ _ _ Hfb)).
  - rewrite <- (slice_insert h (BErrors sb) fb
                  (OBuilder (mkBuilder (fragment sb) None)) Hnos Hok).
    apply (addAllRawErrors_records h1 e b); [apply Hb1 | apply Hb1 |].
    now apply okErrors_insert.
Qed.

(** Clearing the list on [Finalize] does not touch the slice handed back. *)
Lemma Finalize_slice h e b :
  h !! e = Some (OEmbed b) -> okErrors h (Errors b) ->
  exists h', Finalize (Some e) h = Ok (embedded b, Errors b) h' /\
             slice h' (Errors b) = errorList h e.
Proof.
  intros He Hs. eexists. split.
  - unfold Finalize. now rewrite (bind_Ok _ _ _ _ _ (loadEmbed_eq _ _ _ He)).
  - rewrite (errorList_eq _ _ _ He). apply slice_insert; [congruence | done].
Qed.

(** A setter of the shape "finalize the sub-builder, absorb its errors, set
    the raw member". *)
Lemma attach_spec h e b lr r fb sb (upd : ptr -> disgord_Embed -> disgord_Embed) :
  builder_at h e b lr r ->
  h !! fb = Some (OBuilder sb) -> okErrors h (BErrors sb) ->
  exists h' p',
    (let* (res, errs) := Builder_Finalize (Some fb) in
     addAllRawErrors (Some e) errs ;;
     (assign (Some e) (upd res) ;; ret (Some e))) h = Ok (Some e) h' /\
    builder_at h' e (mkEmbed (Some lr) p') lr (upd (fragment sb) r) /\
    errorList h' e = errorList h e ++ slice h (BErrors sb).
Proof.
  intros Hb Hfb Hok.
  destruct (absorb_records h e b lr r fb sb Hb Hfb Hok)
    as (Hfin & Hb1 & h2 & Hrun & Hrec).
  destruct (records_builder_at _ _ _ _ _ _ _ Hb1 Hrec) as (p' & Hb2 & Hsl).
  exists (<[lr := ORaw (upd (fragment sb) r)]> h2), p'. split; [|split].
  - rewrite (bind_Ok _ _ _ _ _ Hfin). rewrite (bind_Ok _ _ _ _ _ Hrun).
    now apply (accept_eq h2 e (mkEmbed (Some lr) p') lr r).
  - now apply (builder_at_assign h2 e (mkEmbed (Some lr) p') lr r).
  - rewrite (errorList_assign h2 e _ lr r _ Hb2).
    rewrite (records_errorList _ _ _ _ Hrec). f_equal.
    unfold errorList. destruct Hb1 as [He1 _ _ Hs1]. destruct Hb as [He _ _ Hs].
    rewrite He1, He. apply slice_insert; [congruence | done].
Qed.

(** The guard of [SetProvider] changes nothing: absorbing nil is a no-op. *)
Lemma SetProvider_eq e p h :
  SetProvider e p h =
  (let* (res, errs) := Builder_Finalize p in
   addAllRawErrors e errs ;;
   (assign e (with_Provider res) ;; ret e)) h.
Proof.
  unfold SetProvider, bind.
  destruct (Builder_Finalize p h) as [[res [a|]] h1|]; reflexivity.
Qed.

(** C5.  [SetFooter] on a Footer builder returns with the footer of the raw
    embed set to the builder's fragment and the embed's error list extended
    by the footer's errors, in their order and with nothing removed;
    [Finalize] of the embed then hands back exactly that list.  So a footer
    with the single error [x], attached to an embed that has recorded
    nothing, makes [Finalize] return the list [[x]].  The same append is
    what every setter that attaches a sub-object builder does. *)
Theorem SetFooter_absorbs h e b lr r fb sb :
  builder_at h e b lr r ->
  h !! fb = Some (OBuilder sb) -> okErrors h (BErrors sb) ->
  (exists h1 h2 p,
     SetFooter (Some e) (Some fb) h = Ok (Some e) h1 /\
     rawOf h1 e = Some (with_Footer (fragment sb) r) /\
     errorList h1 e = errorList h e ++ slice h (BErrors sb) /\
     Finalize (Some e) h1 = Ok (Some lr, p) h2 /\
     slice h2 p = errorList h e ++ slice h (BErrors sb) /\
     (forall x, errorList h e = [] -> slice h (BErrors sb) = [x] ->
                slice h2 p = [x])) /\
  (forall x c, c ∈ attaching (Some fb) ->
     exists h', exec x (Some e) c h = Ok (Some e) h' /\
                errorList h' e = errorList h e ++ slice h (BErrors sb)).
Proof.
  intros Hb Hfb Hok. split.
  - destruct (attach_spec h e b lr r fb sb with_Footer Hb Hfb Hok)
      as (h1 & p' & Hrun & Hb1 & Herr).
    destruct (Finalize_slice h1 e _ (at_embed _ _ _ _ _ Hb1)
                (at_errors _ _ _ _ _ Hb1)) as (h2 & Hfin & Hsl).
    simpl in Hfin, Hsl. rewrite Herr in Hsl.
    exists h1, h2, p'. repeat split; try done.
    + now apply (rawOf_eq _ _ _ _ _ Hb1).
    + intros x H0 H1. now rewrite Hsl, H0, H1.
  - intros x c Hc. unfold attaching in Hc.
    assert (Hany : forall upd,
              exists h',
                (let* (res, errs) := Builder_Finalize (Some fb) in
                 addAllRawErrors (Some e) errs ;;
                 (assign (Some e) (upd res) ;; ret (Some e))) h
                = Ok (Some e) h' /\
                errorList h' e = errorList h e ++ slice h (BErrors sb)).
    { intros upd.
      destruct (attach_spec h e b lr r fb sb upd Hb Hfb Hok)
        as (h' & p' & Hrun & _ & Herr).
      now exists h'. }
    repeat (apply elem_of_cons in Hc as [-> | Hc]);
      [exact (Hany with_Author) | exact (Hany with_Thumbnail)
      | simpl; rewrite SetProvider_eq; exact (Hany with_Provider)
      | exact (Hany with_Footer) | exact (Hany with_Video)
      | exact (Hany with_Image) | now apply elem_of_nil in Hc].
Qed.

(** ** AddField, AddRawField, AddFields *)

(** What a recording step did to the wrapper of a known builder. *)
Lemma records_inv h e b es h' :
  records h e es h' -> h !! e = Some (OEmbed b) ->
  exists p',
    h' !! e = Some (OEmbed (mkEmbed (embedded b) p')) /\
    okErrors h' p' /\
    (p' = Errors b \/ (Errors b = None /\ exists a, p' = Some a /\ h !! a = None)) /\
    (forall l, l <> e -> Some l <> p' -> h' !! l = h !! l).
Proof.
  intros (b0 & p' & He & He' & Hok & Hs & Hp & Hf) Hb.
  rewrite He in Hb. injection Hb as ->. exists p'.
  repeat split; auto.
  destruct Hp as [-> | (Hn & _ & a & -> & Ha)]; [now left|].
  right. split; [done|]. now exists a.
Qed.

Lemma AddRawField_accept tmpl h e b lr r (field : ptr) :
  builder_at h e b lr r ->
  Z.of_nat (List.length (Fields r)) < 25 ->
  AddRawField tmpl (Some e) field h
  = Ok (Some e) (<[lr := ORaw (with_Fields (Fields r ++ [field]) r)]> h).
Proof.
  intros Hb Hlen. unfold AddRawField, maxFieldCount.
  rewrite (bind_Ok _ _ _ _ _ (promoted_eq _ _ _ _ _ Hb)).
  rewrite (proj2 (Z.ltb_lt _ _) Hlen).
  exact (accept_eq h e b lr r
           (fun r' => with_Fields (Fields r' ++ [field]) r') Hb).
Qed.

Lemma AddRawField_reject tmpl h e b lr r lf f :
  builder_at h e b lr r ->
  25 <= Z.of_nat (List.length (Fields r)) ->
  h !! lf = Some (OField f) ->
  exists h', AddRawField tmpl (Some e) (Some lf) h = Ok (Some e) h' /\
             records h e [limitError tmpl (Name f)] h'.
Proof.
  intros Hb Hlen Hlf. unfold AddRawField, maxFieldCount.
  rewrite (bind_Ok _ _ _ _ _ (promoted_eq _ _ _ _ _ Hb)).
  rewrite (proj2 (Z.ltb_ge _ _) Hlen).
  rewrite (bind_Ok _ _ _ _ _ (loadField_eq _ _ _ Hlf)).
  now apply (reject_records h e b lr r).
Qed.

(** One [AddField]: the builder [fb] is finalized, its errors are absorbed,
    and its fragment is appended or refused; besides the embed's wrapper, raw
    embed and error slice, only the wrapper of [fb] changes. *)
Lemma AddField_step tmpl h e b lr r fb sb lf f :
  builder_at h e b lr r ->
  h !! fb = Some (OBuilder sb) -> okErrors h (BErrors sb) ->
  fragment sb = Some lf -> h !! lf = Some (OField f) ->
  let full := negb (Z.of_nat (List.length (Fields r)) <? 25) in
  exists h' p',
    AddField tmpl (Some e) (Some fb) h = Ok (Some e) h' /\
    builder_at h' e (mkEmbed (Some lr) p') lr
      (if full then r else with_Fields (Fields r ++ [Some lf]) r) /\
    errorList h' e = errorList h e ++ slice h (BErrors sb) ++
                     (if full then [limitError tmpl (Name f)] else []) /\
    (p' = Errors b \/ (Errors b = None /\ exists a, p' = Some a /\ h !! a = None)) /\
    (forall l, l <> e -> l <> lr -> l <> fb -> Some l <> p' -> h' !! l = h !! l) /\
    h' !! fb = Some (OBuilder (mkBuilder (Some lf) None)).
Proof.
  intros Hb Hfb Hok Hfrag Hlf full.
  destruct (absorb_records h e b lr r fb sb Hb Hfb Hok)
    as (Hfin & Hb1 & h2 & Hrun & Hrec).
  set (h1 := <[fb := OBuilder (mkBuilder (fragment sb) None)]> h) in *.
  assert (Hfl : fb <> lf) by congruence.
  assert (Hel1 : errorList h1 e = errorList h e).
  { unfold errorList. destruct Hb1 as [He1 _ _ _]. destruct Hb as [He _ _ Hs].
    rewrite He1, He. apply slice_insert; [congruence | done]. }
  assert (Hfresh : forall a, h1 !! a = None -> h !! a = None).
  { intros a Ha. destruct (decide (a = fb)) as [-> | Hne].
    - unfold h1 in Ha. now rewrite lookup_insert_eq in Ha.
    - unfold h1 in Ha. now rewrite lookup_insert_ne in Ha. }
  destruct (records_builder_at _ _ _ _ _ _ _ Hb1 Hrec) as (p2 & Hb2 & _).
  destruct (records_inv _ _ _ _ _ Hrec (at_embed _ _ _ _ _ Hb1))
    as (p2' & He2 & _ & Hp2 & Hf2).
  pose proof (at_embed _ _ _ _ _ Hb2) as He2b.
  assert (p2' = p2) as -> by congruence.
  assert (Hlf2 : h2 !! lf = Some (OField f)).
  { apply (records_frame h1 e _ h2 lf _ Hrec); try done.
    - intros b0 Hb0. rewrite (at_embed _ _ _ _ _ Hb1) in Hb0.
      injection Hb0 as <-. apply Hb1.
    - unfold h1. now rewrite lookup_insert_ne.
    - destruct Hb as [He _ _ _]. congruence. }
  assert (Hwf1 : forall b0, h1 !! e = Some (OEmbed b0) -> okErrors h1 (Errors b0)).
  { intros b0 Hb0. rewrite (at_embed _ _ _ _ _ Hb1) in Hb0.
    injection Hb0 as <-. apply Hb1. }
  assert (Hfe : fb <> e) by (destruct Hb as [He _ _ _]; congruence).
  assert (Hfr : fb <> lr) by (destruct Hb as [_ _ Hr _]; congruence).
  assert (Hfb2 : h2 !! fb = Some (OBuilder (mkBuilder (Some lf) None))).
  { apply (records_frame h1 e _ h2 fb _ Hrec); try done.
    unfold h1. rewrite lookup_insert_eq. now rewrite Hfrag. }
  unfold AddField. rewrite (bind_Ok _ _ _ _ _ Hfin), (bind_Ok _ _ _ _ _ Hrun).
  rewrite Hfrag. unfold full.
  destruct (Z.ltb_spec (Z.of_nat (List.length (Fields r))) 25) as [Hlt | Hge]; simpl.
  - exists (<[lr := ORaw (with_Fields (Fields r ++ [Some lf]) r)]> h2), p2.
    split; [exact (AddRawField_accept tmpl h2 e _ lr r (Some lf) Hb2 Hlt)|].
    split; [exact (builder_at_assign h2 e _ lr r _ Hb2)|].
    split; [|split; [|split]].
    + rewrite (errorList_assign h2 e _ lr r _ Hb2).
      rewrite (records_errorList _ _ _ _ Hrec), Hel1. now rewrite app_nil_r.
    + destruct Hp2 as [-> | (Hn & a & -> & Ha)]; [now left|].
      right. split; [done|]. exists a. auto.
    + intros l Hle Hlr Hlfb Hlp. rewrite lookup_insert_ne by done.
      rewrite Hf2 by done. unfold h1. now rewrite lookup_insert_ne.
    + now rewrite lookup_insert_ne.
  - destruct (AddRawField_reject tmpl h2 e _ lr r lf f Hb2 Hge Hlf2)
      as (h3 & Hrun3 & Hrec3).
    destruct (records_builder_at _ _ _ _ _ _ _ Hb2 Hrec3) as (p3 & Hb3 & _).
    destruct (records_inv _ _ _ _ _ Hrec3 (at_embed _ _ _ _ _ Hb2))
      as (p3' & He3 & _ & Hp3 & Hf3).
    pose proof (at_embed _ _ _ _ _ Hb3) as He3b.
    assert (p3' = p3) as -> by (simpl in He3; congruence).
    simpl in Hp3.
    assert (Hwf2 : forall b0, h2 !! e = Some (OEmbed b0) -> okErrors h2 (Errors b0)).
    { intros b0 Hb0. rewrite (at_embed _ _ _ _ _ Hb2) in Hb0.
      injection Hb0 as <-. apply Hb2. }
    exists h3, p3. split; [done|]. split; [done|]. split; [|split; [|split]];
      [| | | now apply (records_frame h2 e _ h3 fb _ Hrec3)].
    + rewrite (records_errorList _ _ _ _ Hrec3).
      rewrite (records_errorList _ _ _ _ Hrec), Hel1. now rewrite app_assoc.
    + destruct Hp3 as [-> | (-> & a & -> & Ha)].
      * destruct Hp2 as [-> | (Hn & a & -> & Ha)]; [now left|].
        right. split; [done|]. exists a. auto.
      * destruct Hp2 as [Hp2 | (_ & a' & [=] & _)].
        right. split; [done|]. exists a. split; [done|].
        apply Hfresh. destruct (decide (a = e)) as [-> | Hae].
        -- rewrite (at_embed _ _ _ _ _ Hb2) in Ha. discriminate.
        -- rewrite <- Hf2; [done | done | discriminate].
    + intros l Hle Hlr Hlfb Hlp. rewrite Hf3 by done.
      assert (Hlp2 : Some l <> p2).
      { destruct Hp3 as [-> | (-> & _)]; [done | discriminate]. }
      rewrite Hf2 by done. unfold h1. now rewrite lookup_insert_ne.
Qed.


(** A ready builder that an [AddField] on another builder did not touch is
    still ready, with the same errors, fragment and name. *)
Lemma field_ready_frame h h' pe pe' e lr fb fb' :
  field_ready h pe fb' -> fb' <> fb ->
  (exists b, h !! e = Some (OEmbed b)) -> (exists r, h !! lr = Some (ORaw r)) ->
  (exists sb, h !! fb = Some (OBuilder sb)) ->
  okErrors h pe ->
  (pe' = pe \/ exists a, pe' = Some a /\ h !! a = None) ->
  (forall l, l <> e -> l <> lr -> l <> fb -> Some l <> pe' -> h' !! l = h !! l) ->
  field_ready h' pe' fb' /\ pending h' fb' = pending h fb' /\
  fragmentOf h' fb' = fragmentOf h fb' /\
  nameOf h' (fragmentOf h' fb') = nameOf h (fragmentOf h fb').
Proof.
  intros (sb & lf & f & Hfb & Hfrag & Hlf & Hok & Hal) Hne [b He] [r Hr]
         [sb0 Hfb0] Hpeok Hpe Hf.
  assert (Hkeep : forall l o, h !! l = Some o -> l <> fb ->
                    (forall x, o <> OEmbed x) -> (forall x, o <> ORaw x) ->
                    pe <> Some l -> h' !! l = Some o).
  { intros l o Hl Hlfb Ho1 Ho2 Hlpe. rewrite Hf; try done.
    - intros ->. rewrite He in Hl. injection Hl as <-. now apply (Ho1 b).
    - intros ->. rewrite Hr in Hl. injection Hl as <-. now apply (Ho2 r).
    - destruct Hpe as [-> | (a & -> & Ha)]; [congruence|].
      intros [= ->]. congruence. }
  assert (Hnotpe : forall l o, h !! l = Some o -> (forall x, o <> OErrors x) ->
                     pe <> Some l).
  { intros l o Hl Ho ->. destruct Hpeok as [x Hx]. rewrite Hl in Hx.
    injection Hx as ->. now apply (Ho x). }
  assert (Hfb' : h' !! fb' = Some (OBuilder sb)).
  { apply Hkeep; try done. now apply (Hnotpe _ _ Hfb). }
  assert (Hlf' : h' !! lf = Some (OField f)).
  { apply Hkeep; try done; [congruence|]. now apply (Hnotpe _ _ Hlf). }
  assert (Hsl : okErrors h' (BErrors sb) /\ slice h' (BErrors sb) = slice h (BErrors sb)).
  { destruct (BErrors sb) as [a|] eqn:Ea; simpl; [|done].
    destruct Hok as [es Ha].
    assert (Ha' : h' !! a = Some (OErrors es)).
    { apply Hkeep; try done; [congruence|]. now apply Hal. }
    rewrite Ha', Ha. eauto. }
  destruct Hsl as [Hok' Hsl].
  split; [|split; [|split]].
  - exists sb, lf, f. repeat split; try done.
    intros a Ha. destruct Hpe as [-> | (a' & -> & Ha')]; [now apply Hal|].
    intros [= ->]. rewrite Ha in Hok. destruct Hok as [es Hes]. congruence.
  - unfold pending. now rewrite Hfb', Hfb.
  - unfold fragmentOf. now rewrite Hfb', Hfb.
  - unfold fragmentOf. rewrite Hfb', Hfb, Hfrag. simpl. now rewrite Hlf', Hlf.
Qed.

Lemma forEach_cons_Ok {A} (body : A -> M unit) x xs h h1 :
  body x h = Ok tt h1 -> forEach body (x :: xs) h = forEach body xs h1.
Proof. intros H. simpl. now rewrite (bind_Ok _ _ _ _ _ H). Qed.

Lemma with_Fields_same r : with_Fields (Fields r) r = r.
Proof. now destruct r. Qed.

(** The loop of [AddFields] over ready, pairwise distinct Field builders:
    with [room] places left, the fragments of the first [room] builders are
    appended in order and their errors absorbed; each later builder has its
    errors absorbed and is refused with an error of its own. *)
Lemma AddFields_loop tmpl e lr : forall fs h b r,
  builder_at h e b lr r -> NoDup fs ->
  Forall (field_ready h (Errors b)) fs ->
  let room := (25 - List.length (Fields r))%nat in
  exists h' p',
    forEach (fun f => AddField tmpl (Some e) f ;; ret tt) (map Some fs) h
    = Ok tt h' /\
    builder_at h' e (mkEmbed (Some lr) p') lr
      (with_Fields (Fields r ++ take room (map (fragmentOf h) fs)) r) /\
    errorList h' e =
      errorList h e ++ List.concat (map (pending h) (take room fs))
                    ++ List.concat (map (refusal tmpl h) (drop room fs)).
Proof.
  induction fs as [|fb fs IH]; intros h b r Hb Hnd Hall room.
  - exists h, (Errors b). split; [reflexivity|]. split.
    + simpl map. rewrite take_nil, app_nil_r, with_Fields_same.
      destruct Hb as [He Hp Hr Hs]. destruct b as [pb qb]; simpl in *.
      subst pb. now split.
    + rewrite take_nil, drop_nil. simpl. now rewrite app_nil_r.
  - apply NoDup_cons in Hnd as [Hnotin Hnd].
    apply Forall_cons in Hall as [Hfb Hall].
    destruct Hfb as (sb & lf & f & Hfb & Hfrag & Hlf & Hok & Hal).
    destruct (AddField_step tmpl h e b lr r fb sb lf f Hb Hfb Hok Hfrag Hlf)
      as (h1 & p1 & Hrun1 & Hb1 & Herr1 & Hp1 & Hf1 & _).
    assert (Hrest : Forall (fun fb' =>
              field_ready h1 p1 fb' /\ pending h1 fb' = pending h fb' /\
              fragmentOf h1 fb' = fragmentOf h fb' /\
              nameOf h1 (fragmentOf h1 fb') = nameOf h (fragmentOf h fb')) fs).
    { apply Forall_forall. intros fb' Hin.
      pose proof (proj1 (Forall_forall _ _) Hall fb' Hin) as Hready.
      apply (field_ready_frame h h1 (Errors b) p1 e lr fb fb'); try done.
      - intros ->. contradiction.
      - exists b. apply Hb.
      - exists r. apply Hb.
      - now exists sb.
      - apply Hb.
      - destruct Hp1 as [-> | (_ & a & -> & Ha)]; [now left|].
        right. now exists a. }
    assert (Hready1 : Forall (field_ready h1 p1) fs)
      by (eapply Forall_impl; [exact Hrest|]; now intros ? (? & _)).
    assert (Hsub : forall (g1 g : loc -> list error) n,
              Forall (fun x => g1 x = g x) fs ->
              map g1 (take n fs) = map g (take n fs) /\
              map g1 (drop n fs) = map g (drop n fs)).
    { intros g1 g n Hg. split; apply List.map_ext_Forall.
      - now apply Forall_take.
      - now apply Forall_drop. }
    assert (Hpe : Forall (fun x => pending h1 x = pending h x) fs)
      by (eapply Forall_impl; [exact Hrest|]; now intros ? (_ & ? & _)).
    assert (Hre : Forall (fun x => refusal tmpl h1 x = refusal tmpl h x) fs).
    { eapply Forall_impl; [exact Hrest|]. intros x (_ & Hx1 & Hx2 & Hx3).
      unfold refusal. now rewrite Hx1, Hx3. }
    assert (Hfr : map (fragmentOf h1) fs = map (fragmentOf h) fs).
    { apply List.map_ext_Forall.
      eapply Forall_impl; [exact Hrest|]. now intros ? (_ & _ & ? & _). }
    assert (Hfragfb : fragmentOf h fb = Some lf)
      by (unfold fragmentOf; now rewrite Hfb).
    assert (Hpendfb : pending h fb = slice h (BErrors sb))
      by (unfold pending; now rewrite Hfb).
    assert (Hnamefb : nameOf h (Some lf) = Name f)
      by (unfold nameOf; now rewrite Hlf).
    destruct (Z.ltb_spec (Z.of_nat (List.length (Fields r))) 25) as [Hlt | Hge];
      simpl in Hb1, Herr1.
    + destruct (IH h1 _ _ Hb1 Hnd Hready1) as (h' & p' & Hrun & Hb' & Herr).
      simpl in Hb', Herr. rewrite length_app in Hb', Herr. simpl in Hb', Herr.
      assert (Hroom : room = S (25 - (List.length (Fields r) + 1))%nat)
        by (unfold room; lia).
      exists h', p'. split; [|split].
      * simpl map. rewrite (forEach_cons_Ok _ _ _ _ h1); [exact Hrun|].
        now rewrite (bind_Ok _ _ _ _ _ Hrun1).
      * rewrite Hroom. simpl. rewrite Hfragfb.
        rewrite Hfr, <- app_assoc in Hb'. exact Hb'.
      * rewrite Herr, Herr1, Hroom. simpl.
        destruct (Hsub _ _ (25 - (List.length (Fields r) + 1))%nat Hpe) as [-> _].
        destruct (Hsub _ _ (25 - (List.length (Fields r) + 1))%nat Hre) as [_ ->].
        rewrite Hpendfb, app_nil_r. now rewrite <- !app_assoc.
    + destruct (IH h1 _ _ Hb1 Hnd Hready1) as (h' & p' & Hrun & Hb' & Herr).
      assert (Hroom : room = 0%nat) by (unfold room; lia).
      fold room in Hb', Herr. rewrite Hroom in Hb', Herr |- *.
      rewrite take_0, drop_0 in Herr. rewrite take_0 in Hb'.
      exists h', p'. split; [|split].
      * simpl map. rewrite (forEach_cons_Ok _ _ _ _ h1); [exact Hrun|].
        now rewrite (bind_Ok _ _ _ _ _ Hrun1).
      * now rewrite take_0.
      * rewrite take_0, drop_0. rewrite Herr, Herr1. simpl.
        rewrite (List.map_ext_Forall _ _ Hre). unfold refusal at 2.
        rewrite Hfragfb, Hnamefb, Hpendfb. now rewrite <- !app_assoc.
Qed.

Lemma concat_all_nil {A B} (g : A -> list B) (l : list A) :
  Forall (fun x => g x = []) l -> List.concat (map g l) = [].
Proof.
  induction 1 as [|x l Hx _ IH]; simpl; [done|]. now rewrite Hx, IH.
Qed.

Lemma AddRawField_returns tmpl e f h a h' :
  AddRawField tmpl e f h = Ok a h' -> a = e.
Proof.
  unfold AddRawField. intros H.
  apply bind_inv in H as ([l r] & h1 & _ & H).
  destruct (Z.of_nat (List.length (Fields r)) <? maxFieldCount).
  - apply bind_inv in H as (u & h2 & _ & H). now injection H.
  - apply bind_inv in H as ([l' f'] & h2 & _ & H).
    apply bind_inv in H as (u & h3 & _ & H). now injection H.
Qed.

Lemma AddField_returns tmpl e f h a h' :
  AddField tmpl e f h = Ok a h' -> a = e.
Proof.
  unfold AddField. intros H.
  apply bind_inv in H as ([res errs] & h1 & _ & H).
  apply bind_inv in H as (u & h2 & _ & H).
  now apply AddRawField_returns in H.
Qed.

(** The loop of [AddFields] is the chain [e.AddField(f1).AddField(f2)...]. *)
Lemma AddFields_as_chain (x : externals) e : forall fs h h',
  forEach (fun f => AddField (fieldTemplate x) e f ;; ret tt) fs h = Ok tt h' ->
  run x e (map CAddField fs) h = Ok e h'.
Proof.
  induction fs as [|f fs IH]; intros h h' H; simpl in *.
  - now injection H as <-.
  - apply bind_inv in H as (u & h1 & H1 & H).
    apply bind_inv in H1 as (a & h1' & Ha & Hret). injection Hret as _ <-.
    pose proof (AddField_returns _ _ _ _ _ _ Ha) as ->.
    rewrite (bind_Ok _ _ _ _ _ Ha). now apply IH.
Qed.

(** C3.  [AddFields] over pairwise distinct, ready Field builders returns,
    and so does the chain of [AddField] calls over them, with the same
    store; the raw embed then holds its former fields followed by the
    fragments of the first [25 - n] builders in input order ([n] the former
    count), and the error list is extended by the errors of the accepted
    builders and, for each later builder in turn, its errors and a limit
    error of its own.  In particular 26 error-free builders offered to an
    embed with no field and no error leave exactly the first 25 fragments,
    in order, and exactly one error, the limit error naming the 26th
    field. *)
Theorem AddFields_limit (x : externals) h e b lr r (fs : list loc) :
  builder_at h e b lr r -> NoDup fs ->
  Forall (field_ready h (Errors b)) fs ->
  let tmpl := fieldTemplate x in
  let room := (25 - List.length (Fields r))%nat in
  exists h' r',
    AddFields tmpl (Some e) (map Some fs) h = Ok (Some e) h' /\
    run x (Some e) (map CAddField (map Some fs)) h = Ok (Some e) h' /\
    rawOf h' e = Some r' /\
    Fields r' = Fields r ++ take room (map (fragmentOf h) fs) /\
    errorList h' e =
      errorList h e ++ List.concat (map (pending h) (take room fs))
                    ++ List.concat (map (refusal tmpl h) (drop room fs)) /\
    (Fields r = [] -> errorList h e = [] -> List.length fs = 26%nat ->
     Forall (fun fb => pending h fb = []) fs ->
     Fields r' = map (fragmentOf h) (take 25 fs) /\
     List.length (Fields r') = 25%nat /\
     exists last, fs !! 25%nat = Some last /\
       errorList h' e =
         [Errorf tmpl [VString (nameOf h (fragmentOf h last)); VInt 25]]).
Proof.
  intros Hb Hnd Hall tmpl room.
  destruct (AddFields_loop tmpl e lr fs h b r Hb Hnd Hall)
    as (h' & p' & Hrun & Hb' & Herr).
  fold room in Hb', Herr.
  exists h', (with_Fields (Fields r ++ take room (map (fragmentOf h) fs)) r).
  split; [|split; [|split; [|split; [|split]]]].
  - unfold AddFields. now rewrite (bind_Ok _ _ _ _ _ Hrun).
  - now apply AddFields_as_chain.
  - now apply (rawOf_eq _ _ _ _ _ Hb').
  - reflexivity.
  - exact Herr.
  - intros Hempty Hnone Hlen Hclean. simpl.
    assert (Hroom : room = 25%nat) by (unfold room; now rewrite Hempty).
    rewrite Hempty, Hroom. simpl app.
    destruct (lookup_lt_is_Some_2 fs 25) as [last Hlast]; [lia|].
    split; [apply List.firstn_map|].
    split.
    + rewrite List.firstn_map, length_map, length_take. lia.
    + exists last. split; [done|].
      rewrite Herr, Hnone, Hroom. simpl app.
      rewrite (concat_all_nil _ _ (Forall_take _ _ _ Hclean)). simpl app.
      rewrite (drop_S _ _ _ Hlast), (drop_ge fs 26) by lia. simpl.
      unfold refusal.
      rewrite (proj1 (Forall_forall _ _) Hclean last
                 (list_elem_of_lookup_2 _ _ _ Hlast)).
      now rewrite app_nil_r.
Qed.

(** ** The lazily allocated error list *)

Lemma preserves_ret P {A} (a : A) : preserves P (ret a).
Proof. intros h HP. exact HP. Qed.

Lemma preserves_panic P {A} : preserves P (@panic A).
Proof. intros h HP. exact I. Qed.

Lemma preserves_bind P {A B} (m : M A) (k : A -> M B) :
  preserves P m -> (forall a, preserves P (k a)) -> preserves P (bind m k).
Proof.
  intros Hm Hk h HP. specialize (Hm h HP). unfold wlp, bind in *.
  destruct (m h) as [a h1|]; [|exact I]. exact (Hk a h1 Hm).
Qed.

Lemma keeps_ret P e : keeps P e (ret e).
Proof. intros h HP. split; [reflexivity | exact HP]. Qed.

Lemma keeps_bind P e {A} (m : M A) (k : A -> M ptr) :
  preserves P m -> (forall a, keeps P e (k a)) -> keeps P e (bind m k).
Proof.
  intros Hm Hk h HP. specialize (Hm h HP). unfold wlp, bind in *.
  destruct (m h) as [a h1|]; [|exact I]. exact (Hk a h1 Hm).
Qed.

Lemma preserves_forEach P {A} (body : A -> M unit) xs :
  (forall x, preserves P (body x)) -> preserves P (forEach body xs).
Proof.
  intros Hbody. induction xs as [|x xs IH]; simpl.
  - apply preserves_ret.
  - apply preserves_bind; [apply Hbody | intros _; exact IH].
Qed.

(** Reading never changes the store. *)
Lemma load_inv p h l o h' :
  load p h = Ok (l, o) h' -> h' = h /\ p = Some l /\ h !! l = Some o.
Proof.
  unfold load. destruct p as [l0|]; [|discriminate].
  destruct (h !! l0) as [o0|] eqn:E; [|discriminate].
  intros [= <- <- <-]. auto.
Qed.

Lemma preserves_load P p : preserves P (load p).
Proof.
  intros h HP. unfold wlp. destruct (load p h) as [[l o] h'|] eqn:E; [|exact I].
  apply load_inv in E as (-> & _). exact HP.
Qed.

Lemma preserves_loadEmbed P p : preserves P (loadEmbed p).
Proof.
  apply preserves_bind; [apply preserves_load|].
  intros [l []]; (apply preserves_ret || apply preserves_panic).
Qed.

Lemma preserves_loadRaw P p : preserves P (loadRaw p).
Proof.
  apply preserves_bind; [apply preserves_load|].
  intros [l []]; (apply preserves_ret || apply preserves_panic).
Qed.

Lemma preserves_loadErrors P p : preserves P (loadErrors p).
Proof.
  apply preserves_bind; [apply preserves_load|].
  intros [l []]; (apply preserves_ret || apply preserves_panic).
Qed.

Lemma preserves_promoted P p : preserves P (promoted p).
Proof.
  apply preserves_bind; [apply preserves_loadEmbed|].
  intros [l b]. apply preserves_loadRaw.
Qed.

(** Overwriting an object that is neither a wrapper nor a slice by one that
    is neither keeps the error list of every builder as it is. *)
Lemma lazily_insert l0 e h l o o' :
  h !! l = Some o ->
  (forall x, o <> OEmbed x) -> (forall x, o <> OErrors x) ->
  lazily l0 e h -> lazily l0 e (<[l := o']> h).
Proof.
  intros Hl Ho1 Ho2 (b & He & Hpre & Hlazy).
  assert (Hle : l <> e) by (intros ->; rewrite He in Hl; injection Hl as <-; now apply (Ho1 b)).
  assert (Hla : forall a es, h !! a = Some (OErrors es) -> l <> a).
  { intros a es Ha ->. rewrite Ha in Hl. injection Hl as <-. now apply (Ho2 es). }
  exists b. split; [now rewrite lookup_insert_ne|]. split.
  - destruct (Errors b) as [a|] eqn:Ea; simpl in *; [|done].
    destruct Hlazy as [[=] | (a' & es & [= <-] & Ha & Hne)].
    rewrite lookup_insert_ne by (now apply (Hla a es)). exact Hpre.
  - destruct Hlazy as [Hn | (a & es & Ha & Hes & Hne)]; [now left|].
    right. exists a, es. split; [done|]. split; [|done].
    rewrite lookup_insert_ne; [done | now apply (Hla a es)].
Qed.

Lemma lazily_records l0 e h es h' :
  lazily l0 e h -> records h e es h' -> lazily l0 e h'.
Proof.
  intros (b & He & [k Hpre] & Hlazy) (b0 & p' & He0 & He' & Hok & Hs & Hp & Hf).
  rewrite He in He0. injection He0 as <-.
  exists (mkEmbed (embedded b) p'). split; [done|]. simpl. split.
  - exists (k ++ es). now rewrite Hs, Hpre, app_assoc.
  - destruct p' as [a|]; [|now left]. right. simpl in Hok, Hs.
    destruct Hok as [es' Ha]. rewrite Ha in Hs. exists a, es'.
    split; [done|]. split; [done|]. subst es'.
    destruct Hp as [Hp | (_ & Hne & _)].
    + destruct Hlazy as [Hn | (a' & es0 & Ha' & Hes0 & Hne0)]; [congruence|].
      rewrite Ha'. simpl. rewrite Hes0. intros Habs.
      apply app_eq_nil in Habs. tauto.
    + intros Habs. apply app_eq_nil in Habs. tauto.
Qed.

Lemma lazily_okErrors l0 e h b :
  lazily l0 e h -> h !! e = Some (OEmbed b) -> okErrors h (Errors b).
Proof.
  intros (b0 & He & _ & Hlazy) Hb. rewrite He in Hb. injection Hb as ->.
  destruct Hlazy as [-> | (a & es & -> & Ha & _)]; simpl; eauto.
Qed.

Lemma preserves_addRawError l0 e err :
  preserves (lazily l0 e) (addRawError (Some e) err).
Proof.
  intros h HP. pose proof HP as (b & He & _).
  destruct (addRawError_records h e b err He (lazily_okErrors _ _ _ _ HP He))
    as (h' & Hrun & Hrec).
  unfold wlp. rewrite Hrun. now apply (lazily_records l0 e h [err]).
Qed.

Lemma preserves_addError l0 e fmt vs :
  preserves (lazily l0 e) (addError (Some e) fmt vs).
Proof. rewrite addError_addRawError. apply preserves_addRawError. Qed.

Lemma preserves_addAllRawErrors l0 e errs :
  preserves (lazily l0 e) (addAllRawErrors (Some e) errs).
Proof.
  destruct errs as [a|]; simpl; [|apply preserves_ret].
  apply preserves_bind; [apply preserves_loadErrors|].
  intros [l es]. apply preserves_forEach. intros err.
  apply preserves_addRawError.
Qed.

Lemma preserves_assign l0 e p upd : preserves (lazily l0 e) (assign p upd).
Proof.
  intros h HP. unfold wlp, assign, bind.
  destruct (promoted p h) as [[l r] h1|] eqn:E; [|exact I].
  unfold promoted, bind in E.
  destruct (loadEmbed p h) as [[le b] h0|] eqn:E0; [|discriminate].
  unfold loadEmbed, bind in E0.
  destruct (load p h) as [[l1 o1] h01|] eqn:E1; [|discriminate].
  apply load_inv in E1 as (-> & _ & _).
  destruct o1; try discriminate. injection E0 as <- <- <-.
  unfold loadRaw, bind in E.
  destruct (load (embedded b0) h) as [[l2 o2] h02|] eqn:E2; [|discriminate].
  apply load_inv in E2 as (-> & _ & Hl2).
  destruct o2; try discriminate. injection E as <- <- <-.
  simpl. apply (lazily_insert l0 e h l2 _ _ Hl2); discriminate || auto.
Qed.

Lemma preserves_setInline l0 e v p : preserves (lazily l0 e) (setInline v p).
Proof.
  intros h HP. unfold wlp, setInline, bind, loadField, bind.
  destruct (load p h) as [[l o] h1|] eqn:E; [|exact I].
  apply load_inv in E as (-> & _ & Hl).
  destruct o; try exact I. simpl.
  apply (lazily_insert l0 e h l _ _ Hl); discriminate || auto.
Qed.

Lemma preserves_Builder_Finalize l0 e p :
  preserves (lazily l0 e) (Builder_Finalize p).
Proof.
  intros h HP. unfold wlp, Builder_Finalize, bind, loadBuilder, bind.
  destruct (load p h) as [[l o] h1|] eqn:E; [|exact I].
  apply load_inv in E as (-> & _ & Hl).
  destruct o; try exact I. simpl.
  apply (lazily_insert l0 e h l _ _ Hl); discriminate || auto.
Qed.

Lemma preserves_loadField P p : preserves P (loadField p).
Proof.
  apply preserves_bind; [apply preserves_load|].
  intros [l []]; (apply preserves_ret || apply preserves_panic).
Qed.

Lemma keeps_preserves P e m : keeps P e m -> preserves P m.
Proof.
  intros Hm h HP. specialize (Hm h HP). unfold wlp in *.
  destruct (m h); [apply Hm | exact I].
Qed.

(** Walks a method body: the leaves are closed by the lemmas above, binds
    are split, and the branches of a test are taken one by one. *)
Ltac leaf :=
  lazymatch goal with
  | |- keeps _ _ (ret _) => apply keeps_ret
  | |- preserves _ (ret _) => apply preserves_ret
  | |- preserves _ (promoted _) => apply preserves_promoted
  | |- preserves _ (assign _ _) => apply preserves_assign
  | |- preserves _ (addError _ _ _) => apply preserves_addError
  | |- preserves _ (addAllRawErrors _ _) => apply preserves_addAllRawErrors
  | |- preserves _ (Builder_Finalize _) => apply preserves_Builder_Finalize
  | |- preserves _ (loadField _) => apply preserves_loadField
  | |- preserves _ (forEach (setInline _) _) =>
      apply preserves_forEach; intros; apply preserves_setInline
  | |- keeps _ _ (bind _ _) => apply keeps_bind
  | |- preserves _ (bind _ _) => apply preserves_bind
  | |- keeps _ _ (if ?c then _ else _) => destruct c
  | |- preserves _ (if ?c then _ else _) => destruct c
  | |- keeps _ _ (match ?c with Some _ => _ | None => _ end) => destruct c
  | |- preserves _ (match ?c with Some _ => _ | None => _ end) => destruct c
  | |- keeps _ _ (match ?p with (_, _) => _ end) => destruct p
  | |- preserves _ (match ?p with (_, _) => _ end) => destruct p
  | |- forall _, _ => intro
  end.

Ltac walk := repeat leaf.

Section Lazily.

Variable l0 : list error.
Variable e : loc.
Variable x : externals.

Lemma keeps_AddRawField tmpl field :
  keeps (lazily l0 e) (Some e) (AddRawField tmpl (Some e) field).
Proof. unfold AddRawField. walk. Qed.

Lemma keeps_AddField tmpl field :
  keeps (lazily l0 e) (Some e) (AddField tmpl (Some e) field).
Proof. unfold AddField. walk. apply keeps_AddRawField. Qed.

Lemma keeps_exec c : keeps (lazily l0 e) (Some e) (exec x (Some e) c).
Proof.
  destruct c; simpl;
    unfold SetTitle, SetDescription, SetURL, SetColor, SetCurrentTimestamp,
      SetCustomTimestamp, setRawTimestamp, InlineAllFields, OutlineAllFields,
      AddFields, AddRawFields, SetAuthor, SetRawAuthor, SetThumbnail,
      SetRawThumbnail, SetProvider, SetRawProvider, SetFooter, SetRawFooter,
      SetVideo, SetRawVideo, SetImage, SetRawImage, SetType;
    try apply keeps_AddField; try apply keeps_AddRawField; walk;
    apply preserves_forEach; intros f; apply preserves_bind;
    try (intros _; apply preserves_ret);
    apply (keeps_preserves _ (Some e));
    [apply keeps_AddField | apply keeps_AddRawField].
Qed.

Lemma keeps_run cs : keeps (lazily l0 e) (Some e) (run x (Some e) cs).
Proof.
  induction cs as [|c cs IH]; simpl; [apply keeps_ret|].
  intros h HP. pose proof (keeps_exec c h HP) as Hc. unfold wlp, bind in *.
  destruct (exec x (Some e) c h) as [a h1|]; [|exact I].
  destruct Hc as [-> HP1]. exact (IH h1 HP1).
Qed.

End Lazily.

Lemma NewEmbed_spec h :
  let lr := fresh (dom h) in
  let h1 := <[lr := ORaw zeroEmbed]> h in
  let e := fresh (dom h1) in
  let h0 := <[e := OEmbed (mkEmbed (Some lr) None)]> h1 in
  NewEmbed h = Ok (Some e) h0 /\
  builder_at h0 e (mkEmbed (Some lr) None) lr zeroEmbed /\
  (forall l o, h !! l = Some o -> h0 !! l = Some o).
Proof.
  intros lr h1 e h0.
  assert (Hlr : h !! lr = None) by apply fresh_unused.
  assert (He : h1 !! e = None) by apply fresh_unused.
  assert (Hne : e <> lr).
  { intros Heq. rewrite Heq in He. unfold h1 in He.
    now rewrite lookup_insert_eq in He. }
  split; [reflexivity|]. split.
  - split; simpl; [apply lookup_insert_eq | done | | done].
    unfold h0. rewrite lookup_insert_ne by done. apply lookup_insert_eq.
  - intros l o Hl. unfold h0, h1.
    rewrite lookup_insert_ne by (intros <-; unfold h1 in He;
      destruct (decide (e = lr)); [done|];
      rewrite lookup_insert_ne in He by done; congruence).
    rewrite lookup_insert_ne by congruence. done.
Qed.

Lemma lazily_nil_iff l0 e h b :
  lazily l0 e h -> h !! e = Some (OEmbed b) ->
  (Errors b = None <-> errorList h e = []).
Proof.
  intros (b0 & He & _ & Hlazy) Hb. rewrite He in Hb. injection Hb as ->.
  unfold errorList. rewrite He. split.
  - now intros ->.
  - destruct Hlazy as [Hn | (a & es & Ha & Hes & Hne)]; [done|].
    rewrite Ha. simpl. rewrite Hes. intros ->. contradiction.
Qed.

(** ** Setters return their receiver *)

Lemma AddRawField_total tmpl h e b lr r lf f :
  builder_at h e b lr r -> h !! lf = Some (OField f) ->
  exists h' b' r',
    AddRawField tmpl (Some e) (Some lf) h = Ok (Some e) h' /\
    builder_at h' e b' lr r' /\
    (forall l o, h !! l = Some o -> (forall y, o <> OEmbed y) ->
                 (forall y, o <> ORaw y) -> (forall y, o <> OErrors y) ->
                 h' !! l = Some o).
Proof.
  intros Hb Hlf.
  destruct (Z.lt_ge_cases (Z.of_nat (List.length (Fields r))) 25) as [Hlt | Hge].
  - eexists _, b, _. split; [exact (AddRawField_accept tmpl h e b lr r _ Hb Hlt)|].
    split; [exact (builder_at_assign h e b lr r _ Hb)|].
    intros l o Hl _ Ho _. rewrite lookup_insert_ne; [done|].
    intros <-. rewrite (at_raw _ _ _ _ _ Hb) in Hl. injection Hl as <-.
    now apply (Ho r).
  - destruct (AddRawField_reject tmpl h e b lr r lf f Hb Hge Hlf)
      as (h' & Hrun & Hrec).
    destruct (records_builder_at _ _ _ _ _ _ _ Hb Hrec) as (p' & Hb' & _).
    exists h', (mkEmbed (Some lr) p'), r. split; [done|]. split; [done|].
    intros l o Hl Ho1 _ Ho3.
    apply (records_frame h e _ h' l o Hrec); try done.
    + intros b0 Hb0. rewrite (at_embed _ _ _ _ _ Hb) in Hb0.
      injection Hb0 as <-. apply Hb.
    + intros ->. rewrite (at_embed _ _ _ _ _ Hb) in Hl. injection Hl as <-.
      now apply (Ho1 b).
Qed.

Lemma AddRawFields_total tmpl e lr : forall ps h b r,
  builder_at h e b lr r -> fields_at h ps ->
  exists h' b' r',
    forEach (fun f => AddRawField tmpl (Some e) f ;; ret tt) ps h = Ok tt h' /\
    builder_at h' e b' lr r'.
Proof.
  induction ps as [|p ps IH]; intros h b r Hb Hps.
  - now exists h, b, r.
  - apply Forall_cons in Hps as [(lf & f & -> & Hlf) Hps].
    destruct (AddRawField_total tmpl h e b lr r lf f Hb Hlf)
      as (h1 & b1 & r1 & Hrun1 & Hb1 & Hkeep).
    assert (Hps1 : fields_at h1 ps).
    { eapply Forall_impl; [exact Hps|]. intros q (l & g & -> & Hl).
      exists l, g. split; [done|]. now apply Hkeep. }
    destruct (IH h1 b1 r1 Hb1 Hps1) as (h' & b' & r' & Hrun & Hb').
    exists h', b', r'. split; [|done].
    rewrite (forEach_cons_Ok _ _ _ _ h1); [done|].
    now rewrite (bind_Ok _ _ _ _ _ Hrun1).
Qed.

(** An [AddField] on one builder leaves every Field builder attachable,
    also the one it finalized and those that share a slice with the embed. *)
Lemma sub_field_step tmpl h e b lr r fb sb lf f h' p' q :
  builder_at h e b lr r ->
  h !! fb = Some (OBuilder sb) -> fragment sb = Some lf ->
  h !! lf = Some (OField f) ->
  builder_at h' e (mkEmbed (Some lr) p') lr
    (if negb (Z.of_nat (List.length (Fields r)) <? 25) then r
     else with_Fields (Fields r ++ [Some lf]) r) ->
  (p' = Errors b \/ (Errors b = None /\ exists a, p' = Some a /\ h !! a = None)) ->
  (forall l, l <> e -> l <> lr -> l <> fb -> Some l <> p' -> h' !! l = h !! l) ->
  h' !! fb = Some (OBuilder (mkBuilder (Some lf) None)) ->
  AddField tmpl (Some e) (Some fb) h = Ok (Some e) h' ->
  sub_field h q -> sub_field h' q.
Proof.
  intros Hb Hfb Hfrag Hlf Hb' Hp' Hf Hfb' _ (fb1 & sb1 & lf1 & f1 & -> & Hfb1 & Hok1 & Hfrag1 & Hlf1).
  pose proof Hb as [He _ Hr Hs].
  assert (Hkeep : forall l o, h !! l = Some o -> l <> fb ->
            (forall y, o <> OEmbed y) -> (forall y, o <> ORaw y) ->
            (forall y, o <> OErrors y) -> h' !! l = Some o).
  { intros l o Hl Hlfb Ho1 Ho2 Ho3. rewrite Hf; try done.
    - intros ->. rewrite He in Hl. injection Hl as <-. now apply (Ho1 b).
    - intros ->. rewrite Hr in Hl. injection Hl as <-. now apply (Ho2 r).
    - intros <-. destruct Hp' as [Hp' | (_ & a & [= <-] & Ha)]; [|congruence].
      rewrite <- Hp' in Hs. destruct Hs as [es Hes]. rewrite Hl in Hes.
      injection Hes as ->. now apply (Ho3 es). }
  assert (Hlf1' : h' !! lf1 = Some (OField f1)).
  { apply Hkeep; try done. congruence. }
  destruct (decide (fb1 = fb)) as [-> | Hne].
  - rewrite Hfb in Hfb1. injection Hfb1 as <-.
    rewrite Hfrag in Hfrag1. injection Hfrag1 as <-.
    exists fb, (mkBuilder (Some lf) None), lf, f1. repeat split; done.
  - exists fb1, sb1, lf1, f1. split; [done|].
    split; [now apply Hkeep|]. split; [|done].
    destruct (BErrors sb1) as [a|] eqn:Ea; simpl in *; [|done].
    destruct Hok1 as [es Ha].
    destruct (decide (p' = Some a)) as [-> | Hpa].
    + apply (at_errors _ _ _ _ _ Hb').
    + exists es. rewrite Hf; try done; try congruence.
Qed.

Lemma AddFields_total tmpl e lr : forall fs h b r,
  builder_at h e b lr r -> Forall (sub_field h) fs ->
  exists h' b' r',
    forEach (fun f => AddField tmpl (Some e) f ;; ret tt) fs h = Ok tt h' /\
    builder_at h' e b' lr r'.
Proof.
  induction fs as [|p fs IH]; intros h b r Hb Hfs.
  - now exists h, b, r.
  - apply Forall_cons in Hfs as [(fb & sb & lf & f & -> & Hfb & Hok & Hfrag & Hlf) Hfs].
    destruct (AddField_step tmpl h e b lr r fb sb lf f Hb Hfb Hok Hfrag Hlf)
      as (h1 & p1 & Hrun1 & Hb1 & _ & Hp1 & Hf1 & Hfb1).
    assert (Hfs1 : Forall (sub_field h1) fs).
    { eapply Forall_impl; [exact Hfs|]. intros q Hq.
      now apply (sub_field_step tmpl h e b lr r fb sb lf f h1 p1 q). }
    destruct (IH h1 _ _ Hb1 Hfs1) as (h' & b' & r' & Hrun & Hb').
    exists h', b', r'. split; [|done].
    rewrite (forEach_cons_Ok _ _ _ _ h1); [done|].
    now rewrite (bind_Ok _ _ _ _ _ Hrun1).
Qed.

Lemma accept_total h e b lr r upd :
  builder_at h e b lr r ->
  exists h' b' r',
    (assign (Some e) upd ;; ret (Some e)) h = Ok (Some e) h' /\
    builder_at h' e b' lr r'.
Proof.
  intros Hb. eexists _, b, _. split; [exact (accept_eq h e b lr r upd Hb)|].
  exact (builder_at_assign h e b lr r _ Hb).
Qed.

Lemma reject_total h e b lr r fmt vs :
  builder_at h e b lr r ->
  exists h' b' r',
    (addError (Some e) fmt vs ;; ret (Some e)) h = Ok (Some e) h' /\
    builder_at h' e b' lr r'.
Proof.
  intros Hb. destruct (reject_records h e b lr r fmt vs Hb) as (h' & Hrun & Hrec).
  destruct (records_builder_at _ _ _ _ _ _ _ Hb Hrec) as (p' & Hb' & _).
  now exists h', (mkEmbed (Some lr) p'), r.
Qed.

Lemma attach_total h e b lr r p (upd : ptr -> disgord_Embed -> disgord_Embed) :
  builder_at h e b lr r -> sub_builder h p ->
  exists h' b' r',
    (let* (res, errs) := Builder_Finalize p in
     addAllRawErrors (Some e) errs ;;
     (assign (Some e) (upd res) ;; ret (Some e))) h = Ok (Some e) h' /\
    builder_at h' e b' lr r'.
Proof.
  intros Hb (fb & sb & -> & Hfb & Hok).
  destruct (attach_spec h e b lr r fb sb upd Hb Hfb Hok) as (h' & p' & Hrun & Hb' & _).
  now exists h', (mkEmbed (Some lr) p'), (upd (fragment sb) r).
Qed.

Lemma fields_loop_total v h e b lr r :
  builder_at h e b lr r -> fields_at h (Fields r) ->
  exists h' b' r',
    (let* (_, r0) := promoted (Some e) in
     forEach (setInline v) (Fields r0) ;; ret (Some e)) h = Ok (Some e) h' /\
    builder_at h' e b' lr r'.
Proof.
  intros Hb Hfs.
  destruct (forEach_setInline v (Fields r) h Hfs) as (h' & Hrun & Hout & Hin).
  exists h', b, r. split.
  - rewrite (bind_Ok _ _ _ _ _ (promoted_eq _ _ _ _ _ Hb)).
    now rewrite (bind_Ok _ _ _ _ _ Hrun).
  - now apply (fields_loop_builder_at h h' (Fields r) v).
Qed.

(** C8, as the code has it.  Every exported setter, called on a builder made
    by [NewEmbed] with pointers that are addresses of objects (the
    sub-object builder or raw field handed to it and, for the two loops over
    the attached fields, those fields), returns, returns the handle it was
    called on, and leaves the builder in place for the next call of the
    chain -- whether its validation accepted or rejected the value. *)
Theorem setters_return_receiver (x : externals) h e b lr r (c : call) :
  builder_at h e b lr r -> args_ok h r c ->
  exists h' b' r',
    exec x (Some e) c h = Ok (Some e) h' /\ builder_at h' e b' lr r'.
Proof.
  intros Hb Hargs. destruct c; simpl in *.
  - unfold SetTitle. destruct (len title <=? lowerCharLimit);
      [now apply (accept_total h e b lr r) | now apply (reject_total h e b lr r)].
  - unfold SetDescription. destruct (len desc <=? upperCharLimit);
      [now apply (accept_total h e b lr r) | now apply (reject_total h e b lr r)].
  - now apply (accept_total h e b lr r).
  - unfold SetColor. destruct ((color >=? 0) && (color <? maxColorValue))%bool;
      [now apply (accept_total h e b lr r) | now apply (reject_total h e b lr r)].
  - now apply (accept_total h e b lr r).
  - now apply (accept_total h e b lr r).
  - now apply (fields_loop_total true h e b lr r).
  - now apply (fields_loop_total false h e b lr r).
  - destruct (AddFields_total (fieldTemplate x) e lr fields h b r Hb Hargs)
      as (h' & b' & r' & Hrun & Hb').
    exists h', b', r'. split; [|done].
    unfold AddFields. now rewrite (bind_Ok _ _ _ _ _ Hrun).
  - destruct (AddRawFields_total (fieldTemplate x) e lr fields h b r Hb Hargs)
      as (h' & b' & r' & Hrun & Hb').
    exists h', b', r'. split; [|done].
    unfold AddRawFields. now rewrite (bind_Ok _ _ _ _ _ Hrun).
  - destruct Hargs as (fb & sb & lf & f & -> & Hfb & Hok & Hfrag & Hlf).
    destruct (AddField_step (fieldTemplate x) h e b lr r fb sb lf f
                Hb Hfb Hok Hfrag Hlf) as (h' & p' & Hrun & Hb' & _).
    eauto.
  - apply Forall_cons in Hargs as [(lf & f & -> & Hlf) _].
    destruct (AddRawField_total (fieldTemplate x) h e b lr r lf f Hb Hlf)
      as (h' & b' & r' & Hrun & Hb' & _).
    eauto.
  - now apply (attach_total h e b lr r author with_Author).
  - now apply (accept_total h e b lr r).
  - now apply (attach_total h e b lr r thumb with_Thumbnail).
  - now apply (accept_total h e b lr r).
  - rewrite SetProvider_eq.
    now apply (attach_total h e b lr r provider with_Provider).
  - now apply (accept_total h e b lr r).
  - now apply (attach_total h e b lr r footer with_Footer).
  - now apply (accept_total h e b lr r).
  - now apply (attach_total h e b lr r vid with_Video).
  - now apply (accept_total h e b lr r).
  - now apply (attach_total h e b lr r img with_Image).
  - now apply (accept_total h e b lr r).
  - unfold SetType. destruct (typeValid x embedType);
      [now apply (accept_total h e b lr r) | now apply (reject_total h e b lr r)].
Qed.

(** ** The theorems at concrete stores *)

Lemma fresh_embed_builder :
  builder_at fresh_embed 2%positive (mkEmbed (Some 1%positive) None)
    1%positive zeroEmbed.
Proof. split; vm_compute; done. Qed.

Lemma SetTitle_limit_witness :
  len "hello" <= 256 /\ len long_title > 256 /\
  (exists h', SetTitle "title" (Some 2%positive) "hello" fresh_embed
              = Ok (Some 2%positive) h' /\
              rawOf h' 2%positive = Some (with_Title "hello" zeroEmbed) /\
              errorList h' 2%positive = []) /\
  (exists h', SetTitle "title" (Some 2%positive) long_title fresh_embed
              = Ok (Some 2%positive) h' /\
              rawOf h' 2%positive = Some zeroEmbed /\
              errorList h' 2%positive =
                [Errorf "title" [VString "embed title"; VInt 256; VInt 257;
                                 VString long_title]]).
Proof.
  assert (H1 : len "hello" <= 256) by (vm_compute; discriminate).
  assert (H2 : len long_title > 256) by (vm_compute; reflexivity).
  split; [exact H1|]. split; [exact H2|]. split.
  - destruct (proj1 (SetTitle_limit "title" _ _ _ _ _ "hello"
                       fresh_embed_builder) H1) as (h' & Hrun & Hraw & _ & Herr).
    exists h'. auto.
  - destruct (proj2 (SetTitle_limit "title" _ _ _ _ _ long_title
                       fresh_embed_builder) H2) as (h' & Hrun & Hraw & Herr).
    exists h'. auto.
Defined.

Lemma SetColor_range_witness :
  0 <= 255 < 16777216 /\ ~ (0 <= 16777216 < 16777216) /\
  (exists h', SetColor "color" (Some 2%positive) 255 fresh_embed
              = Ok (Some 2%positive) h' /\
              rawOf h' 2%positive = Some (with_Color 255 zeroEmbed) /\
              errorList h' 2%positive = []) /\
  (exists h', SetColor "color" (Some 2%positive) 16777216 fresh_embed
              = Ok (Some 2%positive) h' /\
              rawOf h' 2%positive = Some zeroEmbed /\
              errorList h' 2%positive =
                [Errorf "color" [VString "embed color"; VInt 16777216; VInt 0;
                                 VInt 16777216]]).
Proof.
  assert (H1 : 0 <= 255 < 16777216) by lia.
  assert (H2 : ~ (0 <= 16777216 < 16777216)) by lia.
  split; [exact H1|]. split; [exact H2|]. split.
  - destruct (proj1 (SetColor_range "color" _ _ _ _ _ 255
                       fresh_embed_builder) H1) as (h' & Hrun & Hraw & _ & Herr).
    exists h'. auto.
  - destruct (proj2 (SetColor_range "color" _ _ _ _ _ 16777216
                       fresh_embed_builder) H2) as (h' & Hrun & Hraw & Herr).
    exists h'. auto.
Defined.

Lemma SetType_enum_witness :
  typeValid demo "rich" = true /\ typeValid demo "bogus" = false /\
  (exists h', SetType "type" (typeValid demo) (Some 2%positive) "rich" fresh_embed
              = Ok (Some 2%positive) h' /\
              rawOf h' 2%positive = Some (with_Type "rich" zeroEmbed) /\
              errorList h' 2%positive = []) /\
  (exists h', SetType "type" (typeValid demo) (Some 2%positive) "bogus" fresh_embed
              = Ok (Some 2%positive) h' /\
              rawOf h' 2%positive = Some zeroEmbed /\
              errorList h' 2%positive = [Errorf "type" [VString "bogus"]]).
Proof.
  assert (H1 : typeValid demo "rich" = true) by reflexivity.
  assert (H2 : typeValid demo "bogus" = false) by reflexivity.
  split; [exact H1|]. split; [exact H2|]. split.
  - destruct (proj1 (SetType_enum "type" (typeValid demo) _ _ _ _ _ "rich"
                       fresh_embed_builder) H1) as (h' & Hrun & Hraw & _ & Herr).
    exists h'. auto.
  - destruct (proj2 (SetType_enum "type" (typeValid demo) _ _ _ _ _ "bogus"
                       fresh_embed_builder) H2) as (h' & Hrun & Hraw & Herr).
    exists h'. auto.
Defined.

Lemma Finalize_twice_witness :
  failed_once !! 2%positive
    = Some (OEmbed (mkEmbed (Some 1%positive) (Some 3%positive))) /\
  exists h1,
    Finalize (Some 2%positive) failed_once
      = Ok (Some 1%positive, Some 3%positive) h1 /\
    Finalize (Some 2%positive) h1 = Ok (Some 1%positive, None) h1 /\
    h1 !! 1%positive = failed_once !! 1%positive.
Proof.
  assert (He : failed_once !! 2%positive
               = Some (OEmbed (mkEmbed (Some 1%positive) (Some 3%positive))))
    by reflexivity.
  split; [exact He|].
  destruct (Finalize_twice failed_once 2%positive _ He) as (h1 & F1 & F2 & Hf).
  exists h1. split; [exact F1|]. split; [exact F2|]. now apply Hf.
Defined.

Lemma with_footer_builder :
  builder_at with_footer 2%positive (mkEmbed (Some 1%positive) None)
    1%positive zeroEmbed.
Proof. split; vm_compute; done. Qed.

Lemma SetFooter_absorbs_witness :
  with_footer !! 3%positive
    = Some (OBuilder (mkBuilder (Some 4%positive) (Some 5%positive))) /\
  okErrors with_footer (Some 5%positive) /\
  exists h1 h2 p,
    SetFooter (Some 2%positive) (Some 3%positive) with_footer
      = Ok (Some 2%positive) h1 /\
    rawOf h1 2%positive = Some (with_Footer (Some 4%positive) zeroEmbed) /\
    Finalize (Some 2%positive) h1 = Ok (Some 1%positive, p) h2 /\
    slice h2 p = [Errorf "footer text" [VInt 2049]].
Proof.
  assert (Hfb : with_footer !! 3%positive
                = Some (OBuilder (mkBuilder (Some 4%positive) (Some 5%positive))))
    by reflexivity.
  assert (Hok : okErrors with_footer (Some 5%positive))
    by (eexists; reflexivity).
  split; [exact Hfb|]. split; [exact Hok|].
  destruct (SetFooter_absorbs with_footer 2%positive _ _ _ 3%positive _
              with_footer_builder Hfb Hok)
    as [(h1 & h2 & p & Hrun & Hraw & _ & Hfin & _ & Hone) _].
  exists h1, h2, p. repeat split; try done.
  apply (Hone (Errorf "footer text" [VInt 2049])); reflexivity.
Defined.

Lemma two_fields_builder :
  builder_at two_fields 2%positive (mkEmbed (Some 1%positive) None) 1%positive
    (with_Fields [Some 3%positive; Some 4%positive] zeroEmbed).
Proof. split; vm_compute; done. Qed.

Lemma two_fields_at :
  fields_at two_fields [Some 3%positive; Some 4%positive].
Proof.
  repeat (apply List.Forall_cons; [do 2 eexists; split; reflexivity|]).
  apply List.Forall_nil.
Qed.

Lemma Inline_then_Outline_witness :
  two_fields !! 3%positive = Some (OField (mkField "a" "1" true)) /\
  exists h1 h2,
    InlineAllFields (Some 2%positive) two_fields = Ok (Some 2%positive) h1 /\
    OutlineAllFields (Some 2%positive) h1 = Ok (Some 2%positive) h2 /\
    h2 !! 3%positive = Some (OField (mkField "a" "1" false)) /\
    h2 !! 4%positive = Some (OField (mkField "b" "2" false)).
Proof.
  split; [reflexivity|].
  destruct (Inline_then_Outline two_fields 2%positive _ _ _
              two_fields_builder two_fields_at)
    as (h1 & h2 & Hrun1 & Hrun2 & _ & Hall).
  exists h1, h2. split; [exact Hrun1|]. split; [exact Hrun2|]. split.
  - destruct (Hall 3%positive) as (f & Hf & Hf2 & _).
    + apply list_elem_of_here.
    + vm_compute in Hf. injection Hf as <-. exact Hf2.
  - destruct (Hall 4%positive) as (f & Hf & Hf2 & _).
    + apply list_elem_of_further, list_elem_of_here.
    + vm_compute in Hf. injection Hf as <-. exact Hf2.
Defined.

Lemma with_26_builders_builder :
  builder_at with_26_builders 2%positive (mkEmbed (Some 1%positive) None)
    1%positive zeroEmbed.
Proof. split; vm_compute; done. Qed.

Lemma builders26_ready :
  Forall (field_ready with_26_builders None) builders26.
Proof.
  repeat (apply List.Forall_cons;
    [do 3 eexists; (split; [reflexivity|]); (split; [reflexivity|]);
     (split; [reflexivity|]); (split; [exact I|]); discriminate|]).
  apply List.Forall_nil.
Qed.

Lemma builders26_clean :
  Forall (fun fb => pending with_26_builders fb = []) builders26.
Proof.
  repeat (apply List.Forall_cons; [reflexivity|]). apply List.Forall_nil.
Qed.

Lemma AddFields_limit_witness :
  NoDup builders26 /\
  exists h' r',
    AddFields "field" (Some 2%positive) (map Some builders26) with_26_builders
      = Ok (Some 2%positive) h' /\
    run demo (Some 2%positive) (map CAddField (map Some builders26))
      with_26_builders = Ok (Some 2%positive) h' /\
    rawOf h' 2%positive = Some r' /\
    Fields r' = map (fun i => Some (Pos.of_nat (2 * i + 12))) (seq 0 25) /\
    errorList h' 2%positive = [Errorf "field" [VString "Z"; VInt 25]].
Proof.
  assert (Hnd : NoDup builders26) by (apply (bool_decide_unpack _); vm_compute; exact I).
  split; [exact Hnd|].
  destruct (AddFields_limit demo with_26_builders 2%positive _ _ _ builders26
              with_26_builders_builder Hnd builders26_ready)
    as (h' & r' & Hrun & Hchain & Hraw & _ & _ & Hspecial).
  destruct Hspecial as (Hfields & _ & last & Hlast & Herr);
    try reflexivity; try exact builders26_clean.
  exists h', r'. split; [exact Hrun|]. split; [exact Hchain|].
  split; [exact Hraw|]. split.
  - rewrite Hfields. reflexivity.
  - vm_compute in Hlast. injection Hlast as <-.
    rewrite Herr. reflexivity.
Defined.



Lemma setters_return_receiver_witness :
  args_ok with_footer zeroEmbed (CSetFooter (Some 3%positive)) /\
  exists h' b' r',
    exec demo (Some 2%positive) (CSetFooter (Some 3%positive)) with_footer
      = Ok (Some 2%positive) h' /\
    builder_at h' 2%positive b' 1%positive r'.
Proof.
  assert (Hargs : args_ok with_footer zeroEmbed (CSetFooter (Some 3%positive))).
  { exists 3%positive, (mkBuilder (Some 4%positive) (Some 5%positive)).
    split; [reflexivity|]. split; [reflexivity|]. eexists; reflexivity. }
  split; [exact Hargs|].
  exact (setters_return_receiver demo with_footer 2%positive _ _ _ _
           with_footer_builder Hargs).
Defined.

(** C8, as the claim has it, fails: on a builder holding 25 fields,
    [AddRawField(nil)] evaluates [field.Name] through the nil pointer and
    panics. *)
Lemma AddRawField_nil_panics :
  exists e h b lr r,
    full_embed ∅ = Ok (Some e) h /\ builder_at h e b lr r /\
    exec demo (Some e) (CAddRawField None) h = Panic.
Proof.
  exists 2%positive, (final full_embed), (mkEmbed (Some 1%positive) None),
    1%positive, (with_Fields (repeat (Some 3%positive) 25) zeroEmbed).
  split; [vm_compute; reflexivity|]. split; [split; vm_compute; done|].
  vm_compute. reflexivity.
Qed.

(** * Further properties of embed.go *)

(** ** SetDescription, SetURL and the timestamps *)

(** [SetDescription(d)] with [len(d) <= 2048] returns with the description
    set to [d] and the error list as it was; with [len(d) > 2048] it returns
    with the raw embed as it was and exactly one more error, which carries
    the kind, the limit and the length but not the text. *)
Theorem SetDescription_limit (tmpl : string) h e b lr r (d : string) :
  builder_at h e b lr r ->
  (len d <= 2048 ->
   exists h', SetDescription tmpl (Some e) d h = Ok (Some e) h' /\
              rawOf h' e = Some (with_Description d r) /\
              errorList h' e = errorList h e) /\
  (len d > 2048 ->
   exists h', SetDescription tmpl (Some e) d h = Ok (Some e) h' /\
              rawOf h' e = Some r /\
              errorList h' e = errorList h e ++
                [Errorf tmpl [VString "embed description"; VInt 2048;
                              VInt (len d)]]).
Proof.
  intros Hb. unfold SetDescription, upperCharLimit. split; intros Hlen.
  - rewrite (proj2 (Z.leb_le _ _) Hlen).
    exists (<[lr := ORaw (with_Description d r)]> h).
    split; [now apply (accept_eq h e b lr r)|].
    destruct (accept_obs h e b lr r (with_Description d r) Hb) as (H1 & _ & H3).
    auto.
  - rewrite (proj2 (Z.leb_gt _ _)) by lia.
    now apply (reject_obs h e b lr r).
Qed.

(** [SetURL] checks nothing: whatever the string, and however long, it
    becomes the URL of the raw embed, the other members and the error list
    stay as they were, and the builder's wrapper is not touched. *)
Theorem SetURL_unchecked h e b lr r (url : string) :
  builder_at h e b lr r ->
  exists h', SetURL (Some e) url h = Ok (Some e) h' /\
             rawOf h' e = Some (with_URL url r) /\
             h' !! e = Some (OEmbed b) /\
             errorList h' e = errorList h e.
Proof.
  intros Hb. exists (<[lr := ORaw (with_URL url r)]> h).
  split; [now apply (accept_eq h e b lr r)|].
  exact (accept_obs h e b lr r (with_URL url r) Hb).
Qed.

(** Both timestamp setters store the instant they are given with the
    location set to UTC, whatever location the argument had, and record no
    error; [SetCurrentTimestamp] is [SetCustomTimestamp] at the reading of
    the clock; storing a stored timestamp again changes nothing. *)
Theorem timestamps_are_UTC h e b lr r (t : Time) :
  builder_at h e b lr r ->
  exists h',
    SetCustomTimestamp (Some e) t h = Ok (Some e) h' /\
    SetCurrentTimestamp (Some e) t h = Ok (Some e) h' /\
    rawOf h' e = Some (with_Timestamp (UTC t) r) /\
    instant (Timestamp (with_Timestamp (UTC t) r)) = instant t /\
    location (Timestamp (with_Timestamp (UTC t) r)) = "UTC" /\
    errorList h' e = errorList h e /\
    SetCustomTimestamp (Some e) (UTC t) h' = Ok (Some e) h'.
Proof.
  intros Hb. set (h' := <[lr := ORaw (with_Timestamp (UTC t) r)]> h).
  pose proof (builder_at_assign h e b lr r (with_Timestamp (UTC t) r) Hb) as Hb'.
  destruct (accept_obs h e b lr r (with_Timestamp (UTC t) r) Hb) as (H1 & _ & H3).
  exists h'. repeat split; try done.
  - now apply (accept_eq h e b lr r).
  - now apply (accept_eq h e b lr r).
  - unfold SetCustomTimestamp, setRawTimestamp.
    rewrite (accept_eq h' e b lr _ _ Hb'). f_equal.
    apply insert_id. apply Hb'.
Qed.

(** ** NewEmbed *)

(** [NewEmbed()] always returns: the wrapper and the raw embed it makes are
    two different addresses, both unused before; every object of the store
    is as it was; the new raw embed has every member at its zero value and
    the error list is nil, so that an immediate [Finalize] hands back the
    raw embed and nil, and changes nothing. *)
Theorem NewEmbed_fresh h :
  exists e lr h1,
    NewEmbed h = Ok (Some e) h1 /\
    h !! e = None /\ h !! lr = None /\ e <> lr /\
    (forall l o, h !! l = Some o -> h1 !! l = Some o) /\
    builder_at h1 e (mkEmbed (Some lr) None) lr zeroEmbed /\
    rawOf h1 e = Some zeroEmbed /\ errorList h1 e = [] /\
    Finalize (Some e) h1 = Ok (Some lr, None) h1.
Proof.
  destruct (NewEmbed_spec h) as (Hrun & Hb & Hkeep). simpl in Hrun, Hb, Hkeep.
  set (lr := fresh (dom h)) in *.
  set (e := fresh (dom (<[lr := ORaw zeroEmbed]> h))) in *.
  set (h1 := <[e := OEmbed (mkEmbed (Some lr) None)]> (<[lr := ORaw zeroEmbed]> h)) in *.
  assert (Hlr : h !! lr = None) by apply fresh_unused.
  assert (He1 : <[lr := ORaw zeroEmbed]> h !! e = None) by apply fresh_unused.
  assert (Hne : e <> lr).
  { intros Heq. rewrite Heq in He1. now rewrite lookup_insert_eq in He1. }
  exists e, lr, h1. repeat split; try done; try apply Hb.
  - rewrite lookup_insert_ne in He1 by congruence. exact He1.
  - now apply (rawOf_eq _ _ _ _ _ Hb).
  - rewrite (errorList_eq _ _ _ (at_embed _ _ _ _ _ Hb)). reflexivity.
  - unfold Finalize.
    rewrite (bind_Ok _ _ _ _ _ (loadEmbed_eq _ _ _ (at_embed _ _ _ _ _ Hb))).
    simpl. unfold bind, store, ret.
    now rewrite (insert_id _ _ _ (at_embed _ _ _ _ _ Hb)).
Qed.

(** ** addAllRawErrors *)

Lemma addAllRawErrors_nothing (h : heap) (e errs : ptr) :
  slice h errs = [] -> okErrors h errs ->
  addAllRawErrors e errs h = Ok tt h.
Proof.
  intros Hs Hok. destruct errs as [a|]; simpl in *; [|reflexivity].
  destruct Hok as [l Ha]. rewrite Ha in Hs. subst l.
  now rewrite (bind_Ok _ _ _ _ _ (loadErrors_eq _ _ _ Ha)).
Qed.

(** [addAllRawErrors] appends the errors of the list it is given to the
    builder's list, in order.  A nil list, or one that is allocated but
    empty, changes nothing at all: no list is allocated for the builder.
    The list given is read once and left as it was -- unless it is the
    builder's own list, which is then doubled. *)
Theorem addAllRawErrors_appends h e b (errs : ptr) :
  h !! e = Some (OEmbed b) -> okErrors h (Errors b) -> okErrors h errs ->
  exists h',
    addAllRawErrors (Some e) errs h = Ok tt h' /\
    errorList h' e = errorList h e ++ slice h errs /\
    (slice h errs = [] -> h' = h) /\
    (errs = Errors b -> errorList h' e = errorList h e ++ errorList h e) /\
    (errs <> Errors b -> slice h' errs = slice h errs).
Proof.
  intros He Hok Herrs.
  destruct (addAllRawErrors_records h e b errs He Hok Herrs) as (h' & Hrun & Hrec).
  exists h'. split; [exact Hrun|]. split; [now apply records_errorList|].
  split; [|split].
  - intros Hnil. rewrite (addAllRawErrors_nothing h (Some e) errs Hnil Herrs) in Hrun.
    now injection Hrun.
  - intros ->. rewrite (records_errorList _ _ _ _ Hrec).
    now rewrite (errorList_eq _ _ _ He).
  - intros Hne. destruct errs as [a|]; simpl in *; [|done].
    destruct Herrs as [es Ha].
    destruct (records_inv _ _ _ _ _ Hrec He) as (p' & _ & _ & Hp' & Hf).
    rewrite Hf; [done | congruence |].
    destruct Hp' as [-> | (_ & a' & -> & Ha')]; congruence.
Qed.

(** ** AddRawField and AddRawFields *)

(** One [AddRawField] of the field at [lf], with everything it leaves. *)
Lemma AddRawField_step tmpl h e b lr r (p : ptr) :
  builder_at h e b lr r ->
  let full := negb (Z.of_nat (List.length (Fields r)) <? 25) in
  (full = true -> fields_at h [p]) ->
  exists h' p',
    AddRawField tmpl (Some e) p h = Ok (Some e) h' /\
    builder_at h' e (mkEmbed (Some lr) p') lr
      (if full then r else with_Fields (Fields r ++ [p]) r) /\
    errorList h' e = errorList h e ++
                     (if full then [limitError tmpl (nameOf h p)] else []) /\
    (forall l f, h !! l = Some (OField f) -> h' !! l = Some (OField f)).
Proof.
  intros Hb full Hp. unfold full in *.
  destruct (Z.ltb_spec (Z.of_nat (List.length (Fields r))) 25) as [Hlt | Hge];
    simpl in *.
  - exists (<[lr := ORaw (with_Fields (Fields r ++ [p]) r)]> h), (Errors b).
    split; [exact (AddRawField_accept tmpl h e b lr r p Hb Hlt)|].
    split; [|split].
    + pose proof (builder_at_assign h e b lr r
                    (with_Fields (Fields r ++ [p]) r) Hb) as Hb'.
      destruct Hb as [_ Hemb _ _]. destruct b as [pb qb]; simpl in *.
      now subst pb.
    + rewrite app_nil_r. now apply (errorList_assign h e b lr r).
    + intros l f Hl. rewrite lookup_insert_ne; [done|].
      intros <-. rewrite (at_raw _ _ _ _ _ Hb) in Hl. discriminate.
  - specialize (Hp eq_refl). apply Forall_cons in Hp as [(lf & f & -> & Hlf) _].
    destruct (AddRawField_reject tmpl h e b lr r lf f Hb Hge Hlf)
      as (h' & Hrun & Hrec).
    destruct (records_builder_at _ _ _ _ _ _ _ Hb Hrec) as (p' & Hb' & _).
    exists h', p'. split; [done|]. split; [done|]. split.
    + rewrite (records_errorList _ _ _ _ Hrec). simpl. now rewrite Hlf.
    + intros l g Hl. apply (records_frame h e _ h' l _ Hrec); try done.
      * intros b0 Hb0. rewrite (at_embed _ _ _ _ _ Hb) in Hb0.
        injection Hb0 as <-. apply Hb.
      * intros ->. rewrite (at_embed _ _ _ _ _ Hb) in Hl. discriminate.
Qed.

Lemma AddRawFields_loop tmpl e lr : forall ps h b r,
  builder_at h e b lr r ->
  let room := (25 - List.length (Fields r))%nat in
  fields_at h (drop room ps) ->
  exists h' p',
    forEach (fun f => AddRawField tmpl (Some e) f ;; ret tt) ps h = Ok tt h' /\
    builder_at h' e (mkEmbed (Some lr) p') lr
      (with_Fields (Fields r ++ take room ps) r) /\
    errorList h' e =
      errorList h e ++ map (fun p => limitError tmpl (nameOf h p)) (drop room ps) /\
    (forall l f, h !! l = Some (OField f) -> h' !! l = Some (OField f)).
Proof.
  induction ps as [|p ps IH]; intros h b r Hb room Hps.
  - exists h, (Errors b). split; [reflexivity|]. split; [|split].
    + rewrite take_nil, app_nil_r, with_Fields_same.
      destruct Hb as [He Hp Hr Hs]. destruct b as [pb qb]; simpl in *.
      subst pb. now split.
    + rewrite drop_nil. simpl. now rewrite app_nil_r.
    + auto.
  - assert (Hfull : negb (Z.of_nat (List.length (Fields r)) <? 25) = true ->
                    fields_at h [p] /\ room = 0%nat).
    { intros Hf. apply negb_true_iff, Z.ltb_ge in Hf.
      assert (Hroom : room = 0%nat) by (unfold room; lia).
      rewrite Hroom in Hps. rewrite drop_0 in Hps.
      apply Forall_cons in Hps as [Hp _]. split; [|done].
      apply List.Forall_cons; [exact Hp | apply List.Forall_nil]. }
    destruct (AddRawField_step tmpl h e b lr r p Hb (fun Hf => proj1 (Hfull Hf)))
      as (h1 & p1 & Hrun1 & Hb1 & Herr1 & Hkeep1).
    assert (Hname : forall q, fields_at h [q] -> nameOf h1 q = nameOf h q).
    { intros q Hq. apply Forall_cons in Hq as [(l & f & -> & Hl) _].
      simpl. now rewrite (Hkeep1 l f Hl), Hl. }
    assert (Hmono : forall qs, fields_at h qs -> fields_at h1 qs /\
              map (fun q => limitError tmpl (nameOf h1 q)) qs
              = map (fun q => limitError tmpl (nameOf h q)) qs).
    { intros qs Hqs. split.
      - eapply Forall_impl; [exact Hqs|]. intros q (l & f & -> & Hl).
        exists l, f. split; [done|]. now apply Hkeep1.
      - apply List.map_ext_Forall. eapply Forall_impl; [exact Hqs|].
        intros q Hq. simpl. f_equal. apply Hname.
        apply List.Forall_cons; [exact Hq | apply List.Forall_nil]. }
    destruct (Z.ltb_spec (Z.of_nat (List.length (Fields r))) 25) as [Hlt | Hge];
      simpl in Hb1, Herr1.
    + assert (Hroom : room = S (25 - (List.length (Fields r) + 1))%nat)
        by (unfold room; lia).
      rewrite Hroom in Hps. simpl in Hps.
      destruct (Hmono _ Hps) as [Hps1 Hmap].
      destruct (IH h1 _ _ Hb1) as (h' & p' & Hrun & Hb' & Herr & Hkeep);
        [simpl; now rewrite length_app|].
      simpl in Hb', Herr. rewrite length_app in Hb', Herr. simpl in Hb', Herr.
      exists h', p'. split; [|split; [|split]].
      * rewrite (forEach_cons_Ok _ _ _ _ h1); [exact Hrun|].
        now rewrite (bind_Ok _ _ _ _ _ Hrun1).
      * rewrite Hroom. simpl. rewrite <- app_assoc in Hb'. exact Hb'.
      * rewrite Herr, Herr1, Hroom, Hmap. simpl. now rewrite app_nil_r.
      * auto.
    + destruct (Hfull eq_refl) as [Hp Hroom].
      rewrite Hroom in Hps |- *. rewrite drop_0 in Hps |- *. rewrite take_0.
      apply Forall_cons in Hps as [_ Hps].
      destruct (Hmono _ Hps) as [Hps1 Hmap].
      destruct (IH h1 _ _ Hb1) as (h' & p' & Hrun & Hb' & Herr & Hkeep).
      { replace (25 - List.length (Fields r))%nat with 0%nat by lia.
        now rewrite drop_0. }
      replace (25 - List.length (Fields r))%nat with 0%nat in Hb', Herr by lia.
      rewrite take_0 in Hb'. rewrite drop_0 in Herr.
      exists h', p'. split; [|split; [|split]].
      * rewrite (forEach_cons_Ok _ _ _ _ h1); [exact Hrun|].
        now rewrite (bind_Ok _ _ _ _ _ Hrun1).
      * exact Hb'.
      * rewrite Herr, Herr1, Hmap. simpl. now rewrite <- app_assoc.
      * auto.
Qed.

(** [AddRawFields(ps...)] on an embed with [n] fields keeps the first
    [25 - n] pointers, in order and without looking at them (nil included),
    and for each later pointer, which must be the address of a field,
    records one limit error naming that field, in order; no field object is
    changed.  With room for all of them nothing is recorded. *)
Theorem AddRawFields_limit tmpl h e b lr r (ps : list ptr) :
  builder_at h e b lr r ->
  let room := (25 - List.length (Fields r))%nat in
  fields_at h (drop room ps) ->
  exists h' r',
    AddRawFields tmpl (Some e) ps h = Ok (Some e) h' /\
    rawOf h' e = Some r' /\
    r' = with_Fields (Fields r ++ take room ps) r /\
    errorList h' e =
      errorList h e ++
      map (fun p => Errorf tmpl [VString (nameOf h p); VInt 25]) (drop room ps) /\
    (forall l f, h !! l = Some (OField f) -> h' !! l = Some (OField f)) /\
    ((List.length (Fields r) + List.length ps <= 25)%nat ->
     Fields r' = Fields r ++ ps /\ errorList h' e = errorList h e).
Proof.
  intros Hb room Hps.
  destruct (AddRawFields_loop tmpl e lr ps h b r Hb Hps)
    as (h' & p' & Hrun & Hb' & Herr & Hkeep).
  fold room in Hb', Herr.
  exists h', (with_Fields (Fields r ++ take room ps) r).
  split; [|split; [|split; [|split; [|split]]]]; try done.
  - unfold AddRawFields. now rewrite (bind_Ok _ _ _ _ _ Hrun).
  - now apply (rawOf_eq _ _ _ _ _ Hb').
  - intros Hlen. simpl.
    rewrite take_ge by (unfold room; lia).
    rewrite Herr, drop_ge by (unfold room; lia). simpl.
    now rewrite app_nil_r.
Qed.

(** ** The loops over the attached fields *)

(** [InlineAllFields] writes [true], and [OutlineAllFields] writes [false],
    into the inline flag of every attached field, keeping its name and
    value; every other object of the store is as it was, a field attached
    several times or to another embed too is written through the shared
    pointer, and with no field attached the store does not change. *)
Theorem field_loops_write_through h e b lr r :
  builder_at h e b lr r ->
  fields_at h (Fields r) ->
  forall v : bool,
  exists h',
    (if v then InlineAllFields (Some e) h else OutlineAllFields (Some e) h)
    = Ok (Some e) h' /\
    (forall l, Some l ∈ Fields r ->
       exists f, h !! l = Some (OField f) /\
                 h' !! l = Some (OField (mkField (Name f) (Value f) v))) /\
    (forall l, Some l ∉ Fields r -> h' !! l = h !! l) /\
    (Fields r = [] -> h' = h).
Proof.
  intros Hb Hfs v.
  destruct (forEach_setInline v (Fields r) h Hfs) as (h' & Hrun & Hout & Hin).
  exists h'. split; [|split; [|split]].
  - destruct v; unfold InlineAllFields, OutlineAllFields;
      rewrite (bind_Ok _ _ _ _ _ (promoted_eq _ _ _ _ _ Hb));
      now rewrite (bind_Ok _ _ _ _ _ Hrun).
  - exact Hin.
  - exact Hout.
  - intros Hnil. rewrite Hnil in Hrun. simpl in Hrun. now injection Hrun.
Qed.

Lemma forEach_setInline_nil v : forall (ps qs : list ptr) h,
  forEach (setInline v) (ps ++ None :: qs) h = Panic.
Proof.
  induction ps as [|p ps IH]; intros qs h; simpl.
  - reflexivity.
  - unfold bind at 1. destruct (setInline v p h) as [u h1|]; [|reflexivity].
    apply IH.
Qed.

(** A nil raw field is accepted while there is room: [AddRawField(nil)] on
    an embed with fewer than 25 fields returns, appends nil and records
    nothing.  From then on [InlineAllFields] and [OutlineAllFields] panic on
    that embed, at the nil entry. *)
Theorem nil_field_breaks_the_loops tmpl h e b lr r :
  builder_at h e b lr r ->
  Z.of_nat (List.length (Fields r)) < 25 ->
  exists h',
    AddRawField tmpl (Some e) None h = Ok (Some e) h' /\
    rawOf h' e = Some (with_Fields (Fields r ++ [None]) r) /\
    errorList h' e = errorList h e /\
    InlineAllFields (Some e) h' = Panic /\
    OutlineAllFields (Some e) h' = Panic.
Proof.
  intros Hb Hlt.
  set (r' := with_Fields (Fields r ++ [None]) r).
  pose proof (builder_at_assign h e b lr r r' Hb) as Hb'.
  exists (<[lr := ORaw r']> h).
  split; [exact (AddRawField_accept tmpl h e b lr r None Hb Hlt)|].
  split; [now apply (rawOf_eq _ _ _ _ _ Hb')|].
  split; [now apply (errorList_assign h e b lr r)|].
  split; unfold InlineAllFields, OutlineAllFields;
    rewrite (bind_Ok _ _ _ _ _ (promoted_eq _ _ _ _ _ Hb'));
    apply bind_Panic; apply forEach_setInline_nil.
Qed.

(** ** Attaching one Field builder twice *)

(** [AddField] finalizes the Field builder it is given, so the builder
    comes back with a nil error list.  Attaching the same builder twice,
    with room for two, therefore absorbs its errors once but appends its
    fragment twice, the same pointer in both places. *)
Theorem AddField_twice (x : externals) h e b lr r fb sb lf f :
  builder_at h e b lr r ->
  h !! fb = Some (OBuilder sb) -> okErrors h (BErrors sb) ->
  fragment sb = Some lf -> h !! lf = Some (OField f) ->
  Z.of_nat (List.length (Fields r)) + 2 <= 25 ->
  exists h2 r2,
    run x (Some e) [CAddField (Some fb); CAddField (Some fb)] h
    = Ok (Some e) h2 /\
    rawOf h2 e = Some r2 /\
    Fields r2 = Fields r ++ [Some lf; Some lf] /\
    errorList h2 e = errorList h e ++ slice h (BErrors sb) /\
    h2 !! fb = Some (OBuilder (mkBuilder (Some lf) None)).
Proof.
  intros Hb Hfb Hok Hfrag Hlf Hroom.
  destruct (AddField_step (fieldTemplate x) h e b lr r fb sb lf f
              Hb Hfb Hok Hfrag Hlf)
    as (h1 & p1 & Hrun1 & Hb1 & Herr1 & Hp1 & Hf1 & Hfb1).
  rewrite (proj2 (Z.ltb_lt _ _)) in Hb1, Herr1 by lia. simpl in Hb1, Herr1.
  assert (Hlf1 : h1 !! lf = Some (OField f)).
  { pose proof Hb as [He _ Hr Hs].
    rewrite Hf1; try done; try congruence.
    intros <-. destruct Hp1 as [Hp | (_ & a & [= <-] & Ha)]; [|congruence].
    rewrite <- Hp in Hs. destruct Hs as [es Hes]. congruence. }
  destruct (AddField_step (fieldTemplate x) h1 e _ lr _ fb _ lf f
              Hb1 Hfb1 I eq_refl Hlf1)
    as (h2 & p2 & Hrun2 & Hb2 & Herr2 & _ & _ & Hfb2).
  simpl in Hb2, Herr2. rewrite length_app in Hb2, Herr2. simpl in Hb2, Herr2.
  rewrite (proj2 (Z.ltb_lt _ _)) in Hb2, Herr2 by lia. simpl in Hb2, Herr2.
  eexists h2, _. split; [|split; [|split; [|split]]].
  - simpl. rewrite (bind_Ok _ _ _ _ _ Hrun1).
    now rewrite (bind_Ok _ _ _ _ _ Hrun2).
  - exact (rawOf_eq _ _ _ _ _ Hb2).
  - simpl. now rewrite <- app_assoc.
  - rewrite Herr2, Herr1. now rewrite !app_nil_r.
  - exact Hfb2.
Qed.

(** ** After Finalize *)

(** [Finalize] keeps the builder attached to the raw embed it handed out:
    a setter called afterwards writes into the very object that [Finalize]
    returned, and an error recorded afterwards goes into a new list, which
    the next [Finalize] returns while the first list is as it was. *)
Theorem Finalize_does_not_detach (tmpl : string) h e b lr r (s t : string) :
  builder_at h e b lr r ->
  len s <= 256 -> len t > 256 ->
  exists p h1 h2 h3 q h4,
    Finalize (Some e) h = Ok (Some lr, p) h1 /\
    slice h1 p = errorList h e /\
    SetTitle tmpl (Some e) s h1 = Ok (Some e) h2 /\
    h2 !! lr = Some (ORaw (with_Title s r)) /\
    SetTitle tmpl (Some e) t h2 = Ok (Some e) h3 /\
    Finalize (Some e) h3 = Ok (Some lr, q) h4 /\
    slice h4 q = [Errorf tmpl [VString "embed title"; VInt 256; VInt (len t);
                               VString t]] /\
    slice h4 p = errorList h e /\
    p <> q.
Proof.
  intros Hb Hs Ht. pose proof Hb as [He Hemb Hr Hok].
  destruct (Finalize_slice h e b He Hok) as (h1 & Hfin1 & Hsl1).
  rewrite Hemb in Hfin1.
  assert (Hh1 : h1 = <[e := OEmbed (mkEmbed (Some lr) None)]> h).
  { unfold Finalize in Hfin1.
    rewrite (bind_Ok _ _ _ _ _ (loadEmbed_eq _ _ _ He)) in Hfin1.
    rewrite Hemb in Hfin1. unfold bind, store, ret in Hfin1. now injection Hfin1. }
  assert (Hne : lr <> e) by congruence.
  assert (Hb1 : builder_at h1 e (mkEmbed (Some lr) None) lr r).
  { rewrite Hh1. split; simpl; [apply lookup_insert_eq | done | | done].
    now rewrite lookup_insert_ne. }
  set (h2 := <[lr := ORaw (with_Title s r)]> h1).
  pose proof (builder_at_assign h1 e _ lr r (with_Title s r) Hb1) as Hb2.
  fold h2 in Hb2.
  assert (Hrun2 : SetTitle tmpl (Some e) s h1 = Ok (Some e) h2).
  { unfold SetTitle, lowerCharLimit. rewrite (proj2 (Z.leb_le _ _) Hs).
    exact (accept_eq h1 e _ lr r _ Hb1). }
  destruct (reject_records h2 e _ lr _ tmpl
              [VString "embed title"; VInt lowerCharLimit; VInt (len t);
               VString t] Hb2) as (h3 & Hrun3 & Hrec3).
  assert (Hrun3' : SetTitle tmpl (Some e) t h2 = Ok (Some e) h3).
  { unfold SetTitle, lowerCharLimit.
    rewrite (proj2 (Z.leb_gt _ _)) by lia. exact Hrun3. }
  destruct (records_builder_at _ _ _ _ _ _ _ Hb2 Hrec3) as (q & Hb3 & Hq).
  simpl in Hq.
  destruct (records_inv _ _ _ _ _ Hrec3 (at_embed _ _ _ _ _ Hb2))
    as (q' & He3 & _ & Hq' & Hf3).
  pose proof (at_embed _ _ _ _ _ Hb3) as He3b.
  assert (q' = q) as -> by (simpl in He3; congruence).
  destruct (Finalize_slice h3 e _ (at_embed _ _ _ _ _ Hb3) (at_errors _ _ _ _ _ Hb3))
    as (h4 & Hfin4 & Hsl4).
  simpl in Hfin4, Hsl4.
  rewrite (errorList_eq _ _ _ (at_embed _ _ _ _ _ Hb3)) in Hsl4. simpl in Hsl4.
  assert (Hh4 : h4 = <[e := OEmbed (mkEmbed (Some lr) None)]> h3).
  { unfold Finalize in Hfin4.
    rewrite (bind_Ok _ _ _ _ _ (loadEmbed_eq _ _ _ (at_embed _ _ _ _ _ Hb3))) in Hfin4.
    unfold bind, store, ret in Hfin4. now injection Hfin4. }
  assert (Hqfresh : exists a, q = Some a /\ h2 !! a = None).
  { destruct Hq' as [-> | (_ & a & -> & Ha)]; [|eauto].
    simpl in Hq. discriminate. }
  destruct Hqfresh as (a & -> & Ha2).
  assert (Hp4 : slice h4 (Errors b) = errorList h e).
  { rewrite <- Hsl1. destruct (Errors b) as [pa|] eqn:Epa; simpl in *; [|done].
    destruct Hok as [es Hes].
    assert (Hpae : pa <> e) by congruence.
    assert (Hpal : pa <> lr) by congruence.
    assert (Hpa2 : h2 !! pa = Some (OErrors es)).
    { unfold h2. rewrite lookup_insert_ne by congruence.
      rewrite Hh1. now rewrite lookup_insert_ne by congruence. }
    assert (Hpaa : pa <> a) by congruence.
    rewrite Hh4. rewrite lookup_insert_ne by congruence.
    rewrite Hf3 by congruence. rewrite Hpa2.
    rewrite Hh1. rewrite lookup_insert_ne by congruence. now rewrite Hes. }
  exists (Errors b), h1, h2, h3, (Some a), h4.
  repeat split; try done.
  - apply Hb2.
  - now rewrite Hsl4, Hq.
  - intros Heq. rewrite Heq in Hok. destruct Hok as [es Hes].
    assert (Ha' : h2 !! a = Some (OErrors es)).
    { assert (a <> e) by congruence. assert (a <> lr) by congruence.
      unfold h2. rewrite lookup_insert_ne by congruence.
      rewrite Hh1. now rewrite lookup_insert_ne by congruence. }
    congruence.
Qed.

(** ** Invariants that every setter keeps *)

Lemma addRawError_stuck h e b a err :
  h !! e = Some (OEmbed b) -> Errors b = Some a ->
  (forall es, h !! a <> Some (OErrors es)) ->
  addRawError (Some e) err h = Panic.
Proof.
  intros He Ha Hbad. unfold addRawError.
  rewrite (bind_Ok _ _ _ _ _ (loadEmbed_eq _ _ _ He)). rewrite Ha.
  unfold bind at 1, ret.
  rewrite (bind_Ok _ _ _ _ _ (loadEmbed_eq _ _ _ He)). rewrite Ha.
  apply bind_Panic. unfold loadErrors, bind, load.
  destruct (h !! a) as [[]|] eqn:E; try reflexivity.
  now destruct (Hbad l).
Qed.

(** On a builder in place, [addRawError] panics or records. *)
Lemma addRawError_cases h e b err :
  h !! e = Some (OEmbed b) ->
  addRawError (Some e) err h = Panic \/
  (okErrors h (Errors b) /\
   exists h', addRawError (Some e) err h = Ok tt h' /\ records h e [err] h').
Proof.
  intros He. destruct (Errors b) as [a|] eqn:Ea.
  - destruct (h !! a) as [o|] eqn:Eo.
    + destruct o; try (left; apply (addRawError_stuck h e b a); congruence).
      right. assert (Hok : okErrors h (Errors b)) by (rewrite Ea; simpl; eauto).
      rewrite <- Ea. split; [done|]. now apply (addRawError_records h e b).
    + left. apply (addRawError_stuck h e b a); congruence.
  - right. assert (Hok : okErrors h (Errors b)) by (now rewrite Ea).
    rewrite <- Ea. split; [done|]. now apply (addRawError_records h e b).
Qed.

Section Stable.

(** An invariant kept by the four ways a setter of the builder at [e]
    writes to the store is kept by every setter, and by every chain. *)
Variable P : heap -> Prop.
Variable e : loc.
Variable x : externals.
Hypothesis P_assign : forall upd, preserves P (assign (Some e) upd).
Hypothesis P_setInline : forall v p, preserves P (setInline v p).
Hypothesis P_Finalize : forall p, preserves P (Builder_Finalize p).
Hypothesis P_addRawError : forall err, preserves P (addRawError (Some e) err).

Lemma stable_addAllRawErrors errs : preserves P (addAllRawErrors (Some e) errs).
Proof.
  destruct errs as [a|]; simpl; [|apply preserves_ret].
  apply preserves_bind; [apply preserves_loadErrors|].
  intros [l es]. apply preserves_forEach. intros err. apply P_addRawError.
Qed.

Ltac stable_leaf :=
  lazymatch goal with
  | |- keeps _ _ (ret _) => apply keeps_ret
  | |- preserves _ (ret _) => apply preserves_ret
  | |- preserves _ (promoted _) => apply preserves_promoted
  | |- preserves _ (assign _ _) => apply P_assign
  | |- preserves _ (addError _ _ _) =>
      rewrite addError_addRawError; apply P_addRawError
  | |- preserves _ (addAllRawErrors _ _) => apply stable_addAllRawErrors
  | |- preserves _ (Builder_Finalize _) => apply P_Finalize
  | |- preserves _ (loadField _) => apply preserves_loadField
  | |- preserves _ (forEach (setInline _) _) =>
      apply preserves_forEach; intros; apply P_setInline
  | |- keeps _ _ (bind _ _) => apply keeps_bind
  | |- preserves _ (bind _ _) => apply preserves_bind
  | |- keeps _ _ (if ?c then _ else _) => destruct c
  | |- preserves _ (if ?c then _ else _) => destruct c
  | |- keeps _ _ (match ?c with Some _ => _ | None => _ end) => destruct c
  | |- preserves _ (match ?c with Some _ => _ | None => _ end) => destruct c
  | |- keeps _ _ (match ?p with (_, _) => _ end) => destruct p
  | |- preserves _ (match ?p with (_, _) => _ end) => destruct p
  | |- forall _, _ => intro
  end.

Lemma stable_AddRawField tmpl field :
  keeps P (Some e) (AddRawField tmpl (Some e) field).
Proof. unfold AddRawField. repeat stable_leaf. Qed.

Lemma stable_AddField tmpl field :
  keeps P (Some e) (AddField tmpl (Some e) field).
Proof. unfold AddField. repeat stable_leaf. apply stable_AddRawField. Qed.

Lemma stable_exec c : keeps P (Some e) (exec x (Some e) c).
Proof.
  destruct c; simpl;
    unfold SetTitle, SetDescription, SetURL, SetColor, SetCurrentTimestamp,
      SetCustomTimestamp, setRawTimestamp, InlineAllFields, OutlineAllFields,
      AddFields, AddRawFields, SetAuthor, SetRawAuthor, SetThumbnail,
      SetRawThumbnail, SetProvider, SetRawProvider, SetFooter, SetRawFooter,
      SetVideo, SetRawVideo, SetImage, SetRawImage, SetType;
    try apply stable_AddField; try apply stable_AddRawField;
    repeat stable_leaf;
    apply preserves_forEach; intros f; apply preserves_bind;
    try (intros _; apply preserves_ret);
    apply (keeps_preserves _ (Some e));
    [apply stable_AddField | apply stable_AddRawField].
Qed.

Lemma stable_run cs : keeps P (Some e) (run x (Some e) cs).
Proof.
  induction cs as [|c cs IH]; simpl; [apply keeps_ret|].
  intros h HP. pose proof (stable_exec c h HP) as Hc. unfold wlp, bind in *.
  destruct (exec x (Some e) c h) as [a h1|]; [|exact I].
  destruct Hc as [-> HP1]. exact (IH h1 HP1).
Qed.

End Stable.

(** What a returning write did. *)
Lemma assign_inv p upd h u h' :
  assign p upd h = Ok u h' ->
  exists le b l0 r,
    p = Some le /\ h !! le = Some (OEmbed b) /\ embedded b = Some l0 /\
    h !! l0 = Some (ORaw r) /\ h' = <[l0 := ORaw (upd r)]> h.
Proof.
  unfold assign, promoted, loadEmbed, loadRaw. intros H.
  apply bind_inv in H as ([l0 r] & h1 & H & Hst).
  apply bind_inv in H as ([le b] & h2 & H & Hraw).
  apply bind_inv in H as ([le' o] & h3 & Hld & Hm).
  apply load_inv in Hld as (-> & -> & Hle).
  destruct o; try discriminate. injection Hm as <- <- <-.
  apply bind_inv in Hraw as ([l0' o] & h4 & Hld & Hm).
  apply load_inv in Hld as (-> & Hemb & Hl0).
  destruct o; try discriminate. injection Hm as <- <- <-.
  unfold store in Hst. injection Hst as _ <-.
  do 4 eexists. repeat split; eauto.
Qed.

Lemma setInline_inv v p h u h' :
  setInline v p h = Ok u h' ->
  exists l f, p = Some l /\ h !! l = Some (OField f) /\
              h' = <[l := OField (with_Inline v f)]> h.
Proof.
  unfold setInline, loadField. intros H.
  apply bind_inv in H as ([l f] & h1 & H & Hst).
  apply bind_inv in H as ([l' o] & h2 & Hld & Hm).
  apply load_inv in Hld as (-> & -> & Hl).
  destruct o; try discriminate. injection Hm as <- <- <-.
  unfold store in Hst. injection Hst as _ <-.
  do 2 eexists. repeat split; eauto.
Qed.

Lemma Builder_Finalize_inv p h res h' :
  Builder_Finalize p h = Ok res h' ->
  exists l sb, p = Some l /\ h !! l = Some (OBuilder sb) /\
               res = (fragment sb, BErrors sb) /\
               h' = <[l := OBuilder (mkBuilder (fragment sb) None)]> h.
Proof.
  unfold Builder_Finalize, loadBuilder. intros H.
  apply bind_inv in H as ([l sb] & h1 & H & Hst).
  apply bind_inv in H as ([l' o] & h2 & Hld & Hm).
  apply load_inv in Hld as (-> & -> & Hl).
  destruct o; try discriminate. injection Hm as <- <- <-.
  apply bind_inv in Hst as (u & h3 & Hst & Hret).
  unfold store in Hst. injection Hst as _ <-.
  unfold ret in Hret. injection Hret as <- <-.
  do 2 eexists. repeat split; eauto.
Qed.

(** ** A list handed out by Finalize *)

Lemma handed_out_insert a l e h l0 o o' :
  h !! l0 = Some o ->
  (forall y, o <> OEmbed y) -> (forall y, o <> OErrors y) ->
  handed_out a l e h -> handed_out a l e (<[l0 := o']> h).
Proof.
  intros Hl0 Ho1 Ho2 (Ha & b & He & Hne).
  assert (l0 <> a) by (intros ->; rewrite Ha in Hl0; injection Hl0 as <-;
                       now apply (Ho2 l)).
  assert (l0 <> e) by (intros ->; rewrite He in Hl0; injection Hl0 as <-;
                       now apply (Ho1 b)).
  split; [now rewrite lookup_insert_ne|].
  exists b. split; [now rewrite lookup_insert_ne | done].
Qed.

Lemma handed_out_addRawError a l e err :
  preserves (handed_out a l e) (addRawError (Some e) err).
Proof.
  intros h (Ha & b & He & Hne). unfold wlp.
  destruct (addRawError_cases h e b err He) as [-> | (Hok & h' & -> & Hrec)];
    [exact I|].
  destruct (records_inv _ _ _ _ _ Hrec He) as (p' & He' & _ & Hp' & Hf).
  assert (Hpa : Some a <> p').
  { destruct Hp' as [-> | (_ & a' & -> & Ha')]; [congruence|].
    intros [= <-]. congruence. }
  split.
  - rewrite Hf; [done | congruence | done].
  - eexists. split; [exact He'|]. simpl. congruence.
Qed.

Lemma handed_out_run (x : externals) a l e cs :
  keeps (handed_out a l e) (Some e) (run x (Some e) cs).
Proof.
  apply stable_run.
  - intros upd h HP. unfold wlp.
    destruct (assign (Some e) upd h) as [u h'|] eqn:E; [|exact I].
    apply assign_inv in E as (le & b & l0 & r & _ & _ & _ & Hl0 & ->).
    apply (handed_out_insert a l e h l0 _ _ Hl0); discriminate || auto.
  - intros v p h HP. unfold wlp.
    destruct (setInline v p h) as [u h'|] eqn:E; [|exact I].
    apply setInline_inv in E as (l0 & f & _ & Hl0 & ->).
    apply (handed_out_insert a l e h l0 _ _ Hl0); discriminate || auto.
  - intros p h HP. unfold wlp.
    destruct (Builder_Finalize p h) as [u h'|] eqn:E; [|exact I].
    apply Builder_Finalize_inv in E as (l0 & sb & _ & Hl0 & _ & ->).
    apply (handed_out_insert a l e h l0 _ _ Hl0); discriminate || auto.
  - apply handed_out_addRawError.
Qed.

(** The error list that [Finalize] returns is left alone from then on:
    whatever chain of setters is called on the builder afterwards, if it
    returns, the returned list still holds exactly the errors it held, and
    the builder no longer points to it. *)
Theorem finalized_errors_are_kept (x : externals) h e b cs pe h2 :
  h !! e = Some (OEmbed b) -> okErrors h (Errors b) ->
  (let* _ := Finalize (Some e) in run x (Some e) cs) h = Ok pe h2 ->
  exists h1,
    Finalize (Some e) h = Ok (embedded b, Errors b) h1 /\
    run x (Some e) cs h1 = Ok pe h2 /\
    pe = Some e /\
    slice h1 (Errors b) = errorList h e /\
    slice h2 (Errors b) = errorList h e /\
    exists b2, h2 !! e = Some (OEmbed b2) /\
               (Errors b <> None -> Errors b2 <> Errors b).
Proof.
  intros He Hok Hall.
  destruct (Finalize_slice h e b He Hok) as (h1 & Hfin & Hsl).
  rewrite (bind_Ok _ _ _ _ _ Hfin) in Hall. rename Hall into Hrun.
  exists h1. split; [exact Hfin|]. split; [exact Hrun|].
  assert (Hh1 : h1 = <[e := OEmbed (mkEmbed (embedded b) None)]> h).
  { unfold Finalize in Hfin.
    rewrite (bind_Ok _ _ _ _ _ (loadEmbed_eq _ _ _ He)) in Hfin.
    unfold bind, store, ret in Hfin. now injection Hfin. }
  assert (He1 : h1 !! e = Some (OEmbed (mkEmbed (embedded b) None)))
    by (rewrite Hh1; apply lookup_insert_eq).
  destruct (Errors b) as [a|] eqn:Ea.
  - simpl in Hok. destruct Hok as [l Ha].
    assert (Hae : a <> e) by congruence.
    assert (Ha1 : h1 !! a = Some (OErrors l))
      by (rewrite Hh1; now rewrite lookup_insert_ne).
    assert (HP : handed_out a l e h1).
    { split; [done|]. eexists. split; [exact He1|]. discriminate. }
    pose proof (handed_out_run x a l e cs h1 HP) as Hk. unfold wlp in Hk.
    rewrite Hrun in Hk. destruct Hk as (-> & Ha2 & b2 & He2 & Hne).
    split; [done|]. split; [exact Hsl|]. split.
    + simpl. rewrite Ha2. simpl in Hsl. now rewrite Ha1 in Hsl.
    + exists b2. split; [done|]. intros _. exact Hne.
  - pose proof (keeps_run [] e x cs h1) as Hk. unfold wlp in Hk.
    rewrite Hrun in Hk. destruct Hk as (-> & b2 & He2 & _).
    { exists (mkEmbed (embedded b) None). split; [done|].
      split; [now exists [] | now left]. }
    split; [done|]. split; [exact Hsl|]. split; [exact Hsl|].
    exists b2. split; [done|]. congruence.
Qed.

(** ** Two builders side by side *)

Lemma apart_insert e1 lr1 e2 b2 lr2 r2 l2 h l0 o o' :
  h !! l0 = Some o ->
  (forall y, o <> OEmbed y) -> (forall y, o <> OErrors y) -> l0 <> lr2 ->
  apart e1 lr1 e2 b2 lr2 r2 l2 h ->
  apart e1 lr1 e2 b2 lr2 r2 l2 (<[l0 := o']> h).
Proof.
  intros Hl0 Ho1 Ho2 Hne ((b1 & He1 & Hemb & Hsh) & He2 & Hr2 & Hok & Hsl).
  assert (l0 <> e1) by (intros ->; rewrite He1 in Hl0; injection Hl0 as <-;
                        now apply (Ho1 b1)).
  assert (l0 <> e2) by (intros ->; rewrite He2 in Hl0; injection Hl0 as <-;
                        now apply (Ho1 b2)).
  assert (Hnos : forall es, h !! l0 <> Some (OErrors es)).
  { intros es Hes. rewrite Hl0 in Hes. injection Hes as ->. now apply (Ho2 es). }
  split; [|split; [|split; [|split]]].
  - exists b1. split; [now rewrite lookup_insert_ne | done].
  - now rewrite lookup_insert_ne.
  - now rewrite lookup_insert_ne.
  - now apply okErrors_insert.
  - rewrite <- Hsl. now apply slice_insert.
Qed.

Lemma apart_addRawError e1 lr1 e2 b2 lr2 r2 l2 err :
  e1 <> e2 ->
  preserves (apart e1 lr1 e2 b2 lr2 r2 l2) (addRawError (Some e1) err).
Proof.
  intros Hne h ((b1 & He1 & Hemb & Hsh) & He2 & Hr2 & Hok & Hsl). unfold wlp.
  destruct (addRawError_cases h e1 b1 err He1) as [-> | (Hok1 & h' & -> & Hrec)];
    [exact I|].
  destruct (records_inv _ _ _ _ _ Hrec He1) as (p' & He1' & _ & Hp' & Hf).
  assert (Hkeep : forall l o, h !! l = Some o -> l <> e1 ->
            Errors b1 <> Some l -> h' !! l = Some o).
  { intros l o Hl Hle Hlp. rewrite Hf; [done | done |].
    destruct Hp' as [-> | (_ & a' & -> & Ha')]; congruence. }
  assert (Hnot : forall l o, h !! l = Some o -> (forall y, o <> OErrors y) ->
            Errors b1 <> Some l).
  { intros l o Hl Ho Heq. rewrite Heq in Hok1. destruct Hok1 as [es Hes].
    rewrite Hl in Hes. injection Hes as ->. now apply (Ho es). }
  split; [|split; [|split]].
  - eexists. split; [exact He1'|]. split; [done|]. simpl.
    intros a Ha. destruct Hp' as [-> | (_ & a' & -> & Ha')]; [now apply Hsh|].
    injection Ha as <-. intros Heq. rewrite Heq in Hok.
    destruct Hok as [es Hes]. congruence.
  - apply Hkeep; [done | congruence |]. now apply (Hnot _ _ He2).
  - apply Hkeep; [done | congruence |]. now apply (Hnot _ _ Hr2).
  - destruct (Errors b2) as [a2|] eqn:Ea2; simpl in *; [|done].
    destruct Hok as [es Hes].
    assert (Hes' : h' !! a2 = Some (OErrors es)).
    { apply Hkeep; [done | congruence |]. intros Heq. now apply (Hsh a2). }
    rewrite Hes'. rewrite Hes in Hsl. eauto.
Qed.

Lemma apart_run (x : externals) e1 lr1 e2 b2 lr2 r2 l2 cs :
  e1 <> e2 -> lr1 <> lr2 ->
  keeps (apart e1 lr1 e2 b2 lr2 r2 l2) (Some e1) (run x (Some e1) cs).
Proof.
  intros Hne Hlr. apply stable_run.
  - intros upd h HP. unfold wlp.
    destruct (assign (Some e1) upd h) as [u h'|] eqn:E; [|exact I].
    apply assign_inv in E as (le & b & l0 & r & [= <-] & Hle & Hemb & Hl0 & ->).
    apply (apart_insert _ _ _ _ _ _ _ h l0 _ _ Hl0); try discriminate; [|done].
    destruct HP as ((b1 & He1 & Hemb1 & _) & _). congruence.
  - intros v p h HP. unfold wlp.
    destruct (setInline v p h) as [u h'|] eqn:E; [|exact I].
    apply setInline_inv in E as (l0 & f & _ & Hl0 & ->).
    apply (apart_insert _ _ _ _ _ _ _ h l0 _ _ Hl0); try discriminate; [|done].
    destruct HP as (_ & _ & Hr2 & _). congruence.
  - intros p h HP. unfold wlp.
    destruct (Builder_Finalize p h) as [u h'|] eqn:E; [|exact I].
    apply Builder_Finalize_inv in E as (l0 & sb & _ & Hl0 & _ & ->).
    apply (apart_insert _ _ _ _ _ _ _ h l0 _ _ Hl0); try discriminate; [|done].
    destruct HP as (_ & _ & Hr2 & _). congruence.
  - intros err. now apply apart_addRawError.
Qed.

(** Two builders that wrap different raw embeds and do not share an error
    list do not interfere: whatever chain of setters is called on the first,
    if it returns, the wrapper, the raw embed and the errors of the second
    are as they were.  (The fields attached to both are shared objects; the
    raw embed holds the pointers to them, and those are as they were.) *)
Theorem builders_do_not_interfere (x : externals) h e1 b1 lr1 r1
    e2 b2 lr2 r2 cs pe h' :
  builder_at h e1 b1 lr1 r1 -> builder_at h e2 b2 lr2 r2 ->
  lr1 <> lr2 ->
  (forall a, Errors b1 = Some a -> Errors b2 <> Some a) ->
  run x (Some e1) cs h = Ok pe h' ->
  pe = Some e1 /\
  h' !! e2 = Some (OEmbed b2) /\ rawOf h' e2 = Some r2 /\
  errorList h' e2 = errorList h e2.
Proof.
  intros Hb1 Hb2 Hlr Hsh Hrun.
  assert (Hne : e1 <> e2).
  { intros ->. destruct Hb1 as [He1 Hp1 _ _], Hb2 as [He2 Hp2 _ _]. congruence. }
  assert (HP : apart e1 lr1 e2 b2 lr2 r2 (errorList h e2) h).
  { split; [|split; [|split; [|split]]]; try apply Hb2.
    - exists b1. split; [apply Hb1|]. split; [apply Hb1 | exact Hsh].
    - symmetry. apply errorList_eq, Hb2. }
  pose proof (apart_run x e1 lr1 e2 b2 lr2 r2 _ cs Hne Hlr h HP) as Hk.
  unfold wlp in Hk. rewrite Hrun in Hk.
  destruct Hk as (-> & _ & He2 & Hr2 & Hok & Hsl).
  split; [done|]. split; [done|]. split.
  - unfold rawOf. now rewrite He2, (at_embedded _ _ _ _ _ Hb2), Hr2.
  - unfold errorList at 1. now rewrite He2.
Qed.

(** ** Chains of setters that dereference no argument *)

Lemma accept_step h e b lr r upd :
  builder_at h e b lr r ->
  exists h' p',
    (assign (Some e) upd ;; ret (Some e)) h = Ok (Some e) h' /\
    builder_at h' e (mkEmbed (Some lr) p') lr (upd r) /\
    errorList h' e = errorList h e ++ [] /\
    (forall l o, h !! l = Some o -> (forall y, o <> OEmbed y) ->
                 (forall y, o <> ORaw y) -> (forall y, o <> OErrors y) ->
                 h' !! l = Some o).
Proof.
  intros Hb. exists (<[lr := ORaw (upd r)]> h), (Errors b).
  split; [exact (accept_eq h e b lr r upd Hb)|]. split; [|split].
  - pose proof (builder_at_assign h e b lr r (upd r) Hb) as Hb'.
    destruct Hb as [_ Hemb _ _]. destruct b as [pb qb]; simpl in *.
    now subst pb.
  - rewrite app_nil_r. now apply (errorList_assign h e b lr r).
  - intros l o Hl _ Ho _. rewrite lookup_insert_ne; [done|].
    intros <-. rewrite (at_raw _ _ _ _ _ Hb) in Hl. injection Hl as <-.
    now apply (Ho r).
Qed.

Lemma reject_step h e b lr r fmt vs :
  builder_at h e b lr r ->
  exists h' p',
    (addError (Some e) fmt vs ;; ret (Some e)) h = Ok (Some e) h' /\
    builder_at h' e (mkEmbed (Some lr) p') lr r /\
    errorList h' e = errorList h e ++ [Errorf fmt vs] /\
    (forall l o, h !! l = Some o -> (forall y, o <> OEmbed y) ->
                 (forall y, o <> ORaw y) -> (forall y, o <> OErrors y) ->
                 h' !! l = Some o).
Proof.
  intros Hb. destruct (reject_records h e b lr r fmt vs Hb) as (h' & Hrun & Hrec).
  destruct (records_builder_at _ _ _ _ _ _ _ Hb Hrec) as (p' & Hb' & _).
  exists h', p'. split; [done|]. split; [done|]. split.
  - now apply records_errorList.
  - intros l o Hl Ho1 _ Ho3.
    apply (records_frame h e _ h' l o Hrec); try done.
    + intros b0 Hb0. rewrite (at_embed _ _ _ _ _ Hb) in Hb0.
      injection Hb0 as <-. apply Hb.
    + intros ->. rewrite (at_embed _ _ _ _ _ Hb) in Hl. injection Hl as <-.
      now apply (Ho1 b).
Qed.

Lemma plain_step (x : externals) h e b lr r c r' es :
  builder_at h e b lr r -> plain_effect x c r = Some (r', es) ->
  exists h' p',
    exec x (Some e) c h = Ok (Some e) h' /\
    builder_at h' e (mkEmbed (Some lr) p') lr r' /\
    errorList h' e = errorList h e ++ es /\
    (forall l o, h !! l = Some o -> (forall y, o <> OEmbed y) ->
                 (forall y, o <> ORaw y) -> (forall y, o <> OErrors y) ->
                 h' !! l = Some o).
Proof.
  intros Hb Heff.
  destruct c; simpl in Heff; try discriminate; simpl;
    unfold SetTitle, SetDescription, SetColor, SetType;
    try (injection Heff as <- <-; now apply (accept_step h e b lr r)).
  - destruct (len title <=? lowerCharLimit); injection Heff as <- <-;
      [now apply (accept_step h e b lr r) | now apply (reject_step h e b lr r)].
  - destruct (len desc <=? upperCharLimit); injection Heff as <- <-;
      [now apply (accept_step h e b lr r) | now apply (reject_step h e b lr r)].
  - destruct ((color >=? 0) && (color <? maxColorValue))%bool;
      injection Heff as <- <-;
      [now apply (accept_step h e b lr r) | now apply (reject_step h e b lr r)].
  - destruct (typeValid x embedType); injection Heff as <- <-;
      [now apply (accept_step h e b lr r) | now apply (reject_step h e b lr r)].
Qed.

(** A chain of setters that dereference no argument -- the validating
    setters, [SetURL], the timestamps and the [SetRaw...] setters -- always
    returns on a builder made by [NewEmbed], with the handle it was called
    on: the raw embed is what the accepted writes make of it, one after the
    other, so the last accepted write of a member wins and a rejected write
    keeps the value before it; the error list is the former one followed by
    one error per rejected call, in call order; and no field, sub-object
    builder or other fragment of the store is touched. *)
Theorem plain_chain_composes (x : externals) cs : forall h e b lr r r' es,
  builder_at h e b lr r -> plain_chain x cs r = Some (r', es) ->
  exists h',
    run x (Some e) cs h = Ok (Some e) h' /\
    rawOf h' e = Some r' /\
    errorList h' e = errorList h e ++ es /\
    Fields r' = Fields r /\
    (forall l o, h !! l = Some o -> (forall y, o <> OEmbed y) ->
                 (forall y, o <> ORaw y) -> (forall y, o <> OErrors y) ->
                 h' !! l = Some o).
Proof.
  induction cs as [|c cs IH]; intros h e b lr r r' es Hb Hch; simpl in Hch.
  - injection Hch as <- <-. exists h. split; [reflexivity|].
    split; [now apply (rawOf_eq _ _ _ _ _ Hb)|].
    split; [now rewrite app_nil_r|]. auto.
  - destruct (plain_effect x c r) as [[r1 es1]|] eqn:Eeff; [|discriminate].
    destruct (plain_chain x cs r1) as [[r2 es2]|] eqn:Ech; [|discriminate].
    injection Hch as <- <-.
    destruct (plain_step x h e b lr r c r1 es1 Hb Eeff)
      as (h1 & p1 & Hrun1 & Hb1 & Herr1 & Hkeep1).
    destruct (IH h1 e _ lr r1 r2 es2 Hb1 Ech)
      as (h' & Hrun & Hraw & Herr & Hfs & Hkeep).
    exists h'. split; [|split; [|split; [|split]]].
    + simpl. now rewrite (bind_Ok _ _ _ _ _ Hrun1).
    + exact Hraw.
    + rewrite Herr, Herr1. now rewrite app_assoc.
    + rewrite Hfs. clear -Eeff.
      destruct c; simpl in Eeff; try discriminate;
        repeat match goal with
               | H : Some (if ?t then _ else _) = _ |- _ => destruct t
               end;
        now injection Eeff as <- _.
    + intros l o Hl H1 H2 H3. apply Hkeep; try done. now apply Hkeep1.
Qed.

(** ** Chains with valid pointers never panic *)

Lemma grows_refl h : grows h h.
Proof.
  split; [|split]; intros l o Hl; eauto.
Qed.

Lemma grows_insert h0 h l0 o o' :
  h !! l0 = Some o ->
  match o, o' with
  | ORaw _, ORaw _ => True
  | OField _, OField _ => True
  | OBuilder sb, OBuilder sb' =>
      fragment sb' = fragment sb /\ BErrors sb' = None
  | _, _ => False
  end ->
  grows h0 h -> grows h0 (<[l0 := o']> h).
Proof.
  intros Hl0 Hk (Hf & Hb & Hs). split; [|split].
  - intros l f Hl. destruct (Hf l f Hl) as [f' Hf'].
    destruct (decide (l = l0)) as [-> | Hne].
    + rewrite Hl0 in Hf'. injection Hf' as ->.
      destruct o'; try contradiction. rewrite lookup_insert_eq. eauto.
    + rewrite lookup_insert_ne by done. eauto.
  - intros l sb Hl. destruct (Hb l sb Hl) as (sb1 & Hsb1 & Hfr & Hbe).
    destruct (decide (l = l0)) as [-> | Hne].
    + rewrite Hl0 in Hsb1. injection Hsb1 as ->.
      destruct o' as [| | |sb2| |]; try contradiction. destruct Hk as [Hk1 Hk2].
      rewrite lookup_insert_eq. exists sb2. split; [done|].
      split; [congruence | now right].
    + rewrite lookup_insert_ne by done. eauto.
  - intros l es Hl. destruct (Hs l es Hl) as [es' Hes'].
    destruct (decide (l = l0)) as [-> | Hne].
    + rewrite Hl0 in Hes'. injection Hes' as ->. contradiction.
    + rewrite lookup_insert_ne by done. eauto.
Qed.

Lemma grows_addRawError h0 e err :
  preserves (grows h0) (addRawError (Some e) err).
Proof.
  intros h (Hf & Hb & Hs). unfold wlp.
  destruct (addRawError (Some e) err h) as [u h'|] eqn:E; [|exact I].
  assert (He : exists b, h !! e = Some (OEmbed b)).
  { unfold addRawError in E. apply bind_inv in E as ([le b] & h1 & E & _).
    unfold loadEmbed in E. apply bind_inv in E as ([le' o] & h2 & Hld & Hm).
    apply load_inv in Hld as (_ & [= <-] & Hle).
    destruct o; try discriminate. eauto. }
  destruct He as [b He].
  destruct (addRawError_cases h e b err He) as [Hp | (Hok & h2 & Hrun & Hrec)];
    [congruence|].
  rewrite Hrun in E. injection E as _ <-.
  assert (Hwf : forall b0, h !! e = Some (OEmbed b0) -> okErrors h (Errors b0)).
  { intros b0 Hb0. rewrite He in Hb0. now injection Hb0 as <-. }
  split; [|split].
  - intros l f Hl. destruct (Hf l f Hl) as [f' Hf']. exists f'.
    apply (records_frame h e _ h2 l _ Hrec Hwf Hf'); [congruence | discriminate].
  - intros l sb Hl. destruct (Hb l sb Hl) as (sb' & Hsb' & Hrest).
    exists sb'. split; [|done].
    apply (records_frame h e _ h2 l _ Hrec Hwf Hsb'); [congruence | discriminate].
  - intros l es Hl. destruct (Hs l es Hl) as [es' Hes'].
    destruct (records_inv _ _ _ _ _ Hrec He) as (p' & _ & Hok' & _ & Hfr).
    destruct (decide (p' = Some l)) as [-> | Hne].
    + exact Hok'.
    + exists es'. rewrite Hfr; [done | congruence | congruence].
Qed.

Lemma grows_run (x : externals) e cs h pe h' :
  run x (Some e) cs h = Ok pe h' -> grows h h'.
Proof.
  intros Hrun.
  assert (Hk : keeps (grows h) (Some e) (run x (Some e) cs)).
  { apply stable_run.
    - intros upd h1 HP. unfold wlp.
      destruct (assign (Some e) upd h1) as [u h2|] eqn:E; [|exact I].
      apply assign_inv in E as (le & b & l0 & r & _ & _ & _ & Hl0 & ->).
      now apply (grows_insert h h1 l0 _ _ Hl0).
    - intros v p h1 HP. unfold wlp.
      destruct (setInline v p h1) as [u h2|] eqn:E; [|exact I].
      apply setInline_inv in E as (l0 & f & _ & Hl0 & ->).
      now apply (grows_insert h h1 l0 _ _ Hl0).
    - intros p h1 HP. unfold wlp.
      destruct (Builder_Finalize p h1) as [u h2|] eqn:E; [|exact I].
      apply Builder_Finalize_inv in E as (l0 & sb & _ & Hl0 & _ & ->).
      now apply (grows_insert h h1 l0 _ _ Hl0).
    - apply grows_addRawError. }
  specialize (Hk h (grows_refl h)). unfold wlp in Hk. rewrite Hrun in Hk.
  apply Hk.
Qed.

Lemma grows_exec (x : externals) e c h pe h' :
  exec x (Some e) c h = Ok pe h' -> grows h h'.
Proof.
  intros Hrun. apply (grows_run x e [c] h pe h'). simpl.
  now rewrite (bind_Ok _ _ _ _ _ Hrun).
Qed.

Lemma fields_at_grows h h' ps : grows h h' -> fields_at h ps -> fields_at h' ps.
Proof.
  intros (Hf & _) Hps. eapply Forall_impl; [exact Hps|].
  intros p (l & f & -> & Hl). destruct (Hf l f Hl) as [f' Hf']. eauto.
Qed.

Lemma okErrors_grows h h' p : grows h h' -> okErrors h p -> okErrors h' p.
Proof.
  intros (_ & _ & Hs) Hok. destruct p as [a|]; simpl in *; [|done].
  destruct Hok as [es Ha]. now apply (Hs a es).
Qed.

Lemma sub_builder_grows h h' p : grows h h' -> sub_builder h p -> sub_builder h' p.
Proof.
  intros Hg (fb & sb & -> & Hfb & Hok). pose proof Hg as (_ & Hb & _).
  destruct (Hb fb sb Hfb) as (sb' & Hsb' & _ & [Hbe | Hbe]).
  - exists fb, sb'. repeat split; try done. rewrite Hbe.
    now apply (okErrors_grows h).
  - exists fb, sb'. repeat split; try done. now rewrite Hbe.
Qed.

Lemma sub_field_grows h h' p : grows h h' -> sub_field h p -> sub_field h' p.
Proof.
  intros Hg (fb & sb & lf & f & -> & Hfb & Hok & Hfrag & Hlf).
  pose proof Hg as (Hf & Hb & _).
  destruct (Hb fb sb Hfb) as (sb' & Hsb' & Hfr' & Hbe).
  destruct (Hf lf f Hlf) as [f' Hf'].
  exists fb, sb', lf, f'. repeat split; try done; [|congruence].
  destruct Hbe as [-> | ->]; [now apply (okErrors_grows h) | done].
Qed.

Lemma ptrs_ok_grows h h' c : grows h h' -> ptrs_ok h c -> ptrs_ok h' c.
Proof.
  intros Hg Hc. destruct c; simpl in *; try done;
    try (now apply (fields_at_grows h));
    try (now apply (sub_builder_grows h));
    try (now apply (sub_field_grows h)).
  eapply Forall_impl; [exact Hc|]. intros p. now apply sub_field_grows.
Qed.

Lemma plain_effect_Fields (x : externals) c r r' es :
  plain_effect x c r = Some (r', es) -> Fields r' = Fields r.
Proof.
  intros Heff.
  destruct c; simpl in Heff; try discriminate;
    repeat match goal with
           | H : Some (if ?t then _ else _) = _ |- _ => destruct t
           end;
    now injection Heff as <- _.
Qed.

(** After a call that returned, the attached fields are still fields. *)
Lemma attached_after (x : externals) h e c h' (ps : list ptr) :
  exec x (Some e) c h = Ok (Some e) h' -> fields_at h ps -> fields_at h' ps.
Proof.
  intros Hrun. apply fields_at_grows. exact (grows_exec x e c h _ h' Hrun).
Qed.

Lemma AddFields_valid (x : externals) e lr : forall fs h b r,
  builder_at h e b lr r -> fields_at h (Fields r) ->
  Forall (sub_field h) fs ->
  exists h' b' r',
    forEach (fun f => AddField (fieldTemplate x) (Some e) f ;; ret tt) fs h
    = Ok tt h' /\
    builder_at h' e b' lr r' /\ fields_at h' (Fields r').
Proof.
  induction fs as [|p fs IH]; intros h b r Hb Hat Hfs.
  - now exists h, b, r.
  - apply Forall_cons in Hfs as [(fb & sb & lf & f & -> & Hfb & Hok & Hfrag & Hlf) Hfs].
    destruct (AddField_step (fieldTemplate x) h e b lr r fb sb lf f
                Hb Hfb Hok Hfrag Hlf) as (h1 & p1 & Hrun1 & Hb1 & _).
    assert (Hg : grows h h1) by exact (grows_exec x e (CAddField (Some fb)) h _ h1 Hrun1).
    assert (Hat1 : fields_at h1
              (Fields (if negb (Z.of_nat (List.length (Fields r)) <? 25) then r
                       else with_Fields (Fields r ++ [Some lf]) r))).
    { apply (fields_at_grows h h1 _ Hg).
      destruct (negb (Z.of_nat (List.length (Fields r)) <? 25)); [done|].
      simpl. apply Forall_app. split; [done|].
      apply List.Forall_cons; [eauto | apply List.Forall_nil]. }
    assert (Hfs1 : Forall (sub_field h1) fs).
    { eapply Forall_impl; [exact Hfs|]. intros q. now apply sub_field_grows. }
    destruct (IH h1 _ _ Hb1 Hat1 Hfs1) as (h' & b' & r' & Hrun & Hb' & Hat').
    exists h', b', r'. split; [|done].
    rewrite (forEach_cons_Ok _ _ _ _ h1); [done|].
    now rewrite (bind_Ok _ _ _ _ _ Hrun1).
Qed.

Lemma exec_valid (x : externals) h e b lr r c :
  builder_at h e b lr r -> fields_at h (Fields r) -> ptrs_ok h c ->
  exists h' b' r',
    exec x (Some e) c h = Ok (Some e) h' /\
    builder_at h' e b' lr r' /\ fields_at h' (Fields r').
Proof.
  intros Hb Hat Hc.
  assert (Hfin : forall h' b' r',
            exec x (Some e) c h = Ok (Some e) h' ->
            builder_at h' e b' lr r' -> fields_at h (Fields r') ->
            exists h' b' r',
              exec x (Some e) c h = Ok (Some e) h' /\
              builder_at h' e b' lr r' /\ fields_at h' (Fields r')).
  { intros h' b' r' Hrun Hb' Hat'. exists h', b', r'.
    split; [done|]. split; [done|]. now apply (attached_after x h e c h'). }
  assert (Hattach : forall p upd,
            (forall q r0, Fields (upd q r0) = Fields r0) ->
            sub_builder h p ->
            exec x (Some e) c h =
              (let* (res, errs) := Builder_Finalize p in
               addAllRawErrors (Some e) errs ;;
               (assign (Some e) (upd res) ;; ret (Some e))) h ->
            exists h' b' r',
              exec x (Some e) c h = Ok (Some e) h' /\
              builder_at h' e b' lr r' /\ fields_at h' (Fields r')).
  { intros p upd Hupd (fb & sb & -> & Hfb & Hok) Heq.
    destruct (attach_spec h e b lr r fb sb upd Hb Hfb Hok)
      as (h' & p' & Hrun & Hb' & _).
    rewrite <- Heq in Hrun. apply (Hfin h' _ _ Hrun Hb'). now rewrite Hupd. }
  destruct (plain_effect x c r) as [[r1 es1]|] eqn:Eeff.
  { destruct (plain_step x h e b lr r c r1 es1 Hb Eeff)
      as (h' & p' & Hrun & Hb' & _).
    apply (Hfin h' _ _ Hrun Hb').
    now rewrite (plain_effect_Fields x c r r1 es1 Eeff). }
  destruct c; simpl in Eeff; try discriminate; simpl in Hc.
  - destruct (forEach_setInline true (Fields r) h Hat) as (h' & Hrun & Hout & Hin).
    apply (Hfin h' b r); [|now apply (fields_loop_builder_at h h' (Fields r) true)|done].
    simpl. unfold InlineAllFields.
    rewrite (bind_Ok _ _ _ _ _ (promoted_eq _ _ _ _ _ Hb)).
    now rewrite (bind_Ok _ _ _ _ _ Hrun).
  - destruct (forEach_setInline false (Fields r) h Hat) as (h' & Hrun & Hout & Hin).
    apply (Hfin h' b r); [|now apply (fields_loop_builder_at h h' (Fields r) false)|done].
    simpl. unfold OutlineAllFields.
    rewrite (bind_Ok _ _ _ _ _ (promoted_eq _ _ _ _ _ Hb)).
    now rewrite (bind_Ok _ _ _ _ _ Hrun).
  - destruct (AddFields_valid x e lr fields h b r Hb Hat Hc)
      as (h' & b' & r' & Hrun & Hb' & Hat').
    exists h', b', r'. split; [|done]. simpl. unfold AddFields.
    now rewrite (bind_Ok _ _ _ _ _ Hrun).
  - destruct (AddRawFields_loop (fieldTemplate x) e lr fields h b r Hb)
      as (h' & p' & Hrun & Hb' & _); [now apply Forall_drop|].
    refine (Hfin h' _ _ _ Hb' _).
    + simpl. unfold AddRawFields. now rewrite (bind_Ok _ _ _ _ _ Hrun).
    + simpl. apply Forall_app. split; [done | now apply Forall_take].
  - destruct Hc as (fb & sb & lf & f & -> & Hfb & Hok & Hfrag & Hlf).
    destruct (AddField_step (fieldTemplate x) h e b lr r fb sb lf f
                Hb Hfb Hok Hfrag Hlf) as (h' & p' & Hrun & Hb' & _).
    apply (Hfin h' _ _ Hrun Hb').
    destruct (negb (Z.of_nat (List.length (Fields r)) <? 25)); [done|].
    simpl. apply Forall_app. split; [done|].
    apply List.Forall_cons; [eauto | apply List.Forall_nil].
  - destruct (AddRawField_step (fieldTemplate x) h e b lr r field Hb (fun _ => Hc))
      as (h' & p' & Hrun & Hb' & _).
    apply (Hfin h' _ _ Hrun Hb').
    destruct (negb (Z.of_nat (List.length (Fields r)) <? 25)); [done|].
    simpl. apply Forall_app. now split.
  - now apply (Hattach author with_Author).
  - now apply (Hattach thumb with_Thumbnail).
  - apply (Hattach provider with_Provider); try done.
    simpl. apply SetProvider_eq.
  - now apply (Hattach footer with_Footer).
  - now apply (Hattach vid with_Video).
  - now apply (Hattach img with_Image).
Qed.

(** A chain of setters never panics when the pointers it is handed are
    addresses of objects of their type in the store it starts from and the
    fields already attached are fields: it returns the handle it was called
    on, the builder is still in place around the same raw embed, every
    attached field is a field (so the chain can go on with [InlineAllFields]
    or any other setter), and all fields, sub-object builders and slices of
    the store are still there. *)
Theorem valid_chain_returns (x : externals) cs : forall h e b lr r,
  builder_at h e b lr r -> fields_at h (Fields r) ->
  Forall (ptrs_ok h) cs ->
  exists h' b' r',
    run x (Some e) cs h = Ok (Some e) h' /\
    builder_at h' e b' lr r' /\ fields_at h' (Fields r') /\ grows h h'.
Proof.
  induction cs as [|c cs IH]; intros h e b lr r Hb Hat Hcs.
  - exists h, b, r. split; [reflexivity|]. split; [done|]. split; [done|].
    apply grows_refl.
  - apply Forall_cons in Hcs as [Hc Hcs].
    destruct (exec_valid x h e b lr r c Hb Hat Hc)
      as (h1 & b1 & r1 & Hrun1 & Hb1 & Hat1).
    pose proof (grows_exec x e c h _ h1 Hrun1) as Hg1.
    assert (Hcs1 : Forall (ptrs_ok h1) cs).
    { eapply Forall_impl; [exact Hcs|]. intros c'. now apply ptrs_ok_grows. }
    destruct (IH h1 e b1 lr r1 Hb1 Hat1 Hcs1) as (h' & b' & r' & Hrun & Hb' & Hat' & Hg).
    exists h', b', r'. split; [|split; [done|split; [done|]]].
    + simpl. now rewrite (bind_Ok _ _ _ _ _ Hrun1).
    + assert (Hall : grows h h').
      { apply (grows_run x e (c :: cs) h (Some e) h'). simpl.
        now rewrite (bind_Ok _ _ _ _ _ Hrun1). }
      exact Hall.
Qed.

(** ** The further properties at concrete stores *)

Lemma SetDescription_limit_witness :
  len "hello" <= 2048 /\ len long_description > 2048 /\
  (exists h', SetDescription "description" (Some 2%positive) "hello" fresh_embed
              = Ok (Some 2%positive) h' /\
              rawOf h' 2%positive = Some (with_Description "hello" zeroEmbed) /\
              errorList h' 2%positive = []) /\
  (exists h', SetDescription "description" (Some 2%positive) long_description
                fresh_embed = Ok (Some 2%positive) h' /\
              rawOf h' 2%positive = Some zeroEmbed /\
              errorList h' 2%positive =
                [Errorf "description" [VString "embed description"; VInt 2048;
                                       VInt 2049]]).
Proof.
  assert (H1 : len "hello" <= 2048) by (vm_compute; discriminate).
  assert (H2 : len long_description > 2048) by (vm_compute; reflexivity).
  split; [exact H1|]. split; [exact H2|]. split.
  - destruct (proj1 (SetDescription_limit "description" _ _ _ _ _ "hello"
                       fresh_embed_builder) H1) as (h' & Hrun & Hraw & Herr).
    exists h'. auto.
  - destruct (proj2 (SetDescription_limit "description" _ _ _ _ _ long_description
                       fresh_embed_builder) H2) as (h' & Hrun & Hraw & Herr).
    exists h'. auto.
Defined.

Lemma SetURL_unchecked_witness :
  exists h', SetURL (Some 2%positive) long_description fresh_embed
             = Ok (Some 2%positive) h' /\
             rawOf h' 2%positive = Some (with_URL long_description zeroEmbed) /\
             errorList h' 2%positive = [].
Proof.
  destruct (SetURL_unchecked fresh_embed 2%positive _ _ _ long_description
              fresh_embed_builder) as (h' & Hrun & Hraw & _ & Herr).
  exists h'. auto.
Defined.

Lemma timestamps_are_UTC_witness :
  exists h', SetCustomTimestamp (Some 2%positive) (mkTime 1700000000 "Europe/Paris")
               fresh_embed = Ok (Some 2%positive) h' /\
             rawOf h' 2%positive
             = Some (with_Timestamp (mkTime 1700000000 "UTC") zeroEmbed).
Proof.
  destruct (timestamps_are_UTC fresh_embed 2%positive _ _ _
              (mkTime 1700000000 "Europe/Paris") fresh_embed_builder)
    as (h' & Hrun & _ & Hraw & _).
  exists h'. auto.
Defined.

Lemma addAllRawErrors_appends_witness :
  okErrors failed_once (Some 3%positive) /\
  exists h',
    addAllRawErrors (Some 2%positive) (Some 3%positive) failed_once = Ok tt h' /\
    List.length (errorList failed_once 2%positive) = 1%nat /\
    List.length (errorList h' 2%positive) = 2%nat.
Proof.
  assert (Hok : okErrors failed_once (Some 3%positive)) by (eexists; reflexivity).
  split; [exact Hok|].
  destruct (addAllRawErrors_appends failed_once 2%positive
              (mkEmbed (Some 1%positive) (Some 3%positive)) (Some 3%positive)
              eq_refl Hok Hok) as (h' & Hrun & _ & _ & Hself & _).
  exists h'. split; [exact Hrun|]. split; [reflexivity|].
  rewrite (Hself eq_refl). reflexivity.
Defined.

Lemma AddRawFields_limit_witness :
  let ps := repeat (Some 3%positive) 23 ++ [Some 4%positive; Some 3%positive] in
  fields_at two_fields [Some 4%positive; Some 3%positive] /\
  exists h' r',
    AddRawFields "field" (Some 2%positive) ps two_fields
    = Ok (Some 2%positive) h' /\
    rawOf h' 2%positive = Some r' /\
    Fields r' = [Some 3%positive; Some 4%positive] ++ repeat (Some 3%positive) 23 /\
    errorList h' 2%positive =
      [Errorf "field" [VString "b"; VInt 25];
       Errorf "field" [VString "a"; VInt 25]].
Proof.
  intros ps.
  assert (Hdrop : fields_at two_fields [Some 4%positive; Some 3%positive]).
  { repeat (apply List.Forall_cons; [do 2 eexists; split; reflexivity|]).
    apply List.Forall_nil. }
  split; [exact Hdrop|].
  destruct (AddRawFields_limit "field" two_fields 2%positive _ _ _ ps
              two_fields_builder Hdrop)
    as (h' & r' & Hrun & Hraw & Hr' & Herr & _).
  exists h', r'. split; [exact Hrun|]. split; [exact Hraw|]. split.
  - rewrite Hr'. reflexivity.
  - rewrite Herr. reflexivity.
Defined.

Lemma field_loops_write_through_witness :
  exists h',
    InlineAllFields (Some 2%positive) two_fields = Ok (Some 2%positive) h' /\
    h' !! 3%positive = Some (OField (mkField "a" "1" true)) /\
    h' !! 4%positive = Some (OField (mkField "b" "2" true)) /\
    h' !! 1%positive = two_fields !! 1%positive.
Proof.
  destruct (field_loops_write_through two_fields 2%positive _ _ _
              two_fields_builder two_fields_at true)
    as (h' & Hrun & Hin & Hout & _).
  exists h'. split; [exact Hrun|]. split; [|split].
  - destruct (Hin 3%positive) as (f & Hf & Hf').
    + apply list_elem_of_here.
    + vm_compute in Hf. injection Hf as <-. exact Hf'.
  - destruct (Hin 4%positive) as (f & Hf & Hf').
    + apply list_elem_of_further, list_elem_of_here.
    + vm_compute in Hf. injection Hf as <-. exact Hf'.
  - apply Hout. intros Hmem.
    apply elem_of_cons in Hmem as [[=] | Hmem].
    apply elem_of_cons in Hmem as [[=] | Hmem].
    now apply elem_of_nil in Hmem.
Defined.

Lemma nil_field_breaks_the_loops_witness :
  Z.of_nat (List.length (Fields zeroEmbed)) < 25 /\
  exists h',
    AddRawField "field" (Some 2%positive) None fresh_embed
      = Ok (Some 2%positive) h' /\
    rawOf h' 2%positive = Some (with_Fields [None] zeroEmbed) /\
    InlineAllFields (Some 2%positive) h' = Panic /\
    OutlineAllFields (Some 2%positive) h' = Panic.
Proof.
  assert (Hlt : Z.of_nat (List.length (Fields zeroEmbed)) < 25) by (vm_compute; reflexivity).
  split; [exact Hlt|].
  destruct (nil_field_breaks_the_loops "field" fresh_embed 2%positive _ _ _
              fresh_embed_builder Hlt) as (h' & Hrun & Hraw & _ & Hin & Hout).
  exists h'. auto.
Defined.

Lemma busy_builder :
  builder_at busy 2%positive (mkEmbed (Some 1%positive) None) 1%positive
    (with_Fields [Some 3%positive; Some 4%positive] zeroEmbed).
Proof. split; vm_compute; done. Qed.

Lemma AddField_twice_witness :
  busy !! 5%positive
    = Some (OBuilder (mkBuilder (Some 6%positive) (Some 7%positive))) /\
  exists h2 r2,
    run demo (Some 2%positive)
      [CAddField (Some 5%positive); CAddField (Some 5%positive)] busy
    = Ok (Some 2%positive) h2 /\
    rawOf h2 2%positive = Some r2 /\
    Fields r2 = [Some 3%positive; Some 4%positive; Some 6%positive; Some 6%positive] /\
    errorList h2 2%positive = [Errorf "field value" [VInt 1025]].
Proof.
  assert (Hfb : busy !! 5%positive
                = Some (OBuilder (mkBuilder (Some 6%positive) (Some 7%positive))))
    by reflexivity.
  assert (Hlf : busy !! 6%positive = Some (OField (mkField "c" "3" false)))
    by reflexivity.
  assert (Hok : okErrors busy (Some 7%positive)) by (eexists; reflexivity).
  assert (Hroom : Z.of_nat (List.length [Some 3%positive; Some 4%positive]) + 2 <= 25)
    by (vm_compute; discriminate).
  split; [exact Hfb|].
  destruct (AddField_twice demo busy 2%positive _ _ _ 5%positive _ 6%positive _
              busy_builder Hfb Hok eq_refl Hlf Hroom)
    as (h2 & r2 & Hrun & Hraw & Hfs & Herr & _).
  exists h2, r2. split; [exact Hrun|]. split; [exact Hraw|]. split.
  - rewrite Hfs. reflexivity.
  - rewrite Herr. reflexivity.
Defined.

Lemma failed_once_builder :
  builder_at failed_once 2%positive (mkEmbed (Some 1%positive) (Some 3%positive))
    1%positive zeroEmbed.
Proof. split; try (vm_compute; done). eexists; reflexivity. Qed.

Lemma Finalize_does_not_detach_witness :
  len "late" <= 256 /\ len long_title > 256 /\
  exists p h1 h2 h3 q h4,
    Finalize (Some 2%positive) failed_once = Ok (Some 1%positive, p) h1 /\
    SetTitle "title" (Some 2%positive) "late" h1 = Ok (Some 2%positive) h2 /\
    h2 !! 1%positive = Some (ORaw (with_Title "late" zeroEmbed)) /\
    SetTitle "title" (Some 2%positive) long_title h2 = Ok (Some 2%positive) h3 /\
    Finalize (Some 2%positive) h3 = Ok (Some 1%positive, q) h4 /\
    List.length (slice h4 q) = 1%nat /\
    slice h4 p = errorList failed_once 2%positive /\ p <> q.
Proof.
  assert (H1 : len "late" <= 256) by (vm_compute; discriminate).
  assert (H2 : len long_title > 256) by (vm_compute; reflexivity).
  split; [exact H1|]. split; [exact H2|].
  destruct (Finalize_does_not_detach "title" failed_once 2%positive _ _ _
              "late" long_title failed_once_builder H1 H2)
    as (p & h1 & h2 & h3 & q & h4 & F1 & _ & S1 & Hraw & S2 & F2 & Hq & Hp & Hne).
  exists p, h1, h2, h3, q, h4. repeat split; try done.
  now rewrite Hq.
Defined.

Lemma finalized_errors_are_kept_witness :
  okErrors failed_once (Some 3%positive) /\
  (let* _ := Finalize (Some 2%positive) in
   run demo (Some 2%positive) [CSetColor (-2); CSetTitle "t"]) failed_once
  = Ok (Some 2%positive) reused /\
  slice reused (Some 3%positive) = errorList failed_once 2%positive /\
  List.length (errorList reused 2%positive) = 1%nat /\
  exists b2, reused !! 2%positive = Some (OEmbed b2) /\
             Errors b2 <> Some 3%positive.
Proof.
  assert (Hok : okErrors failed_once (Some 3%positive)) by (eexists; reflexivity).
  assert (Hrun : (let* _ := Finalize (Some 2%positive) in
                  run demo (Some 2%positive) [CSetColor (-2); CSetTitle "t"])
                   failed_once = Ok (Some 2%positive) reused)
    by (vm_compute; reflexivity).
  split; [exact Hok|]. split; [exact Hrun|].
  destruct (finalized_errors_are_kept demo failed_once 2%positive
              (mkEmbed (Some 1%positive) (Some 3%positive))
              [CSetColor (-2); CSetTitle "t"] (Some 2%positive) reused
              eq_refl Hok Hrun)
    as (h1 & _ & _ & _ & _ & Hkept & b2 & Hb2 & Hne).
  split; [exact Hkept|]. split; [reflexivity|].
  exists b2. split; [exact Hb2|]. apply Hne. discriminate.
Defined.

Lemma two_builders_first :
  builder_at two_builders 2%positive (mkEmbed (Some 1%positive) None)
    1%positive zeroEmbed.
Proof. split; vm_compute; done. Qed.

Lemma two_builders_second :
  builder_at two_builders 4%positive (mkEmbed (Some 3%positive) None)
    3%positive zeroEmbed.
Proof. split; vm_compute; done. Qed.

Lemma builders_do_not_interfere_witness :
  let h' := final (let* e := NewEmbed in
                   let* _ := NewEmbed in
                   run demo e [CSetTitle "a"; CSetColor (-1)]) in
  run demo (Some 2%positive) [CSetTitle "a"; CSetColor (-1)] two_builders
  = Ok (Some 2%positive) h' /\
  rawOf h' 2%positive = Some (with_Title "a" zeroEmbed) /\
  List.length (errorList h' 2%positive) = 1%nat /\
  h' !! 4%positive = Some (OEmbed (mkEmbed (Some 3%positive) None)) /\
  rawOf h' 4%positive = Some zeroEmbed /\
  errorList h' 4%positive = [].
Proof.
  intros h'.
  assert (Hrun : run demo (Some 2%positive) [CSetTitle "a"; CSetColor (-1)]
                   two_builders = Ok (Some 2%positive) h')
    by (vm_compute; reflexivity).
  assert (Hlr : 1%positive <> 3%positive) by discriminate.
  assert (Hsh : forall a, Errors (mkEmbed (Some 1%positive) None) = Some a ->
                          Errors (mkEmbed (Some 3%positive) None) <> Some a)
    by discriminate.
  split; [exact Hrun|]. split; [reflexivity|]. split; [reflexivity|].
  destruct (builders_do_not_interfere demo two_builders 2%positive _ _ _
              4%positive _ _ _ _ _ h' two_builders_first two_builders_second
              Hlr Hsh Hrun) as (_ & He2 & Hraw2 & Herr2).
  split; [exact He2|]. split; [exact Hraw2|]. rewrite Herr2. reflexivity.
Defined.

Lemma plain_chain_composes_witness :
  exists r' es h',
    plain_chain demo plain_calls zeroEmbed = Some (r', es) /\
    run demo (Some 2%positive) plain_calls fresh_embed = Ok (Some 2%positive) h' /\
    rawOf h' 2%positive = Some r' /\
    Title r' = "b" /\ Color r' = 0 /\ URL r' = "u" /\
    errorList h' 2%positive = es /\
    map format es = ["title"; "color"].
Proof.
  destruct (plain_chain demo plain_calls zeroEmbed) as [[r' es]|] eqn:Ech;
    [|vm_compute in Ech; discriminate].
  destruct (plain_chain_composes demo plain_calls fresh_embed 2%positive _ _ _
              r' es fresh_embed_builder Ech)
    as (h' & Hrun & Hraw & Herr & _).
  vm_compute in Ech. injection Ech as <- <-.
  do 2 eexists. exists h'. split; [reflexivity|]. split; [exact Hrun|].
  split; [exact Hraw|]. repeat split. exact Herr.
Defined.

Lemma busy_ptrs_ok : Forall (ptrs_ok busy) busy_chain.
Proof.
  assert (H5 : sub_field busy (Some 5%positive)).
  { exists 5%positive, (mkBuilder (Some 6%positive) (Some 7%positive)),
      6%positive, (mkField "c" "3" false).
    repeat split; try reflexivity. eexists; reflexivity. }
  assert (H8 : sub_builder busy (Some 8%positive)).
  { exists 8%positive, (mkBuilder (Some 9%positive) None).
    repeat split; reflexivity. }
  assert (H3 : fields_at busy [Some 3%positive]).
  { apply List.Forall_cons; [do 2 eexists; split; reflexivity|].
    apply List.Forall_nil. }
  unfold busy_chain.
  repeat (apply List.Forall_cons; [first [exact H5 | exact H8 | exact H3 | exact I]|]).
  apply List.Forall_nil.
Qed.

Lemma busy_fields : fields_at busy [Some 3%positive; Some 4%positive].
Proof.
  repeat (apply List.Forall_cons; [do 2 eexists; split; reflexivity|]).
  apply List.Forall_nil.
Qed.

Lemma valid_chain_returns_witness :
  exists h' b' r',
    run demo (Some 2%positive) busy_chain busy = Ok (Some 2%positive) h' /\
    builder_at h' 2%positive b' 1%positive r' /\
    fields_at h' (Fields r').
Proof.
  destruct (valid_chain_returns demo busy_chain busy 2%positive _ _ _
              busy_builder busy_fields busy_ptrs_ok)
    as (h' & b' & r' & Hrun & Hb' & Hat' & _).
  exists h', b', r'. auto.
Defined.

(** * The error list and the validations of a chain *)

Lemma bind_assoc {A B C} (m : M A) (k : A -> M B) (k' : B -> M C) h :
  bind (bind m k) k' h = bind m (fun a => bind (k a) k') h.
Proof. unfold bind. now destruct (m h). Qed.

Lemma bind_ext_Ok {A B} (m : M A) (k1 k2 : A -> M B) h :
  (forall a h1, m h = Ok a h1 -> k1 a h1 = k2 a h1) ->
  bind m k1 h = bind m k2 h.
Proof. intros H. unfold bind. destruct (m h); [now apply H | reflexivity]. Qed.

(** The two variadic setters are the chains of their single calls. *)
Lemma AddFields_chain (x : externals) e rest : forall fs h,
  bind (forEach (fun f => AddField (fieldTemplate x) e f ;; ret tt) fs)
       (fun _ => run x e rest) h
  = run x e (map CAddField fs ++ rest) h.
Proof.
  induction fs as [|f fs IH]; intros h; [reflexivity|].
  simpl. rewrite !bind_assoc. apply bind_ext_Ok. intros a h1 Ha.
  rewrite (AddField_returns _ _ _ _ _ _ Ha). apply IH.
Qed.

Lemma AddRawFields_chain (x : externals) e rest : forall fs h,
  bind (forEach (fun f => AddRawField (fieldTemplate x) e f ;; ret tt) fs)
       (fun _ => run x e rest) h
  = run x e (map CAddRawField fs ++ rest) h.
Proof.
  induction fs as [|f fs IH]; intros h; [reflexivity|].
  simpl. rewrite !bind_assoc. apply bind_ext_Ok. intros a h1 Ha.
  rewrite (AddRawField_returns _ _ _ _ _ _ Ha). apply IH.
Qed.

Lemma run_expand (x : externals) : forall cs e h,
  run x e cs h = run x e (flat_map expand cs) h.
Proof.
  induction cs as [|c cs IH]; intros e h; [reflexivity|].
  assert (Hplain : expand c = [c] ->
            run x e (c :: cs) h = run x e (flat_map expand (c :: cs)) h).
  { intros Hc. simpl. rewrite Hc. simpl. apply bind_ext_Ok. intros a h1 _.
    apply IH. }
  destruct c; try (now apply Hplain).
  - simpl. unfold AddFields. rewrite bind_assoc.
    rewrite <- AddFields_chain. apply bind_ext_Ok. intros u h1 _.
    unfold bind, ret. apply IH.
  - simpl. unfold AddRawFields. rewrite bind_assoc.
    rewrite <- AddRawFields_chain. apply bind_ext_Ok. intros u h1 _.
    unfold bind, ret. apply IH.
Qed.

Lemma single_expand cs : Forall single (flat_map expand cs).
Proof.
  induction cs as [|c cs IH]; simpl; [apply List.Forall_nil|].
  apply Forall_app. split; [|exact IH].
  destruct c; simpl;
    try (apply List.Forall_cons; [exact I | apply List.Forall_nil]);
    apply Forall_forall; intros c Hc; apply list_elem_of_fmap in Hc as (p & -> & _);
    exact I.
Qed.

Lemma ptrs_ok_expand h cs :
  Forall (ptrs_ok h) cs -> Forall (ptrs_ok h) (flat_map expand cs).
Proof.
  induction 1 as [|c cs Hc _ IH]; simpl; [apply List.Forall_nil|].
  apply Forall_app. split; [|exact IH].
  destruct c; simpl in *;
    try (apply List.Forall_cons; [exact Hc | apply List.Forall_nil]).
  - apply Forall_forall. intros c Hin.
    apply list_elem_of_fmap in Hin as (p & -> & Hp). simpl.
    exact (proj1 (Forall_forall _ _) Hc p Hp).
  - apply Forall_forall. intros c Hin.
    apply list_elem_of_fmap in Hin as (p & -> & Hp). simpl.
    apply List.Forall_cons; [|apply List.Forall_nil].
    exact (proj1 (Forall_forall _ _) Hc p Hp).
Qed.

(** The loops over the attached fields record nothing. *)
Lemma fields_loop_errorList (h h' : heap) (ps : list ptr) (v : bool) e b :
  (forall l, Some l ∉ ps -> h' !! l = h !! l) ->
  (forall l, Some l ∈ ps ->
     exists f, h !! l = Some (OField f) /\
               h' !! l = Some (OField (with_Inline v f))) ->
  h !! e = Some (OEmbed b) -> okErrors h (Errors b) ->
  errorList h' e = errorList h e.
Proof.
  intros Hout Hin He Hok.
  assert (He' : h' !! e = Some (OEmbed b))
    by (now apply (fields_loop_frame h h' ps v)).
  unfold errorList. rewrite He, He'.
  destruct (Errors b) as [a|]; simpl in *; [|done].
  destruct Hok as [es Ha].
  now rewrite (fields_loop_frame h h' ps v a _ Hout Hin Ha), Ha.
Qed.

(** What one call adds to the error list is what its validation yields. *)
Lemma exec_errors (x : externals) h e b lr r c :
  builder_at h e b lr r -> fields_at h (Fields r) -> ptrs_ok h c ->
  single c ->
  exists h',
    exec x (Some e) c h = Ok (Some e) h' /\
    errorList h' e = errorList h e ++ verdict x h e c.
Proof.
  intros Hb Hat Hc Hs. unfold verdict. rewrite (rawOf_eq _ _ _ _ _ Hb).
  cbv zeta.
  assert (Hplain : forall r1 es1,
            plain_effect x c r = Some (r1, es1) ->
            exists h', exec x (Some e) c h = Ok (Some e) h' /\
                       errorList h' e = errorList h e ++ es1).
  { intros r1 es1 Heff.
    destruct (plain_step x h e b lr r c r1 es1 Hb Heff) as (h' & p' & Hrun & _ & Herr & _).
    now exists h'. }
  assert (Hattach : forall fb upd,
            sub_builder h (Some fb) ->
            exists h',
              (let* (res, errs) := Builder_Finalize (Some fb) in
               addAllRawErrors (Some e) errs ;;
               (assign (Some e) (upd res) ;; ret (Some e))) h = Ok (Some e) h' /\
              errorList h' e = errorList h e ++ pending h fb).
  { intros fb upd (fb' & sb & [= <-] & Hfb & Hok).
    destruct (attach_spec h e b lr r fb sb upd Hb Hfb Hok) as (h' & p' & Hrun & _ & Herr).
    exists h'. split; [done|]. unfold pending. now rewrite Hfb. }
  assert (Hloop : forall v,
            exists h',
              (let* (_, r0) := promoted (Some e) in
               forEach (setInline v) (Fields r0) ;; ret (Some e)) h = Ok (Some e) h' /\
              errorList h' e = errorList h e ++ []).
  { intros v.
    destruct (forEach_setInline v (Fields r) h Hat) as (h' & Hrun & Hout & Hin).
    exists h'. split.
    - rewrite (bind_Ok _ _ _ _ _ (promoted_eq _ _ _ _ _ Hb)).
      now rewrite (bind_Ok _ _ _ _ _ Hrun).
    - rewrite app_nil_r.
      apply (fields_loop_errorList h h' (Fields r) v e b Hout Hin); apply Hb. }
  destruct c; simpl in Hs, Hc; try contradiction;
    try (match goal with
         | |- context [plain_effect x ?c r] =>
             destruct (plain_effect x c r) as [[r1 es1]|] eqn:Eeff;
             [exact (Hplain r1 es1 eq_refl) | simpl in Eeff; discriminate]
         end).
  - exact (Hloop true).
  - exact (Hloop false).
  - destruct Hc as (fb & sb & lf & f & -> & Hfb & Hok & Hfrag & Hlf).
    destruct (AddField_step (fieldTemplate x) h e b lr r fb sb lf f
                Hb Hfb Hok Hfrag Hlf) as (h' & p' & Hrun & _ & Herr & _).
    exists h'. split; [exact Hrun|]. rewrite Herr. simpl.
    unfold pending, fragmentOf. rewrite Hfb, Hfrag. simpl. rewrite Hlf.
    unfold maxFieldCount.
    now destruct (negb (Z.of_nat (List.length (Fields r)) <? 25)).
  - destruct (AddRawField_step (fieldTemplate x) h e b lr r field Hb (fun _ => Hc))
      as (h' & p' & Hrun & _ & Herr & _).
    exists h'. split; [exact Hrun|]. rewrite Herr. unfold maxFieldCount.
    now destruct (negb (Z.of_nat (List.length (Fields r)) <? 25)).
  - destruct Hc as (fb & sb & -> & Hc). apply (Hattach fb with_Author).
    now exists fb, sb.
  - destruct Hc as (fb & sb & -> & Hc). apply (Hattach fb with_Thumbnail).
    now exists fb, sb.
  - destruct Hc as (fb & sb & -> & Hc). simpl. rewrite SetProvider_eq.
    apply (Hattach fb with_Provider). now exists fb, sb.
  - destruct Hc as (fb & sb & -> & Hc). apply (Hattach fb with_Footer).
    now exists fb, sb.
  - destruct Hc as (fb & sb & -> & Hc). apply (Hattach fb with_Video).
    now exists fb, sb.
  - destruct Hc as (fb & sb & -> & Hc). apply (Hattach fb with_Image).
    now exists fb, sb.
Qed.

Lemma chain_errors (x : externals) e lr : forall cs h b r,
  builder_at h e b lr r -> fields_at h (Fields r) ->
  Forall (ptrs_ok h) cs -> Forall single cs ->
  exists h' b' r',
    run x (Some e) cs h = Ok (Some e) h' /\
    builder_at h' e b' lr r' /\ fields_at h' (Fields r') /\
    errorList h' e = errorList h e ++ List.concat (verdicts x e cs h) /\
    List.length (verdicts x e cs h) = List.length cs.
Proof.
  induction cs as [|c cs IH]; intros h b r Hb Hat Hcs Hss.
  - exists h, b, r. split; [reflexivity|]. split; [done|]. split; [done|].
    simpl. now rewrite app_nil_r.
  - apply Forall_cons in Hcs as [Hc Hcs]. apply Forall_cons in Hss as [Hs Hss].
    destruct (exec_errors x h e b lr r c Hb Hat Hc Hs) as (h1 & Hrun1 & Herr1).
    destruct (exec_valid x h e b lr r c Hb Hat Hc)
      as (h1' & b1 & r1 & Hrun1' & Hb1 & Hat1).
    rewrite Hrun1 in Hrun1'. injection Hrun1' as <-.
    pose proof (grows_exec x e c h _ h1 Hrun1) as Hg1.
    assert (Hcs1 : Forall (ptrs_ok h1) cs).
    { eapply Forall_impl; [exact Hcs|]. intros c'. now apply ptrs_ok_grows. }
    destruct (IH h1 b1 r1 Hb1 Hat1 Hcs1 Hss)
      as (h' & b' & r' & Hrun & Hb' & Hat' & Herr & Hlen).
    exists h', b', r'. split; [|split; [done|split; [done|split]]].
    + simpl. now rewrite (bind_Ok _ _ _ _ _ Hrun1).
    + simpl. rewrite Hrun1. simpl. rewrite Herr, Herr1. now rewrite app_assoc.
    + simpl. rewrite Hrun1. simpl. now rewrite Hlen.
Qed.

Lemma plain_chain_errors (x : externals) cs : forall h e b lr r r' es,
  builder_at h e b lr r -> plain_chain x cs r = Some (r', es) ->
  exists h' b',
    run x (Some e) cs h = Ok (Some e) h' /\
    builder_at h' e b' lr r' /\
    errorList h' e = errorList h e ++ es.
Proof.
  induction cs as [|c cs IH]; intros h e b lr r r' es Hb Hch; simpl in Hch.
  - injection Hch as <- <-. exists h, b. split; [reflexivity|].
    split; [done | now rewrite app_nil_r].
  - destruct (plain_effect x c r) as [[r1 es1]|] eqn:Eeff; [|discriminate].
    destruct (plain_chain x cs r1) as [[r2 es2]|] eqn:Ech; [|discriminate].
    injection Hch as <- <-.
    destruct (plain_step x h e b lr r c r1 es1 Hb Eeff)
      as (h1 & p1 & Hrun1 & Hb1 & Herr1 & _).
    destruct (IH h1 e _ lr r1 r2 es2 Hb1 Ech) as (h' & b' & Hrun & Hb' & Herr).
    exists h', b'. split; [|split; [done|]].
    + simpl. now rewrite (bind_Ok _ _ _ _ _ Hrun1).
    + rewrite Herr, Herr1. now rewrite app_assoc.
Qed.

Lemma concat_nil_Forall {A} (l : list (list A)) :
  List.concat l = [] <-> Forall (fun v => v = []) l.
Proof.
  induction l as [|v l IH]; simpl.
  - split; [intros _; apply List.Forall_nil | done].
  - split.
    + intros H. apply app_eq_nil in H as [-> H].
      apply List.Forall_cons; [done | now apply IH].
    + intros H. apply Forall_cons in H as [-> H]. now apply IH.
Qed.

(** The builder that [NewEmbed] makes, through two chains that return. *)
Lemma lazily_from_NewEmbed (x : externals) h pe h0 cs1 pe1 h1 cs2 pe2 h2 :
  NewEmbed h = Ok pe h0 ->
  run x pe cs1 h0 = Ok pe1 h1 ->
  run x pe1 cs2 h1 = Ok pe2 h2 ->
  exists e lr b1 b2,
    pe = Some e /\ pe1 = pe /\ pe2 = pe /\
    builder_at h0 e (mkEmbed (Some lr) None) lr zeroEmbed /\
    h1 !! e = Some (OEmbed b1) /\ h2 !! e = Some (OEmbed b2) /\
    lazily [] e h1 /\ lazily (errorList h1 e) e h2 /\
    (Errors b1 = None <-> errorList h1 e = []) /\
    (Errors b2 = None <-> errorList h2 e = []) /\
    (exists k, errorList h2 e = errorList h1 e ++ k).
Proof.
  intros Hnew Hrun1 Hrun2.
  destruct (NewEmbed_spec h) as (Hnew' & Hb0 & _). simpl in Hnew', Hb0.
  rewrite Hnew' in Hnew. injection Hnew as <- <-.
  set (lr := fresh (dom h)) in *.
  set (e := fresh (dom (<[lr := ORaw zeroEmbed]> h))) in *.
  set (h0 := <[e := OEmbed (mkEmbed (Some lr) None)]> (<[lr := ORaw zeroEmbed]> h)) in *.
  assert (HP0 : lazily [] e h0).
  { exists (mkEmbed (Some lr) None). split; [apply Hb0|]. split; [|now left].
    now exists []. }
  pose proof (keeps_run [] e x cs1 h0 HP0) as H1. unfold wlp in H1.
  rewrite Hrun1 in H1. destruct H1 as [-> HP1].
  pose proof HP1 as (b1 & He1 & _ & Hl1).
  assert (HP1' : lazily (errorList h1 e) e h1).
  { exists b1. split; [done|]. split; [|done].
    exists []. rewrite app_nil_r. symmetry. now apply errorList_eq. }
  pose proof (keeps_run _ e x cs2 h1 HP1') as H2. unfold wlp in H2.
  rewrite Hrun2 in H2. destruct H2 as [-> HP2].
  pose proof HP2 as (b2 & He2 & [k Hk] & Hl2).
  exists e, lr, b1, b2.
  split; [done|]. split; [done|]. split; [done|]. split; [exact Hb0|].
  split; [done|]. split; [done|]. split; [done|]. split; [done|].
  split; [now apply (lazily_nil_iff [] e h1 b1 HP1 He1)|].
  split; [now apply (lazily_nil_iff _ e h2 b2 HP2 He2)|].
  exists k. now rewrite (errorList_eq _ _ _ He2).
Qed.

Lemma errorList_NewEmbed h e lr :
  builder_at h e (mkEmbed (Some lr) None) lr zeroEmbed -> errorList h e = [].
Proof. intros Hb. now rewrite (errorList_eq _ _ _ (at_embed _ _ _ _ _ Hb)). Qed.

(** C9.  A builder made by [NewEmbed] has a nil [Errors] pointer.  After any
    chain of setter calls that returns, and again after any further chain
    that returns, the handle is still the one [NewEmbed] gave, and the
    builder's [Errors] pointer is nil or the address of a slice holding at
    least one error -- never an allocated, empty list -- so it is nil exactly
    when no error has been recorded; and the later list extends the earlier
    one, errors only being appended.

    What is recorded is what the validations of the calls failed on.  When
    the arguments of the calls are fields and sub-object builders of the
    store, the error list after a chain is, in order, the failures of its
    calls ([verdicts]: the limit checks of the call, and for a sub-object
    builder the errors it holds), each call judged in the state it runs in
    and a variadic call as its single calls; so [Errors] is nil exactly when
    every call so far passed all its validations, and the first call that
    fails one makes it non-nil.  For a chain of setters that take no pointer
    the failures are those of the pure model [plain_chain], started from the
    zero embed: [Errors] is nil exactly when [plain_chain] yields no error. *)
Theorem errors_nil_until_first_failure (x : externals) h pe h0
    cs1 pe1 h1 cs2 pe2 h2 :
  NewEmbed h = Ok pe h0 ->
  run x pe cs1 h0 = Ok pe1 h1 ->
  run x pe1 cs2 h1 = Ok pe2 h2 ->
  exists e b0 b1 b2,
    pe = Some e /\ pe1 = pe /\ pe2 = pe /\
    h0 !! e = Some (OEmbed b0) /\ Errors b0 = None /\
    h1 !! e = Some (OEmbed b1) /\ h2 !! e = Some (OEmbed b2) /\
    lazily [] e h1 /\ lazily (errorList h1 e) e h2 /\
    (Errors b1 = None <-> errorList h1 e = []) /\
    (Errors b2 = None <-> errorList h2 e = []) /\
    (exists k, errorList h2 e = errorList h1 e ++ k) /\
    (Forall (ptrs_ok h0) (cs1 ++ cs2) ->
       let v1 := verdicts x e (flat_map expand cs1) h0 in
       let v2 := verdicts x e (flat_map expand cs2) h1 in
       List.length v1 = List.length (flat_map expand cs1) /\
       List.length v2 = List.length (flat_map expand cs2) /\
       errorList h1 e = List.concat v1 /\
       errorList h2 e = List.concat v1 ++ List.concat v2 /\
       (Errors b1 = None <-> Forall (fun v => v = []) v1) /\
       (Errors b2 = None <->
          Forall (fun v => v = []) v1 /\ Forall (fun v => v = []) v2)) /\
    (forall r1 es1, plain_chain x cs1 zeroEmbed = Some (r1, es1) ->
       errorList h1 e = es1 /\
       (Errors b1 = None <-> es1 = []) /\
       forall r2 es2, plain_chain x cs2 r1 = Some (r2, es2) ->
         errorList h2 e = es1 ++ es2 /\
         (Errors b2 = None <-> es1 = [] /\ es2 = [])).
Proof.
  intros Hnew Hrun1 Hrun2.
  destruct (lazily_from_NewEmbed x h pe h0 cs1 pe1 h1 cs2 pe2 h2 Hnew Hrun1 Hrun2)
    as (e & lr & b1 & b2 & -> & -> & -> & Hb0 & He1 & He2 & HP1 & HP2
        & Hn1 & Hn2 & Hk).
  pose proof (errorList_NewEmbed h0 e lr Hb0) as Hnil.
  exists e, (mkEmbed (Some lr) None), b1, b2.
  split; [done|]. split; [done|]. split; [done|].
  split; [exact (at_embed _ _ _ _ _ Hb0)|]. split; [done|].
  split; [done|]. split; [done|]. split; [done|]. split; [done|].
  split; [done|]. split; [done|]. split; [done|]. split.
  - intros Hcs v1 v2. apply Forall_app in Hcs as [Hcs1 Hcs2].
    assert (Hcs2' : Forall (ptrs_ok h1) cs2).
    { eapply Forall_impl; [exact Hcs2|]. intros c.
      apply ptrs_ok_grows. exact (grows_run x e cs1 h0 _ h1 Hrun1). }
    rewrite run_expand in Hrun1. rewrite run_expand in Hrun2.
    destruct (chain_errors x e lr (flat_map expand cs1) h0 _ _ Hb0
                (List.Forall_nil _) (ptrs_ok_expand h0 cs1 Hcs1) (single_expand cs1))
      as (h1' & b1' & r1 & Hr1 & Hb1 & Hat1 & Herr1 & Hlen1).
    rewrite Hr1 in Hrun1. injection Hrun1 as ->.
    destruct (chain_errors x e lr (flat_map expand cs2) h1 _ _ Hb1
                Hat1 (ptrs_ok_expand h1 cs2 Hcs2') (single_expand cs2))
      as (h2' & b2' & r2 & Hr2 & Hb2 & Hat2 & Herr2 & Hlen2).
    rewrite Hr2 in Hrun2. injection Hrun2 as ->.
    rewrite Hnil in Herr1. simpl in Herr1. fold v1 in Herr1. fold v2 in Herr2.
    rewrite Herr1 in Herr2.
    split; [exact Hlen1|]. split; [exact Hlen2|].
    split; [done|]. split; [done|]. split.
    + rewrite Hn1, Herr1. apply concat_nil_Forall.
    + rewrite Hn2, Herr2. rewrite <- !concat_nil_Forall. split.
      * intros H. now apply app_eq_nil in H.
      * intros [-> ->]. reflexivity.
  - intros r1 es1 Hch1.
    destruct (plain_chain_errors x cs1 h0 e _ lr _ r1 es1 Hb0 Hch1)
      as (h1' & b1' & Hr1 & Hb1 & Herr1).
    rewrite Hr1 in Hrun1. injection Hrun1 as ->.
    rewrite Hnil in Herr1. simpl in Herr1.
    split; [done|]. split; [now rewrite Hn1, Herr1|].
    intros r2 es2 Hch2.
    destruct (plain_chain_errors x cs2 h1 e _ lr _ r2 es2 Hb1 Hch2)
      as (h2' & b2' & Hr2 & Hb2 & Herr2).
    rewrite Hr2 in Hrun2. injection Hrun2 as ->.
    rewrite Herr1 in Herr2.
    split; [done|]. rewrite Hn2, Herr2. split.
    + intros H. now apply app_eq_nil in H.
    + intros [-> ->]. reflexivity.
Qed.

Lemma errors_nil_until_first_failure_witness :
  let cs1 := [CSetTitle "ok"; CSetURL "u"] in
  let cs2 := [CSetColor (-1); CSetType "bogus"] in
  let cs3 := [CSetColor (-1); CSetFooter (Some 3%positive); CSetType "bogus"] in
  let e := Some 2%positive in
  let h1 := after fresh_embed (run demo e cs1) in
  let h2 := after h1 (run demo e cs2) in
  let r1 := with_URL "u" (with_Title "ok" zeroEmbed) in
  let f := Some 7%positive in
  let g0 := after footer_only NewEmbed in
  let g1 := after g0 (run demo f cs1) in
  let g2 := after g1 (run demo f cs3) in
  (NewEmbed ∅ = Ok e fresh_embed /\
   run demo e cs1 fresh_embed = Ok e h1 /\
   run demo e cs2 h1 = Ok e h2 /\
   plain_chain demo cs1 zeroEmbed = Some (r1, []) /\
   plain_chain demo cs2 r1 = Some (r1, [color_error; type_error]) /\
   exists b1 b2,
     h1 !! 2%positive = Some (OEmbed b1) /\ Errors b1 = None /\
     h2 !! 2%positive = Some (OEmbed b2) /\ Errors b2 <> None /\
     errorList h1 2%positive = [] /\
     errorList h2 2%positive = [color_error; type_error]) /\
  (NewEmbed footer_only = Ok f g0 /\
   run demo f cs1 g0 = Ok f g1 /\
   run demo f cs3 g1 = Ok f g2 /\
   Forall (ptrs_ok g0) (cs1 ++ cs3) /\
   verdicts demo 7%positive cs1 g0 = [[]; []] /\
   verdicts demo 7%positive cs3 g1
     = [[color_error]; [footer_error]; [type_error]] /\
   exists b1 b2,
     g1 !! 7%positive = Some (OEmbed b1) /\ Errors b1 = None /\
     g2 !! 7%positive = Some (OEmbed b2) /\ Errors b2 <> None /\
     errorList g1 7%positive = [] /\
     errorList g2 7%positive = [color_error; footer_error; type_error]).
Proof.
  intros cs1 cs2 cs3 e h1 h2 r1 f g0 g1 g2. split.
  - assert (H0 : NewEmbed ∅ = Ok e fresh_embed) by reflexivity.
    assert (H1 : run demo e cs1 fresh_embed = Ok e h1) by (vm_compute; reflexivity).
    assert (H2 : run demo e cs2 h1 = Ok e h2) by (vm_compute; reflexivity).
    assert (Hp1 : plain_chain demo cs1 zeroEmbed = Some (r1, []))
      by (vm_compute; reflexivity).
    assert (Hp2 : plain_chain demo cs2 r1 = Some (r1, [color_error; type_error]))
      by (vm_compute; reflexivity).
    split; [exact H0|]. split; [exact H1|]. split; [exact H2|].
    split; [exact Hp1|]. split; [exact Hp2|].
    destruct (errors_nil_until_first_failure demo ∅ e fresh_embed cs1 e h1 cs2 e h2
                H0 H1 H2)
      as (e' & b0 & b1 & b2 & He & _ & _ & _ & _ & Hb1 & Hb2 & _ & _ & _ & _ & _
          & _ & Hplain).
    injection He as <-.
    destruct (Hplain r1 [] Hp1) as (Hl1 & Hn1 & Hnext).
    destruct (Hnext r1 _ Hp2) as (Hl2 & Hn2).
    exists b1, b2. split; [exact Hb1|]. split; [now apply Hn1|].
    split; [exact Hb2|]. split; [|split; [exact Hl1 | exact Hl2]].
    intros Hnil. apply Hn2 in Hnil as [_ Hnil]. discriminate.
  - assert (H0 : NewEmbed footer_only = Ok f g0) by (vm_compute; reflexivity).
    assert (H1 : run demo f cs1 g0 = Ok f g1) by (vm_compute; reflexivity).
    assert (H2 : run demo f cs3 g1 = Ok f g2) by (vm_compute; reflexivity).
    assert (Hcs : Forall (ptrs_ok g0) (cs1 ++ cs3)).
    { repeat apply List.Forall_cons; try apply List.Forall_nil; try exact I.
      exists 3%positive, (mkBuilder (Some 4%positive) (Some 5%positive)).
      split; [reflexivity|]. split; [reflexivity|].
      exists [footer_error]. reflexivity. }
    assert (Hv1 : verdicts demo 7%positive cs1 g0 = [[]; []])
      by (vm_compute; reflexivity).
    assert (Hv3 : verdicts demo 7%positive cs3 g1
                  = [[color_error]; [footer_error]; [type_error]])
      by (vm_compute; reflexivity).
    split; [exact H0|]. split; [exact H1|]. split; [exact H2|].
    split; [exact Hcs|]. split; [exact Hv1|]. split; [exact Hv3|].
    destruct (errors_nil_until_first_failure demo footer_only f g0 cs1 f g1 cs3 f g2
                H0 H1 H2)
      as (e' & b0 & b1 & b2 & He & _ & _ & _ & _ & Hb1 & Hb2 & _ & _ & _ & _ & _
          & Htie & _).
    injection He as <-.
    destruct (Htie Hcs) as (_ & _ & Hl1 & Hl2 & Hn1 & Hn2).
    change (flat_map expand cs1) with cs1 in Hl1, Hl2, Hn1, Hn2.
    change (flat_map expand cs3) with cs3 in Hl2, Hn2.
    rewrite Hv1 in Hl1, Hl2, Hn1, Hn2. rewrite Hv3 in Hl2, Hn2.
    exists b1, b2. split; [exact Hb1|]. split.
    + apply Hn1. repeat apply List.Forall_cons; try apply List.Forall_nil;
        reflexivity.
    + split; [exact Hb2|]. split; [|split; [exact Hl1 | exact Hl2]].
      intros Hnil. apply Hn2 in Hnil as [_ Hnil].
      apply Forall_cons in Hnil as [Hnil _]. discriminate.
Defined.
